(** * Raycast / After Effects bridge (bridge-utils.ts)

A shallow embedding of the bridge utilities and of the ExtendScript
consumer script they install into the host:

- [Js]   : JavaScript strings as sequences of UTF-16 code units, and the
           regular-expression character class used by the consumer;
- [Host] : the ExtendScript side ([rbEnsureDir], [rbCleanupOldFiles],
           [rbProcess]) over the queue directory and the scripting
           capabilities of the host application;
- [Node] : the Node.js side ([discoverAETargets], [installUnifiedBridge],
           [queueCommand], [isAERunning], [runOnDemand]) over a
           hierarchical file system, in a state-and-exception monad that
           also logs every call leaving the process;
- [Ui]   : the parts of the command (browse-audio-files.tsx) that do
           not depend on the interface: the favorites file, the
           categories, the shuffle score and the list shown. *)

From Stdlib Require Import ZArith NArith List String Ascii Bool Lia DecimalString.
From Stdlib Require Import Sorted.
From Stdlib Require DecimalZ.
From stdpp Require Import base option list gmap strings.
Import ListNotations.

Local Open Scope Z_scope.

(* ===================================================================== *)
(** ** JavaScript strings *)
(* ===================================================================== *)

Module Js.

(** A JavaScript string is a sequence of UTF-16 code units. *)
Definition str := list N.

(** A source literal (ASCII only). *)
Definition lit (s : string) : str :=
  List.map N_of_ascii (list_ascii_of_string s).

(** The character class [\s] (ECMAScript WhiteSpace and LineTerminator):
    TAB, LF, VT, FF, CR, SP, NBSP, the Unicode space separators, LS, PS
    and the byte order mark. *)
Definition isWhiteSpace (c : N) : bool :=
  ((c =? 9) || (c =? 10) || (c =? 11) || (c =? 12) || (c =? 13) ||
   (c =? 32) || (c =? 160) || (c =? 5760) ||
   ((8192 <=? c) && (c <=? 8202)) ||
   (c =? 8232) || (c =? 8233) || (c =? 8239) || (c =? 8287) ||
   (c =? 12288) || (c =? 65279))%N.

(** [s.replace(/\s+$/, '')]: the pattern has no [g] or [m] flag, so the
    leftmost match is replaced and [$] is the end of the input. The
    leftmost position from which white space runs up to the end is the
    start of the maximal trailing run, which is therefore what is
    removed. The function walks from the right: a character is dropped
    exactly when it is white space and everything after it was dropped. *)
Fixpoint stripTrailingWs (s : str) : str :=
  match s with
  | [] => []
  | c :: r =>
      match stripTrailingWs r with
      | [] => if isWhiteSpace c then [] else [c]
      | r' => c :: r'
      end
  end.

(** [s.trim()] removes white space at both ends. *)
Fixpoint stripLeadingWs (s : str) : str :=
  match s with
  | [] => []
  | c :: r => if isWhiteSpace c then stripLeadingWs r else s
  end.

Definition trim (s : str) : str := stripTrailingWs (stripLeadingWs s).

(** Truthiness of a string: only the empty string is falsy. *)
Definition truthy (s : str) : bool :=
  match s with [] => false | _ => true end.

Definition eqb (a b : str) : bool := bool_decide (a = b).

(** The line feed appended by the producer. *)
Definition LF : N := 10%N.

(** The surrogates: a high one followed by a low one stands for one
    character; any other surrogate is a lone one. *)
Definition isHighSurrogate (c : N) : bool := ((55296 <=? c) && (c <=? 56319))%N.
Definition isLowSurrogate (c : N) : bool := ((56320 <=? c) && (c <=? 57343))%N.

(** U+FFFD, the replacement character. *)
Definition REPLACEMENT : N := 65533%N.

(** [s.toWellFormed()]: every lone surrogate is replaced by U+FFFD. It
    is what is left of a string that goes through UTF-8: the encoder
    writes a surrogate pair as one character of four bytes, and the bytes
    of U+FFFD (EF BF BD) for a lone surrogate. *)
Fixpoint toWellFormed (s : str) : str :=
  match s with
  | [] => []
  | c :: r =>
      if isHighSurrogate c then
        match r with
        | d :: r' =>
            if isLowSurrogate d then c :: d :: toWellFormed r'
            else REPLACEMENT :: toWellFormed r
        | [] => [REPLACEMENT]
        end
      else if isLowSurrogate c then REPLACEMENT :: toWellFormed r
      else c :: toWellFormed r
  end.

(** [s.isWellFormed()]: no lone surrogate. *)
Definition isWellFormed (s : str) : bool := eqb (toWellFormed s) s.

(** The bytes of one character in UTF-8. *)
Definition utf8Char (cp : N) : list N :=
  (if cp <? 128 then [cp]
   else if cp <? 2048 then [192 + cp / 64; 128 + cp mod 64]
   else if cp <? 65536 then
     [224 + cp / 4096; 128 + (cp / 64) mod 64; 128 + cp mod 64]
   else [240 + cp / 262144; 128 + (cp / 4096) mod 64;
         128 + (cp / 64) mod 64; 128 + cp mod 64])%N.

(** [Buffer.from(s, "utf8")]: the bytes written for a string. *)
Fixpoint utf8Encode (s : str) : list N :=
  match s with
  | [] => []
  | c :: r =>
      if isHighSurrogate c then
        match r with
        | d :: r' =>
            if isLowSurrogate d
            then utf8Char (65536 + (c - 55296) * 1024 + (d - 56320))%N
                 ++ utf8Encode r'
            else utf8Char REPLACEMENT ++ utf8Encode r
        | [] => utf8Char REPLACEMENT
        end
      else if isLowSurrogate c then utf8Char REPLACEMENT ++ utf8Encode r
      else utf8Char c ++ utf8Encode r
  end.

(** [s] does not end in a white-space character. *)
Definition endsInWs (s : str) : bool :=
  match List.rev s with
  | [] => false
  | c :: _ => isWhiteSpace c
  end.

End Js.

(** The two kinds of queue file: ['cmd'] holds an audio path to import,
    ['jsx'] holds script text to evaluate. *)
Inductive FileType := cmd | jsx.

Definition extension (t : FileType) : string :=
  match t with cmd => "cmd" | jsx => "jsx" end.

(** [name] ends with [suffix]; this is how the masks ['*.cmd'] and
    ['*.jsx'] of [Folder.getFiles] select entries. *)
Definition endsWith (suffix name : string) : bool :=
  bool_decide (List.rev (list_ascii_of_string suffix)
               `prefix_of` List.rev (list_ascii_of_string name)).

(* ===================================================================== *)
(** ** The consumer script run inside the host (ExtendScript) *)
(* ===================================================================== *)

Module Host.

(** An entry of the queue directory as [Folder.getFiles] returns it: a
    [File] or a [Folder] object, with its modification time in
    milliseconds and, for a file, what [read()] gives ([None] when
    reading raises). *)
Record QEntry := {
  name : string;
  isFile : bool;
  modified : Z;
  content : option Js.str
}.

(** The queue directory: [None] while it does not exist, otherwise its
    entries in listing order. *)
Definition Queue := option (list QEntry).

Definition entries (q : Queue) : list QEntry :=
  match q with Some es => es | None => [] end.

(** [app.project.activeItem]. *)
Record ActiveItem := {
  isCompItem : bool;
  selectedLayers : nat
}.

Inductive ImportOutcome :=
| ImportThrows      (* importFile (or ImportOptions) raises *)
| ImportNull        (* importFile returns a falsy value *)
| ImportFootage.    (* importFile returns the footage item *)

(** The scripting runtime of the host seen from one tick: only the call
    boundary is modelled, each field answers one call of the script. *)
Record App := {
  hasProject : bool;                    (* app.project is truthy *)
  activeItem : option ActiveItem;       (* app.project.activeItem *)
  importFile : Js.str -> ImportOutcome; (* prj.importFile(new ImportOptions(new File(p))) *)
  audioBinExists : bool;                (* a FolderItem named 'Audio' exists *)
  addFolderOk : bool;                   (* prj.items.addFolder('Audio') does not raise *)
  layersAddOk : bool;                   (* comp.layers.add / startTime do not raise *)
  evalOk : Js.str -> bool               (* eval(code) does not raise *)
}.

(** Calls made by the script, in order. *)
Inductive Event :=
| EvCreateDir
| EvRead (n : string)
| EvRemove (n : string)
| EvBeginUndoGroup
| EvEndUndoGroup
| EvImportFile (p : Js.str)
| EvAddFolder
| EvSetParentFolder
| EvLayersAdd
| EvEval (code : Js.str).

Definition STOP_BRIDGE : string := "STOP_BRIDGE.txt".

(** [5 * 60 * 1000] *)
Definition maxAge : Z := 5 * 60 * 1000.

(** The repeat interval given to [app.scheduleTask]. *)
Definition tickInterval : Z := 5000.

(** [function rbEnsureDir(p){var f=new Folder(p);if(!f.exists){f.create();}return f;}],
    the creation being taken to succeed. *)
Definition rbEnsureDir (q : Queue) : Queue * list Event :=
  match q with
  | Some es => (Some es, [])
  | None => (Some [], [EvCreateDir])
  end.

Inductive Mask := MaskAll | MaskExt (t : FileType).

Definition matches (m : Mask) (e : QEntry) : bool :=
  match m with
  | MaskAll => true
  | MaskExt t => endsWith ("." ++ extension t) (name e)
  end.

(** [queue.getFiles(mask)] *)
Definition getFiles (m : Mask) (q : Queue) : list QEntry :=
  List.filter (matches m) (entries q).

(** [f.remove()] on the entry called [n]; the call is taken to succeed
    (in ExtendScript it answers [false] rather than raise when it does
    not). *)
Definition removeEntry (n : string) (q : Queue) : Queue :=
  match q with
  | Some es => Some (List.filter (fun e => negb (String.eqb (name e) n)) es)
  | None => None
  end.

Definition present (n : string) (q : Queue) : bool :=
  existsb (fun e => String.eqb (name e) n) (entries q).

(** The loop of [rbCleanupOldFiles]:
    [var age = now - f.modified.getTime(); if (age > maxAge) { f.remove(); }] *)
Fixpoint sweep (now : Z) (files : list QEntry) (q : Queue) : Queue * list Event :=
  match files with
  | [] => (q, [])
  | f :: rest =>
      if maxAge <? now - modified f
      then let '(q', evs) := sweep now rest (removeEntry (name f) q) in
           (q', EvRemove (name f) :: evs)
      else sweep now rest q
  end.

(** [function rbCleanupOldFiles()] *)
Definition rbCleanupOldFiles (now : Z) (q : Queue) : Queue * list Event :=
  let '(q1, ev1) := rbEnsureDir q in
  let files := getFiles MaskAll q1 in
  match files with
  | [] => (q1, ev1)
  | _ => let '(q2, ev2) := sweep now files q1 in (q2, ev1 ++ ev2)
  end.

(** How the [try { ... } catch(e) { ok=false; }] around the dispatch
    ends: normally with the value of [ok], or through the handler. *)
Inductive Completion := Normal (ok : bool) | Thrown.

Definition okOf (c : Completion) : bool :=
  match c with Normal ok => ok | Thrown => false end.

(** The dispatch by [fileType] inside [rbProcess]. *)
Definition dispatch (app : App) (fileType : FileType) (content : Js.str)
  : Completion * list Event :=
  match fileType with
  | cmd =>
      match importFile app content with
      | ImportThrows => (Thrown, [EvBeginUndoGroup; EvImportFile content])
      | ImportNull =>
          (Normal false, [EvBeginUndoGroup; EvImportFile content; EvEndUndoGroup])
      | ImportFootage =>
          let bin := (if audioBinExists app then [] else [EvAddFolder])
                     ++ [EvSetParentFolder] in
          if negb (audioBinExists app) && negb (addFolderOk app)
          then (Thrown, [EvBeginUndoGroup; EvImportFile content; EvAddFolder])
          else
          match activeItem app with
          | Some comp =>
              if isCompItem comp then
                if layersAddOk app
                then (Normal true,
                      [EvBeginUndoGroup; EvImportFile content] ++ bin
                      ++ [EvLayersAdd; EvEndUndoGroup])
                else (Thrown,
                      [EvBeginUndoGroup; EvImportFile content] ++ bin
                      ++ [EvLayersAdd])
              else (Normal false,
                    [EvBeginUndoGroup; EvImportFile content] ++ bin
                    ++ [EvEndUndoGroup])
          | None => (Normal false,
                     [EvBeginUndoGroup; EvImportFile content] ++ bin
                     ++ [EvEndUndoGroup])
          end
      end
  | jsx =>
      if evalOk app content
      then (Normal true, [EvBeginUndoGroup; EvEval content; EvEndUndoGroup])
      else (Thrown, [EvBeginUndoGroup; EvEval content])
  end.

(** [new File(queue + '/STOP_BRIDGE.txt').exists] *)
Definition stopFileExists (q : Queue) : bool := present STOP_BRIDGE q.

(** The guard "user has layers selected":
    [app.project && app.project.activeItem], then
    [comp instanceof CompItem && comp.selectedLayers && comp.selectedLayers.length > 0]. *)
Definition userBusy (app : App) : bool :=
  hasProject app &&
  match activeItem app with
  | Some comp => isCompItem comp && (0 <? selectedLayers comp)%nat
  | None => false
  end.

(** [allFiles]: every ['*.cmd'] entry, then every ['*.jsx'] entry, each
    group in listing order. *)
Definition allFiles (q : Queue) : list (QEntry * FileType) :=
  List.map (fun f => (f, cmd)) (getFiles (MaskExt cmd) q)
  ++ List.map (fun f => (f, jsx)) (getFiles (MaskExt jsx) q).

(** [var item = allFiles[0]] *)
Definition selected (q : Queue) : option (QEntry * FileType) :=
  List.head (allFiles q).

(** [function rbProcess()], one tick of the timer. *)
Definition rbProcess (app : App) (q : Queue) : Queue * list Event :=
  let '(q1, ev1) := rbEnsureDir q in
  if stopFileExists q1 then (q1, ev1) else
  if userBusy app then (q1, ev1) else
  match selected q1 with
  | None => (q1, ev1)
  | Some (f, fileType) =>
      if negb (isFile f) then (q1, ev1) else
      match content f with
      | None => (q1, ev1 ++ [EvRead (name f)])
      | Some raw =>
          let content := Js.stripTrailingWs raw in
          if negb (Js.truthy content) then (q1, ev1 ++ [EvRead (name f)]) else
          if negb (hasProject app) then (q1, ev1 ++ [EvRead (name f)]) else
          let '(c, evs) := dispatch app fileType content in
          if okOf c
          then (removeEntry (name f) q1,
                ev1 ++ [EvRead (name f)] ++ evs ++ [EvRemove (name f)])
          else (q1, ev1 ++ [EvRead (name f)] ++ evs)
      end
  end.

(** Loading the script: the sweep runs once, then the timer is armed
    ([app.scheduleTask('rbProcess()', 5000, true)]); [apps] gives the
    state of the host at each later tick. *)
Fixpoint ticks (apps : list App) (q : Queue) : Queue * list Event :=
  match apps with
  | [] => (q, [])
  | app :: rest =>
      let '(q1, ev1) := rbProcess app q in
      let '(q2, ev2) := ticks rest q1 in
      (q2, ev1 ++ ev2)
  end.

Definition loadScript (now : Z) (apps : list App) (q : Queue)
  : Queue * list Event :=
  let '(q0, ev0) := rbCleanupOldFiles now q in
  let '(q1, ev1) := ticks apps q0 in
  (q1, ev0 ++ ev1).

End Host.

(* ===================================================================== *)
(** ** The Node.js side *)
(* ===================================================================== *)

Module Node.

(** A path is the list of its components from the root; [path.join]
    appends components. *)
Abbreviation path := (list string).

(** What a path holds: a directory, or a file. A file is given by its
    text, the string that its bytes are the UTF-8 encoding of (and that
    [readFileSync(p, "utf8")] returns): the bytes of the file are
    [Js.utf8Encode data]. *)
Inductive node := Dir | File (data : Js.str).

#[global] Instance node_eq_dec : EqDecision node.
Proof. solve_decision. Defined.

(** The file system: what each path holds. The root [[]] is a
    directory. *)
Abbreviation fs := (gmap (list string) node).

Definition look (s : fs) (p : path) : option node :=
  match p with
  | [] => Some Dir
  | _ => s !! p
  end.

Definition dirname (p : path) : path := removelast p.

(** [p + suffix] on the string form of a path. *)
Definition addSuffix (p : path) (suffix : string) : path :=
  match List.rev p with
  | [] => [suffix]
  | n :: r => List.rev ((n ++ suffix)%string :: r)
  end.

(** The AppleScript programs handed to [/usr/bin/osascript]. *)
Inductive Script :=
| ProbeProcess               (* tell application "System Events" to return (exists process "After Effects") *)
| DoScriptFile (p : path)    (* tell application "After Effects": activate; DoScriptFile POSIX file p *)
| RunListener                (* tell application "After Effects": activate; DoScriptFile .../aelistener.jsx *)
| Activate.                  (* tell application "After Effects" to activate *)

(** How the child process ends: the ['error'] event, or ['close'] with
    an exit code after the given standard output. *)
Inductive SpawnResult := SpawnError | Closed (code : Z) (stdout : Js.str).

(** Every call that leaves the process, in order. *)
Inductive Effect :=
| EMkdir (p : path)
| EWrite (p : path) (data : Js.str)
| ERename (a b : path)
| EUnlink (p : path)
| ERead (p : path)
| EReaddir (p : path)
| EStat (p : path)
| ESpawn (s : Script)
| ESleep (ms : Z)
| EConsoleError.

(** An AppleScript addressed to the host starts the host when it is not
    running; the process query is addressed to System Events. *)
Definition launchesHost (e : Effect) : bool :=
  match e with
  | ESpawn ProbeProcess => false
  | ESpawn _ => true
  | _ => false
  end.

Definition mutatesFs (e : Effect) : bool :=
  match e with
  | EMkdir _ | EWrite _ _ | ERename _ _ | EUnlink _ => true
  | _ => false
  end.

Inductive Exn :=
| FsError (syscall : string) (p : path)  (* thrown by an fs.*Sync call *)
| NotRunning          (* Error("After Effects is not running. Please open After Effects first.") *)
| AppleScriptFailed   (* Error(`AppleScript failed: ...`), exit code not 0 *)
| SpawnFailed         (* the 'error' event of the child process *)
| ArtifactNotFound    (* Error("Artifact not found") *)
| JsonSyntaxError     (* thrown by JSON.parse *)
| TimedOut            (* Error("Timed out waiting for After Effects") *)
| LaunchFailed (code : Z)  (* Error(`Failed to launch AE: code ...`) *)
| Diverged.           (* the loop budget of the model ran out *)

(** The world of one process: the disk, the clock in milliseconds and
    the calls made so far. The clock is what [Date.now()] reads; it
    advances while the process waits on a timer, by the delay asked for
    or more. The time that the other calls take is not measured: when a
    statement says that the clock is where it was, it says that no timer
    was waited on. *)
Record World := {
  files : gmap (list string) node;
  clock : Z;                (* Date.now() *)
  trace : list Effect
}.

Inductive Res (A : Type) := Ok (a : A) | Throw (e : Exn).
Arguments Ok {A} a.
Arguments Throw {A} e.

(** Computations: state passing over the world, with exceptions. *)
Definition M (A : Type) := World -> Res A * World.

Definition ret {A} (a : A) : M A := fun w => (Ok a, w).
Definition throw {A} (e : Exn) : M A := fun w => (Throw e, w).
Definition bind {A B} (m : M A) (k : A -> M B) : M B :=
  fun w => match m w with
           | (Ok a, w') => k a w'
           | (Throw e, w') => (Throw e, w')
           end.
(** [try { m } catch (e) { h e }] *)
Definition tryCatch {A} (m : M A) (h : Exn -> M A) : M A :=
  fun w => match m w with
           | (Ok a, w') => (Ok a, w')
           | (Throw e, w') => h e w'
           end.

Declare Scope js_scope.
Delimit Scope js_scope with js.
Notation "x <- m ;; k" := (bind m (fun x => k))
  (at level 100, m at next level, right associativity) : js_scope.
Notation "m ;; k" := (bind m (fun _ => k))
  (at level 100, right associativity) : js_scope.
Local Open Scope js_scope.

(** [try { m } catch {}] *)
Definition tryIgnore (m : M unit) : M unit := tryCatch m (fun _ => ret tt).

Definition emit (e : Effect) : M unit :=
  fun w => (Ok tt, {| files := files w; clock := clock w; trace := trace w ++ [e] |}).

Definition getFiles : M fs := fun w => (Ok (files w), w).
Definition putFiles (s : fs) : M unit :=
  fun w => (Ok tt, {| files := s; clock := clock w; trace := trace w |}).

(** [for (const x of l) body(x)] *)
Fixpoint forEach {A} (l : list A) (body : A -> M unit) : M unit :=
  match l with
  | [] => ret tt
  | x :: r => body x ;; forEach r body
  end.

(** [l.filter(p)] with an effectful predicate. *)
Fixpoint filterM {A} (p : A -> M bool) (l : list A) : M (list A) :=
  match l with
  | [] => ret []
  | x :: r => b <- p x ;; r' <- filterM p r ;; ret (if b then x :: r' else r')
  end.

(** A loop that threads an accumulator. *)
Fixpoint foldM {A B} (f : B -> A -> M B) (l : list A) (b : B) : M B :=
  match l with
  | [] => ret b
  | x :: r => b' <- f b x ;; foldM f r b'
  end.

Fixpoint mapM {A B} (f : A -> M B) (l : list A) : M (list B) :=
  match l with
  | [] => ret []
  | x :: r => y <- f x ;; ys <- mapM f r ;; ret (y :: ys)
  end.

(** *** File-system calls on the state *)

Section FileSystem.

(** Directories in which no new entry can be created (read-only,
    full, ...). Existing files can still be overwritten or removed. *)
Variable locked : path -> bool.

(** [mkdir -p]: walks the components from the root, creating those
    that are missing; stops at a component that is a file or cannot
    be created, leaving what was created so far. *)
Fixpoint mkdirFrom (s : fs) (done : path) (todo : list string) : fs * bool :=
  match todo with
  | [] => (s, true)
  | c :: rest =>
      let q := done ++ [c] in
      match s !! q with
      | Some Dir => mkdirFrom s q rest
      | Some (File _) => (s, false)
      | None =>
          if locked done then (s, false)
          else mkdirFrom (<[q := Dir]> s) q rest
      end
  end.

Definition mkdirp (s : fs) (p : path) : fs * bool := mkdirFrom s [] p.

Definition creatable (s : fs) (p : path) : bool :=
  match look s (dirname p) with
  | Some Dir => negb (locked (dirname p))
  | _ => false
  end.

(** Writing the string [data] in UTF-8: the text of the file is then
    [data] with U+FFFD for each lone surrogate it had. *)
Definition writeFile (s : fs) (p : path) (data : Js.str) : option fs :=
  match look s p with
  | Some Dir => None
  | Some (File _) => Some (<[p := File (Js.toWellFormed data)]> s)
  | None =>
      if creatable s p then Some (<[p := File (Js.toWellFormed data)]> s)
      else None
  end.

Definition unlink (s : fs) (p : path) : option fs :=
  match look s p with
  | Some (File _) => Some (delete p s)
  | _ => None
  end.

(** Only files are renamed by the program (a file it has just
    written); the call replaces a file at the destination. *)
Definition rename (s : fs) (a b : path) : option fs :=
  match look s a with
  | Some (File data) =>
      let s' := delete a s in
      match look s' b with
      | Some Dir => None
      | Some (File _) => Some (<[b := File data]> s')
      | None => if creatable s' b then Some (<[b := File data]> s') else None
      end
  | _ => None
  end.

Definition readFile (s : fs) (p : path) : option Js.str :=
  match look s p with
  | Some (File data) => Some data
  | _ => None
  end.

(** The name [n] when [k] is [p/n]. *)
Definition childName (p k : path) : option string :=
  match List.rev k with
  | n :: r => if bool_decide (List.rev r = p) then Some n else None
  | [] => None
  end.

Definition readdir (s : fs) (p : path) : option (list string) :=
  match look s p with
  | Some Dir => Some (omap (fun kv => childName p (fst kv)) (map_to_list s))
  | _ => None
  end.

Definition isDirectory (s : fs) (p : path) : option bool :=
  match look s p with
  | Some Dir => Some true
  | Some (File _) => Some false
  | None => None
  end.

End FileSystem.

(** *** The environment of one run *)

Record OnDemandResult := {
  ok : bool;
  result : option (string * string * Z);  (* requestId, operation, elapsedMs *)
  error : option string
}.

Inductive OnDemandCommand :=
| import_audio (p : Js.str) (requireActiveComp : option bool)
| run_jsx_text (code : Js.str)
| run_jsx_file (p : path).

Definition action (c : OnDemandCommand) : string :=
  match c with
  | import_audio _ _ => "import_audio"
  | run_jsx_text _ => "run_jsx_text"
  | run_jsx_file _ => "run_jsx_file"
  end.

Record Env := {
  HOME : path;                          (* process.env.HOME *)
  locked : path -> bool;
  randomSuffix : string;                (* Math.random().toString(36).slice(2) *)
  osascript : Script -> SpawnResult;    (* how each child process ends *)
  late : Z -> N;
      (* by how many milliseconds the timer set when the clock shows the
         given time is overrun: how long after it is due the process
         goes on, the time taken by the calls it makes up to its next
         look at the clock included *)
  others : Z -> gmap (list string) node -> gmap (list string) node;
      (* what other processes (the host) have done to the file system
         when the clock shows the given time *)
  bridgeCode : Js.str;                  (* the text getUnifiedBridgeCode() returns *)
  importJsx : Js.str -> Js.str;         (* the import script around the escaped path *)
  stringify : OnDemandCommand -> string -> path -> Js.str;  (* JSON.stringify(payload) *)
  parse : Js.str -> option OnDemandResult                   (* JSON.parse *)
}.

(** *** The program *)

Section Program.

Variable env : Env.

(** [Date.now()] *)
Definition dateNow : M Z := fun w => (Ok (clock w), w).

(** When the timer set for [ms] milliseconds at the time [t] fires: not
    before it is due. *)
Definition wakeTime (t ms : Z) : Z := t + ms + Z.of_N (late env t).

(** [await new Promise(r => setTimeout(r, ms))]: time passes, [ms]
    milliseconds at least, and the other processes act meanwhile. *)
Definition sleep (ms : Z) : M unit :=
  fun w => (Ok tt, {| files := others env (wakeTime (clock w) ms) (files w);
                      clock := wakeTime (clock w) ms;
                      trace := trace w ++ [ESleep ms] |}).

(** [fs.mkdirSync(p, { recursive: true })] *)
Definition mkdirSync (p : path) : M unit :=
  emit (EMkdir p) ;;
  s <- getFiles ;;
  let '(s', done) := mkdirp (locked env) s p in
  putFiles s' ;;
  if done then ret tt else throw (FsError "mkdir" p).

(** [fs.writeFileSync(p, data, { encoding: "utf8" })] *)
Definition writeFileSync (p : path) (data : Js.str) : M unit :=
  emit (EWrite p data) ;;
  s <- getFiles ;;
  match writeFile (locked env) s p data with
  | Some s' => putFiles s'
  | None => throw (FsError "open" p)
  end.

(** [fs.renameSync(a, b)] *)
Definition renameSync (a b : path) : M unit :=
  emit (ERename a b) ;;
  s <- getFiles ;;
  match rename (locked env) s a b with
  | Some s' => putFiles s'
  | None => throw (FsError "rename" a)
  end.

(** [fs.unlinkSync(p)] *)
Definition unlinkSync (p : path) : M unit :=
  emit (EUnlink p) ;;
  s <- getFiles ;;
  match unlink s p with
  | Some s' => putFiles s'
  | None => throw (FsError "unlink" p)
  end.

(** [fs.readFileSync(p, "utf8")] *)
Definition readFileSync (p : path) : M Js.str :=
  emit (ERead p) ;;
  s <- getFiles ;;
  match readFile s p with
  | Some data => ret data
  | None => throw (FsError "open" p)
  end.

(** [fs.readdirSync(p)] *)
Definition readdirSync (p : path) : M (list string) :=
  emit (EReaddir p) ;;
  s <- getFiles ;;
  match readdir s p with
  | Some names => ret names
  | None => throw (FsError "scandir" p)
  end.

(** [fs.statSync(p).isDirectory()] *)
Definition statIsDirectory (p : path) : M bool :=
  emit (EStat p) ;;
  s <- getFiles ;;
  match isDirectory s p with
  | Some b => ret b
  | None => throw (FsError "stat" p)
  end.

(** The promise around [spawn("/usr/bin/osascript", ["-e", script])]:
    resolves with the standard output when the exit code is 0, rejects
    otherwise and on the ['error'] event. *)
Definition runOsascript (s : Script) : M Js.str :=
  emit (ESpawn s) ;;
  match osascript env s with
  | Closed code stdout =>
      if code =? 0 then ret stdout else throw AppleScriptFailed
  | SpawnError => throw SpawnFailed
  end.

(** [Z] in decimal, as a template literal prints it. *)
Definition decimal (z : Z) : string := NilZero.string_of_int (Z.to_int z).

(** [export function getBridgeQueueDir()] *)
Definition getBridgeQueueDir : path :=
  HOME env ++ ["Library"; "Application Support"; "raycast-ae-bridge"; "queue"]%string.

Record BridgeTarget := {
  base : path;
  versions : list string
}.

Inductive Message :=
| CouldNotCreate                (* "Could not create any Startup folder" *)
| Installed (installs : nat)    (* `Installed Bridge in ${installs} version(s)` *)
| Failure (e : Exn).            (* e?.message || "Installation failed" *)

Record BridgeInstallResult := {
  success : bool;
  installCount : nat;
  message : Message
}.

Definition candidates : list path :=
  [ HOME env ++ ["Library"; "Preferences"; "Adobe"; "After Effects"]%string;
    HOME env ++ ["Library"; "Application Support"; "Adobe"; "After Effects"]%string ].

Definition seedVersions : list string := ["25.0"; "24.0"; "23.0"]%string.

(** The body of the loop over [candidates] in [discoverAETargets]. *)
Definition discoverTarget (base : path) : M BridgeTarget :=
  tryIgnore (mkdirSync base) ;;
  versions <-
    tryCatch
      (names <- readdirSync base ;;
       filterM (fun d => tryCatch (statIsDirectory (base ++ [d]))
                                  (fun _ => ret false)) names)
      (fun _ => ret []) ;;
  versions <-
    match versions with
    | [] =>
        forEach seedVersions
          (fun v => tryIgnore (mkdirSync (base ++ [v]))) ;;
        ret seedVersions
    | _ => ret versions
    end ;;
  ret {| base := base; versions := versions |}.

(** [export function discoverAETargets()] *)
Definition discoverAETargets : M (list BridgeTarget) :=
  mapM discoverTarget candidates.

(** The body of the inner loop of [installUnifiedBridge]. *)
Definition installVersion (base : path) (installs : nat) (version : string)
  : M nat :=
  let startupDir := base ++ [version; "Scripts"; "Startup"]%string in
  tryCatch
    (mkdirSync startupDir ;;
     let targetPath := startupDir ++ ["RaycastBridge.jsx"%string] in
     writeFileSync targetPath (bridgeCode env) ;;
     ret (S installs))
    (fun _ => ret installs).

(** [export async function installUnifiedBridge()] *)
Definition installUnifiedBridge : M BridgeInstallResult :=
  tryCatch
    (targets <- discoverAETargets ;;
     installs <-
       foldM (fun n target =>
                foldM (installVersion (base target)) (versions target) n)
             targets 0%nat ;;
     if (installs =? 0)%nat
     then ret {| success := false; installCount := 0;
                 message := CouldNotCreate |}
     else ret {| success := true; installCount := installs;
                 message := Installed installs |})
    (fun e => ret {| success := false; installCount := 0;
                     message := Failure e |}).

(** The name [`${Date.now()}-${Math.random().toString(36).slice(2)}`]. *)
Definition freshId (now : Z) : string :=
  (decimal now ++ "-" ++ randomSuffix env)%string.

(** What [queueCommand] writes for [content]. *)
Definition payloadOf (content : Js.str) : Js.str := content ++ [Js.LF].

(** [export async function queueCommand(content, fileExtension, description)] *)
Definition queueCommand (content : Js.str) (fileExtension : FileType)
    (description : string) : M bool :=
  tryCatch
    (let queue := getBridgeQueueDir in
     mkdirSync queue ;;
     now <- dateNow ;;
     let fileName := (freshId now ++ "." ++ extension fileExtension)%string in
     let cmdFile := queue ++ [fileName] in
     writeFileSync cmdFile (payloadOf content) ;;
     ret true)
    (fun _ => emit EConsoleError ;; ret false).

(** [export async function isAERunning()] *)
Definition isAERunning : M bool :=
  tryCatch
    (result <- runOsascript ProbeProcess ;;
     ret (Js.eqb (Js.trim result) (Js.lit "true")))
    (fun _ => ret false).

(** [cmd.path.replace(/\\/g, "\\\\").replace(/'/g, "\\'")] *)
Definition escapePath (p : Js.str) : Js.str :=
  let backslash := 92%N in
  let quote := 39%N in
  let step1 := List.concat
    (List.map (fun c => if (c =? backslash)%N then [backslash; backslash] else [c]) p) in
  List.concat
    (List.map (fun c => if (c =? quote)%N then [backslash; quote] else [c]) step1).

Definition deadlineMs : Z := 5000.

(** The loop [while (Date.now() - start < deadlineMs)] of [runOnDemand].
    Every iteration that does not return waits 150 ms or more, so the
    loop condition is evaluated at most [deadlineMs / 150 + 2] times;
    [budget] bounds the iterations of the model. *)
Fixpoint awaitArtifact (budget : nat) (start : Z) (cmdPath artifactPath : path)
  : M OnDemandResult :=
  match budget with
  | O => throw Diverged
  | S budget' =>
      now <- dateNow ;;
      if now - start <? deadlineMs then
        found <-
          tryCatch
            (txt <-
               tryCatch (readFileSync artifactPath)
                 (fun _ =>
                    let tmpPath := addSuffix artifactPath ".tmp" in
                    tryCatch (readFileSync tmpPath)
                             (fun _ => throw ArtifactNotFound)) ;;
             result <-
               match parse env txt with
               | Some r => ret r
               | None => throw JsonSyntaxError
               end ;;
             tryIgnore
               (unlinkSync cmdPath ;;
                unlinkSync artifactPath ;;
                tryIgnore (unlinkSync (addSuffix artifactPath ".tmp"))) ;;
             ret (Some result))
            (fun _ => sleep 150 ;; ret None) ;;
        match found with
        | Some result => ret result
        | None => awaitArtifact budget' start cmdPath artifactPath
        end
      else
        tryIgnore (unlinkSync cmdPath) ;;
        throw TimedOut
  end.

Definition awaitBudget : nat := Z.to_nat (deadlineMs / 150) + 2.

(** The part of [runOnDemand] after the fast path: the inbox command,
    the trigger of the listener and the wait for the artifact. *)
Definition queuedInvocation (cmd : OnDemandCommand) (requestId : string)
    (cmdPath artifactPath : path) : M OnDemandResult :=
  let payload := stringify env cmd requestId artifactPath in
  let inboxDir :=
    HOME env ++ ["Library"; "Application Support"; "raycast-ae-bridge"; "inbox"]%string in
  mkdirSync inboxDir ;;
  let inboxCmdPath := inboxDir ++ ["cmd.json"%string] in
  let inboxCmdTmp := addSuffix inboxCmdPath ".tmp" in
  writeFileSync inboxCmdTmp payload ;;
  renameSync inboxCmdTmp inboxCmdPath ;;
  writeFileSync cmdPath payload ;;
  runOsascript RunListener ;;
  start <- dateNow ;;
  awaitArtifact awaitBudget start cmdPath artifactPath.

(** The fast path of [runOnDemand]. *)
Definition directInvocation (cmd : OnDemandCommand) (requestId : string)
    (jobsDir : path) : M OnDemandResult :=
  let directPath := jobsDir ++ [("rb_" ++ requestId ++ "_direct.jsx")%string] in
  jsxPath <-
    match cmd with
    | run_jsx_text code =>
        writeFileSync directPath code ;; ret directPath
    | run_jsx_file p => ret p
    | import_audio p _ =>
        let jsxCode := importJsx env (escapePath p) in
        writeFileSync directPath jsxCode ;; ret directPath
    end ;;
  runOsascript (DoScriptFile jsxPath) ;;
  (if negb (String.eqb (action cmd) "run_jsx_file")
   then tryIgnore (unlinkSync jsxPath)
   else ret tt) ;;
  ret {| ok := true;
         result := Some (requestId, "direct"%string, 0);
         error := None |}.

(** [export async function runOnDemand(cmd)] *)
Definition runOnDemand (cmd : OnDemandCommand) : M OnDemandResult :=
  isRunning <- isAERunning ;;
  if negb isRunning then throw NotRunning else
  now <- dateNow ;;
  let requestId := freshId now in
  let bridgeDir :=
    HOME env ++ ["Library"; "Application Support"; "raycast-ae-bridge"]%string in
  let jobsDir := bridgeDir ++ ["jobs"%string] in
  mkdirSync bridgeDir ;;
  mkdirSync jobsDir ;;
  let cmdPath := jobsDir ++ [("rb_" ++ requestId ++ ".json")%string] in
  let artifactPath := jobsDir ++ [("rb_" ++ requestId ++ ".done.json")%string] in
  tryCatch
    (if String.eqb (action cmd) "run_jsx_text"
        || String.eqb (action cmd) "run_jsx_file"
        || String.eqb (action cmd) "import_audio"
     then directInvocation cmd requestId jobsDir
     else queuedInvocation cmd requestId cmdPath artifactPath)
    (fun error => tryIgnore (unlinkSync cmdPath) ;; throw error).

(** [export async function ensureAfterEffectsRunning()] *)
Definition ensureAfterEffectsRunning : M unit :=
  isRunning <- isAERunning ;;
  if negb isRunning then
    emit (ESpawn Activate) ;;
    match osascript env Activate with
    | Closed code _ =>
        if code =? 0 then sleep 2000 else throw (LaunchFailed code)
    | SpawnError => throw SpawnFailed
    end
  else ret tt.

End Program.

(** *** Calls used by the logs and by the favorites *)

Section MoreFileSystem.

Variable locked : path -> bool.

(** Appending in UTF-8: the text written goes after what the file
    holds; a missing file is created, as by a write. *)
Definition appendFile (s : fs) (p : path) (data : Js.str) : option fs :=
  match look s p with
  | Some Dir => None
  | Some (File old) => Some (<[p := File (old ++ Js.toWellFormed data)]> s)
  | None =>
      if creatable locked s p then Some (<[p := File (Js.toWellFormed data)]> s)
      else None
  end.

End MoreFileSystem.

(** [fs.rmSync(p, { force: true })] on the state: a missing path is not
    an error, a directory is (the call is not recursive). *)
Definition rmForce (s : fs) (p : path) : option fs :=
  match look s p with
  | Some (File _) => Some (delete p s)
  | Some Dir => None
  | None => Some s
  end.

(** [path.basename(p)] on the string form of a path: the text after the
    last ['/'], trailing separators set aside. *)
Definition isSep (c : N) : bool := (c =? 47)%N.

Fixpoint dropSeps (s : Js.str) : Js.str :=
  match s with
  | [] => []
  | c :: r => if isSep c then dropSeps r else s
  end.

Fixpoint takeName (s : Js.str) : Js.str :=
  match s with
  | [] => []
  | c :: r => if isSep c then [] else c :: takeName r
  end.

Definition basename (p : Js.str) : Js.str :=
  List.rev (takeName (dropSeps (List.rev p))).

(** The text of a label built from a JavaScript string; labels are only
    passed along, nothing reads them. *)
Definition label (prefix : string) (s : Js.str) : string :=
  (prefix ++ string_of_list_ascii (List.map ascii_of_N s))%string.

(** [a.join(sep)] *)
Fixpoint join (sep : Js.str) (l : list Js.str) : Js.str :=
  match l with
  | [] => []
  | [x] => x
  | x :: r => x ++ sep ++ join sep r
  end.

Section MoreProgram.

Variable env : Env.

(** [export async function queueAudioImport(filePath)] *)
Definition queueAudioImport (filePath : Js.str) : M bool :=
  queueCommand env filePath cmd (label "audio import: " (basename filePath)).

(** [export async function queueScriptExecution(scriptContent, scriptName)] *)
Definition queueScriptExecution (scriptContent scriptName : Js.str) : M bool :=
  queueCommand env scriptContent jsx (label "script execution: " scriptName).

(** [export async function isAfterEffectsRunning()] *)
Definition isAfterEffectsRunning : M bool := isAERunning env.

(** [fs.appendFileSync(p, data, { encoding: "utf8" })]; the call is
    logged as a write of the appended text. *)
Definition appendFileSync (p : path) (data : Js.str) : M unit :=
  emit (EWrite p data) ;;
  s <- getFiles ;;
  match appendFile (locked env) s p data with
  | Some s' => putFiles s'
  | None => throw (FsError "open" p)
  end.

(** [fs.existsSync(p)]: never raises. *)
Definition existsSync (p : path) : M bool :=
  emit (EStat p) ;;
  s <- getFiles ;;
  ret (bool_decide (is_Some (look s p))).

(** [fs.rmSync(p, { force: true })] *)
Definition rmSync (p : path) : M unit :=
  emit (EUnlink p) ;;
  s <- getFiles ;;
  match rmForce s p with
  | Some s' => putFiles s'
  | None => throw (FsError "rm" p)
  end.

(** How [Date.prototype.toISOString] prints a time value. *)
Variable toISOString : Z -> Js.str.

(** [export function nowIso()] *)
Definition nowIso : M Js.str :=
  now <- dateNow ;; ret (toISOString now).

(** [`[${nowIso()}] ${l}`] *)
Definition stamp (iso l : Js.str) : Js.str :=
  Js.lit "[" ++ iso ++ Js.lit "] " ++ l.

(** [export function getLogFilePath(extensionName)] *)
Definition getLogFilePath (extensionName : string) : path :=
  HOME env ++ ["Library"; "Logs"; ("raycast-" ++ extensionName); "ae-integration.log"]%string.

(** [export function appendLog(lines, extensionName)] *)
Definition appendLog (lines : list Js.str) (extensionName : string)
  : M (option path) :=
  tryCatch
    (let userLogDir :=
       HOME env ++ ["Library"; "Logs"; ("raycast-" ++ extensionName)]%string in
     mkdirSync env userLogDir ;;
     let userLogFile := userLogDir ++ ["ae-integration.log"%string] in
     let desktopLogFile := HOME env ++ ["Desktop"; "raycast-ae-log.txt"]%string in
     stamped <- mapM (fun l => iso <- nowIso ;; ret (stamp iso l)) lines ;;
     let content := join [Js.LF] stamped ++ [Js.LF] in
     appendFileSync userLogFile content ;;
     tryIgnore (appendFileSync desktopLogFile content) ;;
     ret (Some userLogFile))
    (fun _ => ret None).

End MoreProgram.

End Node.

(* ===================================================================== *)
(** ** Vocabulary of the statements, and sample data *)
(* ===================================================================== *)

Module Spec.

Import Host.

(** The tick of [app] on [q] gets as far as dispatching the entry [f] of
    kind [t] with the text [text]: no stop file, no layers selected, [f]
    is the selected entry, it is a file whose stripped content [text]
    is not empty, and a project is open. *)
Definition dispatches (app : App) (q : Queue) (f : QEntry) (t : FileType)
    (text : Js.str) : Prop :=
  stopFileExists q = false /\
  userBusy app = false /\
  selected q = Some (f, t) /\
  isFile f = true /\
  (exists raw, content f = Some raw /\ Js.stripTrailingWs raw = text) /\
  Js.truthy text = true /\
  hasProject app = true.

Definition isRead (e : Event) : bool :=
  match e with EvRead _ => true | _ => false end.

(** The calls that hand a job to the host. *)
Definition isDispatchCall (e : Event) : bool :=
  match e with EvImportFile _ | EvEval _ => true | _ => false end.

(** A host with a project and an open composition, nothing selected, in
    which imports and scripts succeed. *)
Definition idleApp : App :=
  {| hasProject := true;
     activeItem := Some {| isCompItem := true; selectedLayers := 0 |};
     importFile := fun _ => ImportFootage;
     audioBinExists := false;
     addFolderOk := true;
     layersAddOk := true;
     evalOk := fun _ => true |}.

(** The same host when every script raises. *)
Definition failingApp : App :=
  {| hasProject := true;
     activeItem := Some {| isCompItem := true; selectedLayers := 0 |};
     importFile := fun _ => ImportThrows;
     audioBinExists := false;
     addFolderOk := true;
     layersAddOk := true;
     evalOk := fun _ => false |}.

(** A host with a project open in which no composition is active:
    imports succeed, but there is nothing to add the layer to. *)
Definition noCompApp : App :=
  {| hasProject := true;
     activeItem := None;
     importFile := fun _ => ImportFootage;
     audioBinExists := false;
     addFolderOk := true;
     layersAddOk := true;
     evalOk := fun _ => true |}.

Definition jobFile (n : string) (mtime : Z) (text : string) : QEntry :=
  {| name := n; isFile := true; modified := mtime;
     content := Some (Node.payloadOf (Js.lit text)) |}.

Definition stopFile : QEntry :=
  {| name := STOP_BRIDGE; isFile := true; modified := 0; content := Some [] |}.

(** A queue holding the stop file and one job. *)
Definition stoppedQueue : Queue :=
  Some [ jobFile "1000-a.cmd" 1000 "/tmp/a.wav"; stopFile ].

(** A script queued at time 1000 and an import queued at time 2000. *)
Definition mixedQueue : Queue :=
  Some [ jobFile "1000-a.jsx" 1000 "alert(1)";
         jobFile "2000-b.cmd" 2000 "/tmp/b.wav" ].

(** Two imports, the first one written at time 0. *)
Definition staleQueue : Queue :=
  Some [ jobFile "0-b.cmd" 0 "/tmp/b.wav";
         jobFile "900000-a.cmd" 900000 "/tmp/a.wav" ].

End Spec.

Module NodeSpec.

Import Node.

(** The world after the calls [es] that change nothing on disk. *)
Definition logged (w : World) (es : list Effect) : World :=
  {| files := files w; clock := clock w; trace := trace w ++ es |}.

(** What [isAERunning] answers: the process query ended with code 0 and
    printed [true]. *)
Definition probeSaysRunning (env : Env) : bool :=
  match osascript env ProbeProcess with
  | Closed code stdout =>
      (code =? 0) && Js.eqb (Js.trim stdout) (Js.lit "true")
  | SpawnError => false
  end.

(** Every call made by [m] satisfies [P]; the earlier calls stay in the
    trace. *)
Definition emitsOnly {A} (P : Effect -> Prop) (m : M A) : Prop :=
  forall w, exists new,
    trace (snd (m w)) = trace w ++ new /\ Forall P new.

(** The paths of one [runOnDemand] call made when the clock shows [now]. *)
Definition jobsDirOf (env : Env) : path :=
  (HOME env ++ ["Library"; "Application Support"; "raycast-ae-bridge"]%string)
  ++ ["jobs"%string].
Definition cmdPathOf (env : Env) (now : Z) : path :=
  jobsDirOf env ++ [("rb_" ++ freshId env now ++ ".json")%string].
Definition directPathOf (env : Env) (now : Z) : path :=
  jobsDirOf env ++ [("rb_" ++ freshId env now ++ "_direct.jsx")%string].
Definition inboxDirOf (env : Env) : path :=
  HOME env ++ ["Library"; "Application Support"; "raycast-ae-bridge"; "inbox"]%string.
Definition inboxCmdPathOf (env : Env) : path :=
  inboxDirOf env ++ ["cmd.json"%string].

(** The queue file of a [queueCommand] call made when the clock shows
    [now]. *)
Definition queueFileOf (env : Env) (now : Z) (t : FileType) : path :=
  getBridgeQueueDir env ++ [(freshId env now ++ "." ++ extension t)%string].

(** The calls of the queued invocation up to the trigger of the
    listener: the inbox command goes to a temporary file that is then
    renamed; the job descriptor is written to its final path. *)
Definition queuedProtocol (env : Env) (payload : Js.str) (cmdPath : path)
  : list Effect :=
  [ EMkdir (inboxDirOf env);
    EWrite (addSuffix (inboxCmdPathOf env) ".tmp") payload;
    ERename (addSuffix (inboxCmdPathOf env) ".tmp") (inboxCmdPathOf env);
    EWrite cmdPath payload;
    ESpawn RunListener ].

Definition isRename (e : Effect) : bool :=
  match e with ERename _ _ => true | _ => false end.

(** The calls of the direct invocation: the process query, the two
    directories, the throw-away script, the automation call, and the
    removals of the script and of the descriptor path. Anything else
    (a rename, a read, a sleep, the listener, another write) belongs to
    the queued invocation. *)
Definition directEffect (env : Env) (now : Z) (e : Effect) : Prop :=
  match e with
  | ESpawn ProbeProcess => True
  | ESpawn (DoScriptFile _) => True
  | EMkdir _ => True
  | EWrite p _ => p = directPathOf env now
  | EUnlink p => p = directPathOf env now \/ p = cmdPathOf env now
  | _ => False
  end.

(** The calls that only the queued invocation makes: the writes of the
    inbox command (and of its temporary file) and of the job descriptor,
    the rename, the listener, the reads of the artifact and the sleeps
    between them. *)
Definition queuedEffect (env : Env) (now : Z) (e : Effect) : Prop :=
  match e with
  | ERename _ _ | ERead _ | ESleep _ | ESpawn RunListener => True
  | EWrite p _ =>
      p = cmdPathOf env now \/ p = inboxCmdPathOf env \/
      p = addSuffix (inboxCmdPathOf env) ".tmp"
  | _ => False
  end.

(** The result of the fast path. *)
Definition directResult (env : Env) (now : Z) : OnDemandResult :=
  {| ok := true;
     result := Some (freshId env now, "direct"%string, 0);
     error := None |}.




(** *** The installer as a function of the disk *)

(** [p] is a directory. *)
Definition isDir (s : fs) (p : path) : bool :=
  match isDirectory s p with Some true => true | _ => false end.

(** The version folders [discoverAETargets] finds under [base]: the
    entries of [readdirSync(base)] that are directories; none when the
    listing raises. *)
Definition versionsAt (s : fs) (base : path) : list string :=
  match readdir s base with
  | Some names => List.filter (fun d => isDir s (base ++ [d])) names
  | None => []
  end.

(** The seeding of the conventional version folders. *)
Definition seedAll (env : Env) (s : fs) (base : path) : fs :=
  List.fold_left (fun s v => fst (mkdirp (locked env) s (base ++ [v])))
    seedVersions s.

(** What [discoverAETargets] does with one candidate. *)
Definition discoverPure (env : Env) (s : fs) (base : path) : fs * list string :=
  let s1 := fst (mkdirp (locked env) s base) in
  match versionsAt s1 base with
  | [] => (seedAll env s1 base, seedVersions)
  | vs => (s1, vs)
  end.

Definition startupDirOf (base : path) (v : string) : path :=
  base ++ [v; "Scripts"; "Startup"]%string.

Definition scriptPathOf (base : path) (v : string) : path :=
  startupDirOf base v ++ ["RaycastBridge.jsx"%string].

(** The attempt for one version: the disk afterwards, and whether the
    script was written. *)
Definition installOne (env : Env) (s : fs) (base : path) (v : string)
  : fs * bool :=
  let '(s1, made) := mkdirp (locked env) s (startupDirOf base v) in
  if made then
    match writeFile (locked env) s1 (scriptPathOf base v) (bridgeCode env) with
    | Some s2 => (s2, true)
    | None => (s1, false)
    end
  else (s1, false).

Fixpoint installLoop (env : Env) (s : fs) (base : path) (vs : list string)
    (installs : nat) : fs * nat :=
  match vs with
  | [] => (s, installs)
  | v :: rest =>
      let '(s1, written) := installOne env s base v in
      installLoop env s1 base rest (if written then S installs else installs)
  end.

Definition preferencesBase (env : Env) : path :=
  HOME env ++ ["Library"; "Preferences"; "Adobe"; "After Effects"]%string.

Definition supportBase (env : Env) : path :=
  HOME env ++ ["Library"; "Application Support"; "Adobe"; "After Effects"]%string.

(** The whole installation: both candidates are discovered, then the
    script is written for every version of each. *)
Definition installPure (env : Env) (s : fs) : fs * nat :=
  let '(s1, v1) := discoverPure env s (preferencesBase env) in
  let '(s2, v2) := discoverPure env s1 (supportBase env) in
  let '(s3, n1) := installLoop env s2 (preferencesBase env) v1 0 in
  installLoop env s3 (supportBase env) v2 n1.

(** The record returned for a number of installs. *)
Definition resultOf (installs : nat) : BridgeInstallResult :=
  if (installs =? 0)%nat
  then {| success := false; installCount := 0; message := CouldNotCreate |}
  else {| success := true; installCount := installs;
          message := Installed installs |}.


(** The disk [s'] is a later stage of the disk [s] under the calls of the
    installer: directories stay directories, files stay files, a file
    that holds the bridge script still holds it, and a path that was
    missing in a locked directory is still missing. *)
Definition grows (env : Env) (s s' : fs) : Prop :=
  forall q : path,
    (s !! q = Some Dir -> s' !! q = Some Dir) /\
    (forall d, s !! q = Some (File d) -> exists d', s' !! q = Some (File d')) /\
    (s !! q = Some (File (Js.toWellFormed (bridgeCode env))) ->
     s' !! q = Some (File (Js.toWellFormed (bridgeCode env)))) /\
    (s !! q = None -> locked env (dirname q) = true -> s' !! q = None).

(** The disk is a tree: every entry lies in a directory. *)
Definition wellFormed (s : fs) : Prop :=
  forall (q : path) (c : string),
    is_Some (s !! (q ++ [c])) -> look s q = Some Dir.

(** Every directory directly under [base] bears a name of [vs]. *)
Definition childrenIn (base : path) (vs : list string) (s : fs) : Prop :=
  forall n, s !! (base ++ [n]) = Some Dir -> In n vs.

(** [m] never raises, leaves the clock alone, and does to the disk what
    [g] says, returning what [g] returns. *)
Definition pureRun {A} (m : M A) (g : fs -> fs * A) : Prop :=
  forall w, exists tr,
    m w = (Ok (snd (g (files w))),
           {| files := fst (g (files w)); clock := clock w; trace := tr |}).

(** An environment in which nothing can be created anywhere. *)
Definition readOnlyEnv : Env :=
  {| HOME := ["Users"; "me"]%string;
     locked := fun _ => true;
     randomSuffix := "k3x9";
     osascript := fun _ => SpawnError;
     late := fun _ => 0%N;
     others := fun _ s => s;
     bridgeCode := Js.lit "rbProcess()";
     importJsx := fun p => p;
     stringify := fun _ _ _ => [];
     parse := fun _ => None |}.

(** An environment in which the host is running, nothing is locked and
    every automation call succeeds; no other process touches the disk. *)
Definition quietEnv : Env :=
  {| HOME := ["Users"; "me"]%string;
     locked := fun _ => false;
     randomSuffix := "k3x9";
     osascript := fun s =>
       match s with
       | ProbeProcess => Closed 0 (Js.lit "true")
       | _ => Closed 0 []
       end;
     late := fun _ => 0%N;
     others := fun _ s => s;
     bridgeCode := Js.lit "rbProcess()";
     importJsx := fun p => Js.lit "import('" ++ p ++ Js.lit "')";
     stringify := fun _ _ _ => Js.lit "{}";
     parse := fun _ => Some {| ok := true; result := None; error := None |} |}.

(** The same environment when the host is not running. *)
Definition hostDownEnv : Env :=
  {| HOME := ["Users"; "me"]%string;
     locked := fun _ => false;
     randomSuffix := "k3x9";
     osascript := fun s =>
       match s with
       | ProbeProcess => Closed 0 (Js.lit "false")
       | _ => Closed 1 []
       end;
     late := fun _ => 0%N;
     others := fun _ s => s;
     bridgeCode := Js.lit "rbProcess()";
     importJsx := fun p => Js.lit "import('" ++ p ++ Js.lit "')";
     stringify := fun _ _ _ => Js.lit "{}";
     parse := fun _ => None |}.






(** An empty disk at time 0. *)
Definition emptyWorld : World := {| files := ∅; clock := 0; trace := [] |}.

End NodeSpec.

(** *** Runs of the consumer *)

Module HostSpec.

Import Host.

(** Nothing can be done with the entry, whatever the state of the host:
    it is a folder ([!(f instanceof File)]), reading it raises, or
    nothing is left of its text once the trailing white space is
    removed ([!content]). *)
Definition unusable (f : QEntry) : bool :=
  negb (isFile f) ||
  match content f with
  | None => true
  | Some raw => negb (Js.truthy (Js.stripTrailingWs raw))
  end.

(** The text of a job file as the tick hands it to the host. *)
Definition textOf (f : QEntry) : Js.str :=
  match content f with
  | Some raw => Js.stripTrailingWs raw
  | None => []
  end.

(** The call that hands a job to the host: [prj.importFile] for a
    ['cmd'] file, [eval] for a ['jsx'] file. *)
Definition callOf (job : QEntry * FileType) : Event :=
  match snd job with
  | cmd => EvImportFile (textOf (fst job))
  | jsx => EvEval (textOf (fst job))
  end.

(** The host is ready for the job: no layer is selected, a project is
    open, and the dispatch of the job ends with [ok] set. *)
Definition accepts (app : App) (job : QEntry * FileType) : Prop :=
  userBusy app = false /\
  hasProject app = true /\
  okOf (fst (dispatch app (snd job) (textOf (fst job)))) = true.

(** A queue whose first import file holds only white space, followed by
    a proper import. *)
Definition blankHeadQueue : Queue :=
  Some [ Spec.jobFile "1000-a.cmd" 1000 "  ";
         Spec.jobFile "2000-b.cmd" 2000 "/tmp/b.wav" ].

(** A host in which the user has a layer selected. *)
Definition busyApp : App :=
  {| hasProject := true;
     activeItem := Some {| isCompItem := true; selectedLayers := 1 |};
     importFile := fun _ => ImportFootage;
     audioBinExists := true;
     addFolderOk := true;
     layersAddOk := true;
     evalOk := fun _ => true |}.

End HostSpec.

(** *** The disk before and after a call *)

Module Disk.

Import Node.

(** From the disk [s] to the disk [s'], nothing changed outside the
    paths in [own], except that directories may have been created:
    no entry was removed, no file was created or rewritten. *)
Definition changesOnly (own : path -> Prop) (s s' : fs) : Prop :=
  forall p, own p \/ s' !! p = s !! p \/ (s !! p = None /\ s' !! p = Some Dir).

(** Run when the clock shows [t], the computation [m] leaves the clock
    alone and changes only [own] on the disk. *)
Definition steadyAt {A} (t : Z) (own : path -> Prop) (m : M A) : Prop :=
  forall w, clock w = t ->
    clock (snd (m w)) = t /\ changesOnly own (files w) (files (snd (m w))).

(** The script that the fast path of [runOnDemand] writes for a command;
    none for a script file, which is run where it is. *)
Definition scriptOf (env : Env) (c : OnDemandCommand) : option Js.str :=
  match c with
  | run_jsx_text code => Some code
  | import_audio p _ => Some (importJsx env (escapePath p))
  | run_jsx_file _ => None
  end.

(** The startup scripts: [RaycastBridge.jsx] in the Startup folder of
    some version under one of the two candidate bases. *)
Definition startupScript (env : Env) (p : path) : Prop :=
  exists b v, In b (candidates env) /\ p = NodeSpec.scriptPathOf b v.

(** A write to [p] succeeds: [p] is a file, or is missing in a directory
    in which it can be created. *)
Definition canWrite (locked : path -> bool) (s : fs) (p : path) : bool :=
  match look s p with
  | Some Dir => false
  | Some (File _) => true
  | None => creatable locked s p
  end.


(** The copy of the log on the desktop. *)
Definition desktopLogOf (env : Env) : path :=
  HOME env ++ ["Desktop"; "raycast-ae-log.txt"]%string.

(** The text [appendLog] adds for [lines] when the clock shows [t]: each
    line after its time stamp, a line feed after each. *)
Definition logText (toISOString : Z -> Js.str) (t : Z) (lines : list Js.str)
  : Js.str :=
  join [Js.LF] (List.map (stamp (toISOString t)) lines) ++ [Js.LF].


(** Some version folder exists under the base [b]. *)
Definition hasVersionFolder (s : fs) (b : path) : Prop :=
  exists v, s !! (b ++ [v]) = Some Dir.

(** The job files of the [runOnDemand] call made at time [t]: the
    throw-away script and the descriptor. *)
Definition requestFile (env : Env) (t : Z) (p : path) : Prop :=
  p = NodeSpec.directPathOf env t \/ p = NodeSpec.cmdPathOf env t.

(** An environment in which the host is running and refuses every
    automation call. *)
Definition refusingEnv : Env :=
  {| HOME := ["Users"; "me"]%string;
     locked := fun _ => false;
     randomSuffix := "k3x9";
     osascript := fun s =>
       match s with
       | ProbeProcess => Closed 0 (Js.lit "true")
       | _ => Closed 1 []
       end;
     late := fun _ => 0%N;
     others := fun _ s => s;
     bridgeCode := Js.lit "rbProcess()";
     importJsx := fun p => Js.lit "import('" ++ p ++ Js.lit "')";
     stringify := fun _ _ _ => Js.lit "{}";
     parse := fun _ => None |}.

(** The handler of [runOnDemand]:
    [try { fs.unlinkSync(cmdPath); } catch {}] before the error is
    raised again. *)
Definition afterHandler (cmdPath : path) (s : fs) : fs :=
  match unlink s cmdPath with
  | Some s' => s'
  | None => s
  end.

(** [runOnDemand] with the host running, as a function of the disk: the
    two directories, the throw-away script, the automation call on the
    script [jsxPath], and the removal of the script or the handler. *)
Definition directOutcome (env : Env) (c : OnDemandCommand) (now : Z) (s : fs)
  : Res OnDemandResult * fs :=
  let bridgeDir :=
    HOME env ++ ["Library"; "Application Support"; "raycast-ae-bridge"]%string in
  let jobsDir := bridgeDir ++ ["jobs"%string] in
  let directPath := jobsDir ++ [("rb_" ++ freshId env now ++ "_direct.jsx")%string] in
  let cmdPath := jobsDir ++ [("rb_" ++ freshId env now ++ ".json")%string] in
  let call (jsxPath : path) (s3 : fs) (cleanup : fs -> fs) :=
    match osascript env (DoScriptFile jsxPath) with
    | Closed code _ =>
        if code =? 0
        then (Ok {| ok := true;
                    result := Some (freshId env now, "direct"%string, 0);
                    error := None |}, cleanup s3)
        else (Throw AppleScriptFailed, afterHandler cmdPath s3)
    | SpawnError => (Throw SpawnFailed, afterHandler cmdPath s3)
    end in
  let '(s1, made1) := mkdirp (locked env) s bridgeDir in
  if negb made1 then (Throw (FsError "mkdir" bridgeDir), s1) else
  let '(s2, made2) := mkdirp (locked env) s1 jobsDir in
  if negb made2 then (Throw (FsError "mkdir" jobsDir), s2) else
  let written (code : Js.str) :=
    match writeFile (locked env) s2 directPath code with
    | Some s3 => call directPath s3 (afterHandler directPath)
    | None => (Throw (FsError "open" directPath), afterHandler cmdPath s2)
    end in
  match c with
  | run_jsx_file p => call p s2 (fun s3 => s3)
  | run_jsx_text code => written code
  | import_audio p _ => written (importJsx env (escapePath p))
  end.

(** The script that the automation call of the fast path runs. *)
Definition jsxPathOf (env : Env) (now : Z) (c : OnDemandCommand) : path :=
  match c with
  | run_jsx_file p => p
  | _ => NodeSpec.directPathOf env now
  end.

(** The calls of the fast path before the automation call: the process
    query, the two directories, and the write of the throw-away script
    when there is one. *)
Definition directPrefix (env : Env) (now : Z) (c : OnDemandCommand)
  : list Effect :=
  [ ESpawn ProbeProcess;
    EMkdir (HOME env ++ ["Library"; "Application Support"; "raycast-ae-bridge"]%string);
    EMkdir (NodeSpec.jobsDirOf env) ]
  ++ match scriptOf env c with
     | Some code => [EWrite (NodeSpec.directPathOf env now) code]
     | None => []
     end.

(** The calls of the fast path after an automation call that ended with
    code 0: the removal of the throw-away script when there is one. *)
Definition directCleanup (env : Env) (now : Z) (c : OnDemandCommand)
  : list Effect :=
  match scriptOf env c with
  | Some _ => [EUnlink (NodeSpec.directPathOf env now)]
  | None => []
  end.

(** On the disk [s] the fast path gets as far as the automation call:
    the two directories can be made, and the throw-away script, when
    there is one, can be written. *)
Definition canPrepare (env : Env) (c : OnDemandCommand) (now : Z) (s : fs)
  : bool :=
  let bridgeDir :=
    HOME env ++ ["Library"; "Application Support"; "raycast-ae-bridge"]%string in
  let '(s1, made1) := mkdirp (locked env) s bridgeDir in
  let '(s2, made2) := mkdirp (locked env) s1 (NodeSpec.jobsDirOf env) in
  made1 && made2 &&
  match scriptOf env c with
  | Some _ => canWrite (locked env) s2 (NodeSpec.directPathOf env now)
  | None => true
  end.

(** The queue directory as the [Folder] object of the consumer lists it:
    [None] while it does not exist, otherwise one entry for each name in
    it. What [File.read()] makes of a file is the host's business (the
    encoding it takes the bytes to be in, what it does with line ends):
    [read] gives it from the text of the file, [None] when the call
    raises. The modification times are those of [mtime]. *)
Definition entryOf (read : Js.str -> option Js.str) (mtime : path -> Z)
    (s : fs) (dir : path) (n : string) : Host.QEntry :=
  {| Host.name := n;
     Host.isFile := match s !! (dir ++ [n]) with
                    | Some (File _) => true
                    | _ => false
                    end;
     Host.modified := mtime (dir ++ [n]);
     Host.content := match readFile s (dir ++ [n]) with
                     | Some text => read text
                     | None => None
                     end |}.

Definition queueOf (read : Js.str -> option Js.str) (mtime : path -> Z)
    (s : fs) (dir : path) : Host.Queue :=
  match readdir s dir with
  | Some names => Some (List.map (entryOf read mtime s dir) names)
  | None => None
  end.

End Disk.

(** *** String literals of the scripts *)

Module Literal.

(** The single-quoted string literals of the script language, as far as
    the scripts built by the program use them. *)

Definition quote : N := 39%N.
Definition backslash : N := 92%N.

(** LineTerminator: LF, CR, LS, PS. None may stand in a string literal. *)
Definition isLineTerminator (c : N) : bool :=
  ((c =? 10) || (c =? 13) || (c =? 8232) || (c =? 8233))%N.

(** The character that [\c] stands for: the single-character escapes
    [b f n r t v], and any other character for itself; the numeric
    escapes ([\0], [\x..], [\u....]) and a line terminator are not read
    here. *)
Definition escaped (c : N) : option N :=
  if isLineTerminator c then None
  else if (c =? 98)%N then Some 8%N          (* \b *)
  else if (c =? 102)%N then Some 12%N        (* \f *)
  else if (c =? 110)%N then Some 10%N        (* \n *)
  else if (c =? 114)%N then Some 13%N        (* \r *)
  else if (c =? 116)%N then Some 9%N         (* \t *)
  else if (c =? 118)%N then Some 11%N        (* \v *)
  else if (c =? 120)%N || (c =? 117)%N || ((48 <=? c)%N && (c <=? 57)%N)
       then None                             (* \x, \u, digits *)
  else Some c.

(** Reads a literal from the character after its opening quote: the
    string value and the text after the closing quote; [None] when the
    text is not a literal (a line terminator, or the end, before the
    closing quote). *)
Fixpoint readSingleQuoted (s : Js.str) : option (Js.str * Js.str) :=
  match s with
  | [] => None
  | c :: r =>
      if (c =? quote)%N then Some ([], r)
      else if isLineTerminator c then None
      else if (c =? backslash)%N then
        match r with
        | [] => None
        | e :: r' =>
            match escaped e, readSingleQuoted r' with
            | Some x, Some (v, rest) => Some (x :: v, rest)
            | _, _ => None
            end
        end
      else
        match readSingleQuoted r with
        | Some (v, rest) => Some (c :: v, rest)
        | None => None
        end
  end.

(** A decimal digit. *)
Definition isDigit (c : ascii) : bool :=
  let n := N_of_ascii c in ((48 <=? n) && (n <=? 57))%N.

(** What the two replacements of [escapePath] make of one character. *)
Definition escapeChar (c : N) : Js.str :=
  if (c =? backslash)%N then [backslash; backslash]
  else if (c =? quote)%N then [backslash; quote]
  else [c].

End Literal.

(* ===================================================================== *)
(** ** The command (browse-audio-files.tsx) *)
(* ===================================================================== *)

Module Ui.

Import Node.
Local Open Scope js_scope.

(** What [JSON.parse] gives, as far as the program looks at it: an array,
    each item of which is a string or something else, or anything but an
    array. *)
Inductive Json :=
| JArray (items : list (option Js.str))
| JOther.

(** [Array.isArray(arr) ? arr.filter((v) => typeof v === "string") : null] *)
Definition stringsOf (j : Json) : option (list Js.str) :=
  match j with
  | JArray items => Some (omap (fun v => v) items)
  | JOther => None
  end.


Section Favorites.

Variable env : Env.

(** The preference [audioFolder]; [None] when it is empty. *)
Variable audioFolder : option path.

(** [JSON.stringify(list, null, 2)] and [JSON.parse] ([None] when it
    raises). *)
Variable stringifyList : list Js.str -> Js.str.
Variable parseJson : Js.str -> option Json.

(** [function getFavoritesFilePath()] *)
Definition getFavoritesFilePath : option path :=
  match audioFolder with
  | Some dir => Some (dir ++ ["audio-files-favorites.json"%string])
  | None => None
  end.

(** [function getLegacyHiddenFavoritesFilePath()] *)
Definition getLegacyHiddenFavoritesFilePath : option path :=
  match audioFolder with
  | Some dir => Some (dir ++ [".audio-files-favorites.json"%string])
  | None => None
  end.

(** [function getRepoFallbackFavoritesFilePath()] *)
Definition getRepoFallbackFavoritesFilePath : path :=
  HOME env ++ ["Documents"; "GitHub"; "raycast"; "resources"; "sync";
               "audio-files-favorites.json"]%string.

(** What reading one existing path gives. *)
Definition readOf (x : node) : option (list Js.str) :=
  match x with
  | File d =>
      match parseJson d with
      | Some j => stringsOf j
      | None => None
      end
  | Dir => None
  end.

(** The three lines that read one file:
    [const content = fs.readFileSync(fp, "utf8"); const arr = JSON.parse(content);
     return Array.isArray(arr) ? arr.filter(...) : null;] *)
Definition readList (fp : path) : M (option (list Js.str)) :=
  content <- readFileSync fp ;;
  match parseJson content with
  | Some arr => ret (stringsOf arr)
  | None => throw JsonSyntaxError
  end.

(** [if (fp && fs.existsSync(fp)) { ...return... }], then the rest. *)
Definition orElse (fp : option path) (rest : M (option (list Js.str)))
  : M (option (list Js.str)) :=
  match fp with
  | Some p => found <- existsSync p ;; if found then readList p else rest
  | None => rest
  end.

(** [function readFavoritesFile()] *)
Definition readFavoritesFile : M (option (list Js.str)) :=
  tryCatch
    (orElse getFavoritesFilePath
       (orElse getLegacyHiddenFavoritesFilePath
          (orElse (Some getRepoFallbackFavoritesFilePath)
             (ret None))))
    (fun _ => ret None).


End Favorites.

(** [path.sep] *)
Definition sep : N := 47%N.

(** [s.indexOf(c)] for a one-character pattern; [None] stands for -1. *)
Fixpoint indexOf (c : N) (s : Js.str) : option nat :=
  match s with
  | [] => None
  | x :: r =>
      if (x =? c)%N then Some O
      else match indexOf c r with
           | Some i => Some (S i)
           | None => None
           end
  end.

(** [function topLevelCategoryName(category)] *)
Definition topLevelCategoryName (category : Js.str) : Js.str :=
  if negb (Js.truthy category) || Js.eqb category (Js.lit "Root")
  then Js.lit "Root"
  else
    match indexOf sep category with
    | None => category
    | Some idx => List.firstn idx category   (* category.slice(0, idx) *)
    end.

(** [function escapeForJsSingleQuotedString(input)]:
    [input.replace(/\\/g, "\\\\").replace(/'/g, "\\'")] *)
Definition escapeForJsSingleQuotedString (input : Js.str) : Js.str :=
  let backslash := 92%N in
  let quote := 39%N in
  let step1 := List.concat
    (List.map (fun c => if (c =? backslash)%N then [backslash; backslash] else [c])
       input) in
  List.concat
    (List.map (fun c => if (c =? quote)%N then [backslash; quote] else [c]) step1).

(** *** The shuffle score *)

(** [ToInt32] and [ToUint32] on integers. *)
Definition toInt32 (z : Z) : Z := (z + 2 ^ 31) mod 2 ^ 32 - 2 ^ 31.
Definition toUint32 (z : Z) : Z := z mod 2 ^ 32.

(** [a ^ b] *)
Definition xor (a b : Z) : Z := Z.lxor (toInt32 a) (toInt32 b).

(** [Math.imul(a, b)] *)
Definition imul (a b : Z) : Z := toInt32 (toInt32 a * toInt32 b).

(** The loop [h ^= id.charCodeAt(i); h = Math.imul(h, 16777619);]. *)
Fixpoint hashFrom (h : Z) (id : Js.str) : Z :=
  match id with
  | [] => h
  | c :: r => hashFrom (imul (xor h (Z.of_N c)) 16777619) r
  end.

(** [function seededScore(id, seed)]; [scaled] is
    [Math.floor(seed * 1e9)], and the answer is the numerator of the
    score, which is that number divided by 1000003. The remainder [%]
    has the sign of the dividend. *)
Definition seededScore (id : Js.str) (scaled : Z) : Z :=
  let h := hashFrom (toUint32 2166136261) id in
  let mixed := toUint32 (xor h scaled) in
  Z.rem mixed 1000003.

(** The 32-bit FNV-1a hash over the code units of [id], on unsigned
    numbers. *)
Fixpoint fnv1a (h : Z) (id : Js.str) : Z :=
  match id with
  | [] => h
  | c :: r => fnv1a ((Z.lxor h (Z.of_N c) * 16777619) mod 2 ^ 32) r
  end.

(** *** The list shown *)

(** [interface AudioItem] *)
Record AudioItem := {
  itemPath : Js.str;       (* path *)
  itemName : Js.str;       (* name *)
  category : Js.str;
  itemSize : Z             (* size *)
}.

(** [l.includes(s)] on strings. *)
Definition includes (l : list Js.str) (s : Js.str) : bool :=
  existsb (Js.eqb s) l.

(** [base.slice().sort((a, b) => seededScore(a.path, seed) - seededScore(b.path, seed))]:
    the sort is stable, an item goes before the items of the same score
    that came after it. *)
Fixpoint insertByScore (scaled : Z) (x : AudioItem) (l : list AudioItem)
  : list AudioItem :=
  match l with
  | [] => [x]
  | y :: r =>
      if seededScore (itemPath x) scaled <=? seededScore (itemPath y) scaled
      then x :: l
      else y :: insertByScore scaled x r
  end.

Definition sortByScore (scaled : Z) (l : list AudioItem) : list AudioItem :=
  List.fold_right (insertByScore scaled) [] l.

(** The order of the comparison function: [a] does not score more than
    [b]. *)
Definition byScore (scaled : Z) (a b : AudioItem) : Prop :=
  seededScore (itemPath a) scaled <= seededScore (itemPath b) scaled.

(** [const filtered = useMemo(...)]; [shuffleSeed] is [None] for
    [null], otherwise [Math.floor(seed * 1e9)]. *)
Definition filtered (items : list AudioItem) (favorites : list Js.str)
    (selectedCategory : Js.str) (shuffleSeed : option Z) : list AudioItem :=
  let base :=
    if Js.eqb selectedCategory (Js.lit "Favorites") then
      List.filter (fun i => includes favorites (itemPath i)) items
    else if negb (Js.eqb selectedCategory (Js.lit "All")) then
      List.filter
        (fun i =>
           if Js.eqb selectedCategory (Js.lit "Root")
           then Js.eqb (category i) (Js.lit "Root")
           else Js.eqb (topLevelCategoryName (category i)) selectedCategory)
        items
    else items in
  match shuffleSeed with
  | Some scaled => sortByScore scaled base
  | None => base
  end.









(** Two items, one in the folder [Drums/Kicks], one at the root. *)
Definition kick : AudioItem :=
  {| itemPath := Js.lit "/Music/Drums/Kicks/k.wav"; itemName := Js.lit "k.wav";
     category := Js.lit "Drums/Kicks"; itemSize := 1024 |}.

Definition chime : AudioItem :=
  {| itemPath := Js.lit "/Music/c.wav"; itemName := Js.lit "c.wav";
     category := Js.lit "Root"; itemSize := 2048 |}.

End Ui.

(* ===================================================================== *)
(** ** Properties *)
(* ===================================================================== *)

(** *** Strings *)

Section JsFacts.

Import Js.

Lemma stripTrailingWs_nil_iff (s : str) :
  stripTrailingWs s = [] <-> Forall (fun c => isWhiteSpace c = true) s.
Proof.
  induction s as [|c r IH]; simpl.
  - split; [constructor | reflexivity].
  - destruct (stripTrailingWs r) as [|x r'] eqn:E.
    + destruct (isWhiteSpace c) eqn:Hc; split; intros H.
      * constructor; [exact Hc | apply IH; reflexivity].
      * reflexivity.
      * discriminate.
      * inversion H; congruence.
    + split; intros H; [discriminate|].
      inversion H as [|? ? _ Hr]; subst. apply IH in Hr. discriminate.
Qed.

(** Appending to a string that keeps something keeps all of it. *)
Lemma stripTrailingWs_app (s t : str) :
  stripTrailingWs t <> [] ->
  stripTrailingWs (s ++ t) = s ++ stripTrailingWs t.
Proof.
  intros Ht. induction s as [|c r IH]; simpl; [reflexivity|].
  rewrite IH. destruct (r ++ stripTrailingWs t) eqn:E; [|reflexivity].
  destruct r; simpl in E; [contradiction | discriminate].
Qed.

(** Trailing white space disappears. *)
Lemma stripTrailingWs_app_ws (s t : str) :
  Forall (fun c => isWhiteSpace c = true) t ->
  stripTrailingWs (s ++ t) = stripTrailingWs s.
Proof.
  intros Ht. apply stripTrailingWs_nil_iff in Ht.
  induction s as [|c r IH]; simpl; [exact Ht|].
  rewrite IH. reflexivity.
Qed.

Lemma endsInWs_snoc (s : str) (c : N) : endsInWs (s ++ [c]) = isWhiteSpace c.
Proof. unfold endsInWs. rewrite List.rev_app_distr. reflexivity. Qed.

(** A string that does not end in white space is left as it is. *)
Lemma stripTrailingWs_fixed (s : str) :
  endsInWs s = false -> stripTrailingWs s = s.
Proof.
  destruct (List.rev s) as [|c r] eqn:E.
  - apply (f_equal (@List.rev N)) in E. rewrite List.rev_involutive in E.
    subst. reflexivity.
  - apply (f_equal (@List.rev N)) in E. rewrite List.rev_involutive in E.
    simpl in E. subst s. rewrite endsInWs_snoc. intros Hc.
    rewrite stripTrailingWs_app; simpl; rewrite Hc; [reflexivity | discriminate].
Qed.

(** The result never ends in white space: the whole trailing run is
    removed, not a part of it. *)
Lemma stripTrailingWs_maximal (s : str) : endsInWs (stripTrailingWs s) = false.
Proof.
  induction s as [|c r IH]; simpl; [reflexivity|].
  destruct (stripTrailingWs r) as [|x r'] eqn:E.
  - destruct (isWhiteSpace c) eqn:Hc; [reflexivity|].
    unfold endsInWs; simpl. exact Hc.
  - revert IH. unfold endsInWs. simpl.
    destruct (List.rev r' ++ [x]) eqn:E2; simpl.
    + destruct (List.rev r'); discriminate.
    + auto.
Qed.

(** What is removed is white space only. *)
Lemma stripTrailingWs_prefix (s : str) :
  exists t, s = stripTrailingWs s ++ t /\ Forall (fun c => isWhiteSpace c = true) t.
Proof.
  induction s as [|c r [t [Hs Ht]]]; simpl.
  - exists []. split; [reflexivity | constructor].
  - destruct (stripTrailingWs r) as [|x r'] eqn:E.
    + simpl in Hs. subst t. destruct (isWhiteSpace c) eqn:Hc.
      * exists (c :: r). split; [reflexivity | constructor; assumption].
      * exists r. split; [reflexivity | assumption].
    + exists t. split; [|assumption]. simpl. f_equal. exact Hs.
Qed.

(** The equations of [toWellFormed] and of [utf8Encode]. *)
Lemma toWellFormed_cons (c d : N) (r : str) :
  toWellFormed (c :: d :: r) =
  if isHighSurrogate c then
    if isLowSurrogate d then c :: d :: toWellFormed r
    else REPLACEMENT :: toWellFormed (d :: r)
  else if isLowSurrogate c then REPLACEMENT :: toWellFormed (d :: r)
  else c :: toWellFormed (d :: r).
Proof. reflexivity. Qed.

Lemma utf8Encode_cons (c d : N) (r : str) :
  utf8Encode (c :: d :: r) =
  if isHighSurrogate c then
    if isLowSurrogate d
    then utf8Char (65536 + (c - 55296) * 1024 + (d - 56320))%N ++ utf8Encode r
    else utf8Char REPLACEMENT ++ utf8Encode (d :: r)
  else if isLowSurrogate c then utf8Char REPLACEMENT ++ utf8Encode (d :: r)
  else utf8Char c ++ utf8Encode (d :: r).
Proof. reflexivity. Qed.

(** What comes after a character that is no high surrogate is read on
    its own. *)
Lemma toWellFormed_plain (c : N) (r : str) :
  isHighSurrogate c = false ->
  toWellFormed (c :: r)
  = (if isLowSurrogate c then REPLACEMENT else c) :: toWellFormed r.
Proof.
  intros Hh. destruct r as [|d r].
  - cbn [toWellFormed]. rewrite Hh. destruct (isLowSurrogate c); reflexivity.
  - rewrite toWellFormed_cons, Hh. destruct (isLowSurrogate c); reflexivity.
Qed.

Lemma utf8Encode_plain (c : N) (r : str) :
  isHighSurrogate c = false ->
  utf8Encode (c :: r)
  = utf8Char (if isLowSurrogate c then REPLACEMENT else c) ++ utf8Encode r.
Proof.
  intros Hh. destruct r as [|d r].
  - cbn [utf8Encode]. rewrite Hh.
    destruct (isLowSurrogate c); rewrite List.app_nil_r; reflexivity.
  - rewrite utf8Encode_cons, Hh. destruct (isLowSurrogate c); reflexivity.
Qed.

Lemma toWellFormed_length (s : str) : length (toWellFormed s) = length s.
Proof.
  assert (H : forall s, length (toWellFormed s) = length s /\
                        forall c, length (toWellFormed (c :: s)) = S (length s)).
  { clear s. induction s as [|d r [IH1 IH2]].
    - split; [reflexivity|]. intros c. simpl.
      destruct (isHighSurrogate c); [reflexivity|].
      destruct (isLowSurrogate c); reflexivity.
    - split; [apply IH2|]. intros c. rewrite toWellFormed_cons.
      destruct (isHighSurrogate c).
      + destruct (isLowSurrogate d); cbn [length]; [rewrite IH1 | rewrite IH2];
          reflexivity.
      + destruct (isLowSurrogate c); cbn [length]; rewrite IH2; reflexivity. }
  apply H.
Qed.

(** A string that does not start with a low surrogate is not changed by
    what stands before it. *)
Lemma toWellFormed_app (s t : str) :
  match t with c :: _ => isLowSurrogate c = false | [] => True end ->
  toWellFormed (s ++ t) = toWellFormed s ++ toWellFormed t.
Proof.
  intros Ht.
  assert (H : forall s, toWellFormed (s ++ t) = toWellFormed s ++ toWellFormed t /\
                        forall c, toWellFormed ((c :: s) ++ t)
                                  = toWellFormed (c :: s) ++ toWellFormed t).
  { clear s. induction s as [|d r [IH1 IH2]].
    - split; [reflexivity|]. intros c. cbn [List.app].
      destruct (isHighSurrogate c) eqn:Hh.
      + destruct t as [|e t']; [rewrite List.app_nil_r; reflexivity|].
        rewrite toWellFormed_cons, Hh, Ht. cbn [toWellFormed]. rewrite Hh.
        reflexivity.
      + rewrite !toWellFormed_plain by exact Hh. reflexivity.
    - split; [apply IH2|]. intros c.
      change ((c :: d :: r) ++ t) with (c :: d :: (r ++ t)).
      rewrite !toWellFormed_cons.
      change (d :: r ++ t) with ((d :: r) ++ t).
      destruct (isHighSurrogate c).
      + destruct (isLowSurrogate d); [rewrite IH1 | rewrite IH2]; reflexivity.
      + destruct (isLowSurrogate c); rewrite IH2; reflexivity. }
  apply H.
Qed.

(** The line feed that [queueCommand] appends is written as it is. *)
Lemma toWellFormed_LF (s : str) : toWellFormed (s ++ [LF]) = toWellFormed s ++ [LF].
Proof. apply (toWellFormed_app s [LF]). reflexivity. Qed.

Lemma isWellFormed_spec (s : str) : isWellFormed s = true <-> toWellFormed s = s.
Proof.
  unfold isWellFormed, eqb. split; intros H.
  - apply bool_decide_eq_true_1 in H. exact H.
  - apply bool_decide_eq_true_2. exact H.
Qed.

(** What UTF-8 keeps of a string is a well-formed string. *)
Lemma toWellFormed_idem (s : str) : toWellFormed (toWellFormed s) = toWellFormed s.
Proof.
  assert (H : forall s, toWellFormed (toWellFormed s) = toWellFormed s /\
                        forall c, toWellFormed (toWellFormed (c :: s))
                                  = toWellFormed (c :: s)).
  { clear s. induction s as [|d r [IH1 IH2]].
    - split; [reflexivity|]. intros c. cbn [toWellFormed].
      destruct (isHighSurrogate c) eqn:Hh; [reflexivity|].
      destruct (isLowSurrogate c) eqn:Hl; [reflexivity|].
      cbn [toWellFormed]. rewrite Hh, Hl. reflexivity.
    - split; [apply IH2|]. intros c. rewrite toWellFormed_cons.
      destruct (isHighSurrogate c) eqn:Hh.
      + destruct (isLowSurrogate d) eqn:Hd.
        * rewrite toWellFormed_cons, Hh, Hd, IH1. reflexivity.
        * rewrite toWellFormed_plain by reflexivity. rewrite IH2. reflexivity.
      + destruct (isLowSurrogate c) eqn:Hl.
        * rewrite toWellFormed_plain by reflexivity. rewrite IH2. reflexivity.
        * rewrite toWellFormed_plain by exact Hh. rewrite Hl, IH2. reflexivity. }
  apply H.
Qed.

(** The bytes written for a string are those of what is left of it: a
    file written from [s] holds the text [toWellFormed s]. *)
Lemma utf8Encode_toWellFormed (s : str) :
  utf8Encode (toWellFormed s) = utf8Encode s.
Proof.
  assert (H : forall s, utf8Encode (toWellFormed s) = utf8Encode s /\
                        forall c, utf8Encode (toWellFormed (c :: s))
                                  = utf8Encode (c :: s)).
  { clear s. induction s as [|d r [IH1 IH2]].
    - split; [reflexivity|]. intros c. cbn [toWellFormed utf8Encode].
      destruct (isHighSurrogate c) eqn:Hh; [reflexivity|].
      destruct (isLowSurrogate c) eqn:Hl; [reflexivity|].
      cbn [utf8Encode]. rewrite Hh, Hl. reflexivity.
    - split; [apply IH2|]. intros c. rewrite toWellFormed_cons, utf8Encode_cons.
      destruct (isHighSurrogate c) eqn:Hh.
      + destruct (isLowSurrogate d) eqn:Hd.
        * rewrite utf8Encode_cons, Hh, Hd, IH1. reflexivity.
        * rewrite utf8Encode_plain by reflexivity. rewrite IH2. reflexivity.
      + destruct (isLowSurrogate c) eqn:Hl.
        * rewrite utf8Encode_plain by reflexivity. rewrite IH2. reflexivity.
        * rewrite utf8Encode_plain by exact Hh. rewrite Hl, IH2. reflexivity. }
  apply H.
Qed.

(** The string ["a\ud800b\n"], with its lone surrogate, is written as
    the six bytes 61 EF BF BD 62 0A, those of ["a\ufffdb\n"]. *)
Example utf8Encode_lone_surrogate :
  utf8Encode [97; 55296; 98; 10]%N = [97; 239; 191; 189; 98; 10]%N /\
  toWellFormed [97; 55296; 98; 10]%N = [97; 65533; 98; 10]%N.
Proof. split; reflexivity. Qed.

(** A string of ASCII characters is written as it is, one byte for each. *)
Lemma ascii_utf8 (s : str) :
  Forall (fun c => (c < 128)%N) s -> toWellFormed s = s /\ utf8Encode s = s.
Proof.
  induction 1 as [|c r Hc _ [IH1 IH2]]; [split; reflexivity|].
  assert (Hh : isHighSurrogate c = false).
  { unfold isHighSurrogate. apply andb_false_iff. left. apply N.leb_gt. lia. }
  assert (Hl : isLowSurrogate c = false).
  { unfold isLowSurrogate. apply andb_false_iff. left. apply N.leb_gt. lia. }
  rewrite toWellFormed_plain, utf8Encode_plain by exact Hh.
  rewrite Hl, IH1, IH2. split; [reflexivity|]. unfold utf8Char.
  destruct (c <? 128)%N eqn:E; [reflexivity|]. apply N.ltb_ge in E. lia.
Qed.

(** The consumer gets back the content exactly when the content has no
    lone surrogate and does not end in white space. *)
Lemma strip_toWellFormed_fixed (s : str) :
  stripTrailingWs (toWellFormed s) = s <->
  isWellFormed s = true /\ endsInWs s = false.
Proof.
  split.
  - intros H.
    destruct (stripTrailingWs_prefix (toWellFormed s)) as (t & Ht & _).
    assert (Hl : length t = 0%nat).
    { apply (f_equal (@length N)) in Ht.
      rewrite List.length_app, toWellFormed_length, H in Ht. lia. }
    destruct t; [|discriminate]. rewrite List.app_nil_r, H in Ht.
    split; [apply isWellFormed_spec, Ht|].
    rewrite <- H. apply stripTrailingWs_maximal.
  - intros [Hw He]. apply isWellFormed_spec in Hw. rewrite Hw.
    apply stripTrailingWs_fixed, He.
Qed.

End JsFacts.

(** *** What the consumer makes of the text of a queued file *)

(** The line feed that [queueCommand] appends is white space, so the
    consumer's [replace] removes it together with any white space the
    content itself ended with. *)
Lemma read_back_strips (content : Js.str) :
  Js.stripTrailingWs (Node.payloadOf content) = Js.stripTrailingWs content.
Proof.
  unfold Node.payloadOf. apply stripTrailingWs_app_ws.
  constructor; [reflexivity | constructor].
Qed.

(** *** The queue directory *)

Section QueueFacts.

Import Host.

Lemma In_removeEntry (n : string) (q : Queue) (e : QEntry) :
  In e (entries (removeEntry n q)) <-> In e (entries q) /\ name e <> n.
Proof.
  destruct q as [es|]; simpl; [|tauto].
  rewrite List.filter_In, Bool.negb_true_iff, String.eqb_neq. tauto.
Qed.

Lemma present_spec (n : string) (q : Queue) :
  present n q = true <-> exists e, In e (entries q) /\ name e = n.
Proof.
  unfold present. rewrite List.existsb_exists.
  split; intros [e [He Hn]]; exists e; split; auto;
    [apply String.eqb_eq | apply String.eqb_eq]; assumption.
Qed.

Lemma present_false (n : string) (q : Queue) :
  present n q = false <-> forall e, In e (entries q) -> name e <> n.
Proof.
  rewrite <- Bool.not_true_iff_false, present_spec. split.
  - intros H e He Hn. apply H. exists e. auto.
  - intros H [e [He Hn]]. exact (H e He Hn).
Qed.

Lemma present_removeEntry (n : string) (q : Queue) :
  present n (removeEntry n q) = false.
Proof.
  apply present_false. intros e He. apply In_removeEntry in He. tauto.
Qed.

Lemma present_exists (n : string) (q : Queue) :
  present n q = true -> exists es, q = Some es.
Proof. destruct q as [es|]; [eauto | discriminate]. Qed.

Lemma getFiles_all (q : Queue) : getFiles MaskAll q = entries q.
Proof.
  unfold getFiles. induction (entries q) as [|e es IH]; simpl; congruence.
Qed.

Lemma head_filter {A} (p : A -> bool) (l : list A) :
  List.head (List.filter p l) = List.find p l.
Proof.
  induction l as [|x l IH]; simpl; [reflexivity|].
  destruct (p x); [reflexivity | exact IH].
Qed.

(** The entry [rbProcess] works on: the first ['*.cmd'] entry of the
    listing when there is one, otherwise the first ['*.jsx'] entry. *)
Lemma selected_spec (q : Queue) :
  selected q =
  match List.find (matches (MaskExt cmd)) (entries q) with
  | Some f => Some (f, cmd)
  | None =>
      match List.find (matches (MaskExt jsx)) (entries q) with
      | Some f => Some (f, jsx)
      | None => None
      end
  end.
Proof.
  unfold selected, allFiles, getFiles.
  rewrite <- !head_filter.
  destruct (List.filter (matches (MaskExt cmd)) (entries q)); simpl;
    [|reflexivity].
  destruct (List.filter (matches (MaskExt jsx)) (entries q)); reflexivity.
Qed.

Lemma selected_In (q : Queue) (f : QEntry) (t : FileType) :
  selected q = Some (f, t) -> In f (entries q) /\ matches (MaskExt t) f = true.
Proof.
  rewrite selected_spec.
  destruct (List.find (matches (MaskExt cmd)) (entries q)) eqn:E1.
  - intros [= <- <-]. apply List.find_some in E1. exact E1.
  - destruct (List.find (matches (MaskExt jsx)) (entries q)) eqn:E2;
      [|discriminate].
    intros [= <- <-]. apply List.find_some in E2. exact E2.
Qed.

Lemma selected_some_queue (q : Queue) (x : QEntry * FileType) :
  selected q = Some x -> exists es, q = Some es.
Proof. destruct q as [es|]; [eauto | discriminate]. Qed.

(** What the loop of the sweep leaves: the entries whose name is not the
    name of a listed file older than [maxAge]. *)
Lemma sweep_spec (now : Z) (files : list QEntry) (q : Queue) (e : QEntry) :
  In e (entries (fst (sweep now files q))) <->
  In e (entries q) /\
  forall f, In f files -> maxAge < now - modified f -> name f <> name e.
Proof.
  revert q. induction files as [|f rest IH]; intros q; simpl.
  - split; [intros H; split; [exact H | intros f []] | tauto].
  - destruct (maxAge <? now - modified f) eqn:Hage.
    + destruct (sweep now rest (removeEntry (name f) q)) as [q' evs] eqn:Es.
      simpl. specialize (IH (removeEntry (name f) q)). rewrite Es in IH.
      simpl in IH. rewrite IH, In_removeEntry. apply Z.ltb_lt in Hage.
      split.
      * intros [[He Hn] Hr]. split; [exact He|].
        intros g [<-|Hg] Hold; [congruence | exact (Hr g Hg Hold)].
      * intros [He Hr]. split; [split; [exact He|] |].
        -- intros Heq. apply (Hr f); auto.
        -- intros g Hg Hold. apply Hr; auto.
    + rewrite IH. apply Z.ltb_ge in Hage. split.
      * intros [He Hr]. split; [exact He|].
        intros g [<-|Hg] Hold; [lia | exact (Hr g Hg Hold)].
      * intros [He Hr]. split; [exact He|]. intros g Hg. apply Hr. auto.
Qed.

Lemma rbCleanupOldFiles_spec (now : Z) (q : Queue) (e : QEntry) :
  In e (entries (fst (rbCleanupOldFiles now q))) <->
  In e (entries q) /\
  forall f, In f (entries q) -> maxAge < now - modified f -> name f <> name e.
Proof.
  unfold rbCleanupOldFiles.
  destruct q as [es|]; simpl.
  - rewrite getFiles_all. simpl. destruct es as [|e0 es].
    + simpl. split; [tauto | intros [[] _]].
    + pose proof (sweep_spec now (e0 :: es) (Some (e0 :: es)) e) as H.
      destruct (sweep now (e0 :: es) (Some (e0 :: es))) as [q2 ev2].
      exact H.
  - split; [intros [] | intros [[] _]].
Qed.

(** A tick leaves every entry in place, except possibly the selected
    one. *)
Lemma rbProcess_keeps_others (app : App) (q : Queue) (e : QEntry) :
  In e (entries q) ->
  (forall f t, selected q = Some (f, t) -> name f <> name e) ->
  In e (entries (fst (rbProcess app q))).
Proof.
  intros He Hsel. destruct q as [es|]; [|destruct He].
  unfold rbProcess. simpl rbEnsureDir. cbv iota beta.
  destruct (stopFileExists (Some es)); [exact He|].
  destruct (userBusy app); [exact He|].
  destruct (selected (Some es)) as [[f t]|] eqn:Es; [|exact He].
  destruct (negb (isFile f)); [exact He|].
  destruct (content f) as [raw|]; [|exact He].
  destruct (negb (Js.truthy (Js.stripTrailingWs raw))); [exact He|].
  destruct (negb (hasProject app)); [exact He|].
  destruct (dispatch app t (Js.stripTrailingWs raw)) as [c evs].
  destruct (okOf c); [|exact He].
  simpl. apply (In_removeEntry (name f) (Some es) e).
  split; [exact He|]. intros Hn. apply (Hsel f t); auto.
Qed.

End QueueFacts.

(** *** C2: the stop file *)

(** C2: while the stop file exists in the queue directory, a tick changes
    nothing and calls nothing: the queue after the tick is the queue
    before it, and the tick makes no call at all (no directory created,
    no file read or removed, nothing dispatched). The queue directory
    necessarily exists, since the stop file is in it, so [rbEnsureDir]
    creates nothing. *)
Theorem C2_stop_flag_freezes_tick (app : Host.App) (q : Host.Queue) :
  Host.stopFileExists q = true ->
  Host.rbProcess app q = (q, []).
Proof.
  intros Hstop. destruct (present_exists _ _ Hstop) as [es ->].
  unfold Host.rbProcess. simpl Host.rbEnsureDir. cbv iota beta.
  rewrite Hstop. reflexivity.
Qed.

Lemma C2_stop_flag_freezes_tick_witness :
  Host.rbProcess Spec.idleApp Spec.stoppedQueue = (Spec.stoppedQueue, []).
Proof.
  apply (C2_stop_flag_freezes_tick Spec.idleApp Spec.stoppedQueue).
  reflexivity.
Defined.

(** *** C3: the sweep of old files *)

(** C3 (as stated, refuted): in [Spec.staleQueue] the file ["0-b.cmd"] is
    900 seconds old at time 900000 and the stop file is absent; the tick
    selects it, the import raises, and the file is still there after the
    tick: [rbProcess] never calls the sweep. *)
Lemma C3_tick_does_not_sweep :
  ~ (forall (now : Z) (app : Host.App) (q : Host.Queue) (e : Host.QEntry),
       Host.stopFileExists q = false ->
       In e (Host.entries q) ->
       Host.maxAge < now - Host.modified e ->
       Host.present (Host.name e) (fst (Host.rbProcess app q)) = false).
Proof.
  intros H.
  specialize (H 900000 Spec.failingApp Spec.staleQueue
                (Spec.jobFile "0-b.cmd" 0 "/tmp/b.wav")).
  vm_compute in H.
  assert (Hf : true = false).
  { apply H; [reflexivity | left; reflexivity | reflexivity]. }
  discriminate.
Qed.

(** C3 (amended): the sweep runs once, when the script is loaded at the
    start of the host, before the first tick: every entry of the queue
    directory that is then older than 5 minutes is removed, whatever it
    is, and exactly the entries bearing the name of such an entry are
    removed. A tick does not sweep: it leaves in place every entry other
    than the one it selected. *)
Theorem C3_sweep_at_load (now : Z) (apps : list Host.App) (q : Host.Queue) :
  (forall e, In e (Host.entries q) -> Host.maxAge < now - Host.modified e ->
     Host.present (Host.name e) (fst (Host.rbCleanupOldFiles now q)) = false) /\
  (forall e, In e (Host.entries (fst (Host.rbCleanupOldFiles now q))) <->
     In e (Host.entries q) /\
     forall f, In f (Host.entries q) -> Host.maxAge < now - Host.modified f ->
               Host.name f <> Host.name e) /\
  Host.loadScript now apps q =
    (fst (Host.ticks apps (fst (Host.rbCleanupOldFiles now q))),
     snd (Host.rbCleanupOldFiles now q)
     ++ snd (Host.ticks apps (fst (Host.rbCleanupOldFiles now q)))) /\
  (forall app e, In e (Host.entries q) ->
     (forall f t, Host.selected q = Some (f, t) -> Host.name f <> Host.name e) ->
     In e (Host.entries (fst (Host.rbProcess app q)))).
Proof.
  split; [|split; [|split]].
  - intros e He Hold. apply present_false. intros g Hg Hn.
    apply rbCleanupOldFiles_spec in Hg. destruct Hg as [_ Hg].
    apply (Hg e He Hold). congruence.
  - intros e. apply rbCleanupOldFiles_spec.
  - unfold Host.loadScript.
    destruct (Host.rbCleanupOldFiles now q) as [q0 ev0]. simpl.
    destruct (Host.ticks apps q0) as [q1 ev1]. reflexivity.
  - intros app e. apply rbProcess_keeps_others.
Qed.

Lemma C3_sweep_at_load_witness :
  Host.present "0-b.cmd" (fst (Host.rbCleanupOldFiles 900000 Spec.staleQueue))
  = false.
Proof.
  apply (proj1 (C3_sweep_at_load 900000 [] Spec.staleQueue)
               (Spec.jobFile "0-b.cmd" 0 "/tmp/b.wav")).
  - left; reflexivity.
  - reflexivity.
Defined.

(** *** C7 and C8: the job of a tick *)

Section TickFacts.

Import Host Spec.

(** The tick that gets as far as the dispatch, in one equation. *)
Lemma rbProcess_dispatch (app : App) (q : Queue) (f : QEntry) (t : FileType)
    (text : Js.str) :
  dispatches app q f t text ->
  rbProcess app q =
  if okOf (fst (dispatch app t text))
  then (removeEntry (name f) q,
        [EvRead (name f)] ++ snd (dispatch app t text) ++ [EvRemove (name f)])
  else (q, [EvRead (name f)] ++ snd (dispatch app t text)).
Proof.
  intros (Hstop & Hbusy & Hsel & Hfile & (raw & Hraw & Htext) & Htruthy & Hprj).
  destruct (selected_some_queue _ _ Hsel) as [es ->].
  unfold rbProcess. simpl rbEnsureDir. cbv iota beta.
  rewrite Hstop, Hbusy, Hsel, Hfile, Hraw. simpl negb. cbv iota.
  rewrite Htext, Htruthy, Hprj. simpl negb. cbv iota.
  destruct (dispatch app t text) as [c evs]. simpl.
  destruct (okOf c); reflexivity.
Qed.

(** The dispatch hands exactly one job to the host, and touches no file
    of the queue. *)
Lemma dispatch_events (app : App) (t : FileType) (text : Js.str) :
  let evs := snd (dispatch app t text) in
  List.filter isRead evs = [] /\
  length (List.filter isDispatchCall evs) = 1%nat /\
  (forall n, ~ In (EvRemove n) evs) /\
  ~ In EvCreateDir evs.
Proof.
  unfold dispatch.
  destruct t; [destruct (importFile app text);
               [| | destruct (audioBinExists app); destruct (addFolderOk app);
                    cbn [negb andb];
                    try (destruct (activeItem app) as [comp|];
                         [destruct (isCompItem comp); [destruct (layersAddOk app)|]|])]
              | destruct (evalOk app text)];
    simpl; (split; [reflexivity | split; [reflexivity | split]]);
    try (intros n H); try (intros H);
    repeat (destruct H as [H|H]; [discriminate H|]); destruct H.
Qed.

End TickFacts.

(** C7 (as stated, refuted): a project is open and no composition is
    active. The tick imports the footage of ["2000-b.cmd"] and files it
    in the bin; the dispatch ends without raising, and yet the file is
    not removed, [ok] not being set: the queue is what it was, and the
    next tick imports the same file again. *)
Lemma C7_completed_import_is_kept :
  let first := Host.rbProcess Spec.noCompApp Spec.mixedQueue in
  fst (Host.dispatch Spec.noCompApp cmd (Js.lit "/tmp/b.wav"))
    = Host.Normal false /\
  fst first = Spec.mixedQueue /\
  List.filter Spec.isDispatchCall (snd first)
    = [Host.EvImportFile (Js.lit "/tmp/b.wav")] /\
  List.filter Spec.isDispatchCall
    (snd (Host.ticks [Spec.noCompApp; Spec.noCompApp] Spec.mixedQueue))
    = [Host.EvImportFile (Js.lit "/tmp/b.wav");
       Host.EvImportFile (Js.lit "/tmp/b.wav")].
Proof. vm_compute. auto. Qed.

(** C7 (amended): when a tick dispatches a job file, the file is removed
    at the end of the tick, by the last call of the tick, exactly when
    the script's [ok] flag was set: for a script, when [eval] returns;
    for an import, when [importFile] returns the footage, the bin exists
    or is created, the active item is a composition and the layer is
    added to it. Otherwise, whether the dispatch raised or ended without
    raising (no footage, or no active composition), the queue is exactly
    what it was, so the file is still there, and it is again the one a
    later tick dispatches. *)
Theorem C7_removed_exactly_when_ok
    (app : Host.App) (q : Host.Queue) (f : Host.QEntry) (t : FileType)
    (text : Js.str) :
  Spec.dispatches app q f t text ->
  let c := fst (Host.dispatch app t text) in
  (Host.okOf c = true ->
     Host.present (Host.name f) (fst (Host.rbProcess app q)) = false /\
     exists evs, snd (Host.rbProcess app q) = evs ++ [Host.EvRemove (Host.name f)]) /\
  (Host.okOf c = false ->
     fst (Host.rbProcess app q) = q /\
     (forall n, ~ In (Host.EvRemove n) (snd (Host.rbProcess app q))) /\
     forall app', Host.userBusy app' = false -> Host.hasProject app' = true ->
       Spec.dispatches app' (fst (Host.rbProcess app q)) f t text) /\
  (Host.okOf c = true <->
   match t with
   | jsx => Host.evalOk app text = true
   | cmd =>
       Host.importFile app text = Host.ImportFootage /\
       (Host.audioBinExists app = true \/ Host.addFolderOk app = true) /\
       (exists comp, Host.activeItem app = Some comp /\
                     Host.isCompItem comp = true) /\
       Host.layersAddOk app = true
   end) /\
  (c = Host.Thrown \/ c = Host.Normal false <-> Host.okOf c = false).
Proof.
  intros Hd c. subst c.
  pose proof (rbProcess_dispatch _ _ _ _ _ Hd) as Heq.
  split; [|split; [|split]].
  - intros Hc. rewrite Heq, Hc. simpl.
    split; [apply present_removeEntry|].
    exists (Host.EvRead (Host.name f) :: snd (Host.dispatch app t text)).
    reflexivity.
  - intros Hc. rewrite Heq, Hc. simpl.
    split; [reflexivity | split].
    + intros n [H|H]; [discriminate|].
      exact (proj1 (proj2 (proj2 (dispatch_events app t text))) n H).
    + intros app' Hbusy Hprj.
      destruct Hd as (Hstop & _ & Hsel & Hfile & Hraw & Htruthy & _).
      repeat split; assumption.
  - unfold Host.dispatch. destruct t.
    + destruct (Host.importFile app text).
      * simpl. split; [discriminate | intros [H _]; discriminate].
      * simpl. split; [discriminate | intros [H _]; discriminate].
      * destruct (Host.audioBinExists app), (Host.addFolderOk app);
          cbn [negb andb];
          try (simpl; split; [discriminate | intros (_ & [H|H] & _); discriminate]);
          (destruct (Host.activeItem app) as [comp|];
           [destruct (Host.isCompItem comp) eqn:Hcomp;
            [destruct (Host.layersAddOk app)|]|]); simpl;
          split; try discriminate;
          try (intros _; repeat split; eauto; fail);
          try (intros (_ & _ & _ & H); discriminate);
          try (intros (_ & _ & (x & [= <-] & H) & _); congruence);
          try (intros (_ & _ & (x & H & _) & _); discriminate).
    + destruct (Host.evalOk app text); simpl; split; auto; discriminate.
  - destruct (fst (Host.dispatch app t text)) as [[|]|]; simpl; split;
      try discriminate; auto; intros [H|H]; discriminate.
Qed.

Lemma C7_removed_exactly_when_ok_witness :
  (Host.present "2000-b.cmd" (fst (Host.rbProcess Spec.idleApp Spec.mixedQueue))
   = false) /\
  fst (Host.rbProcess Spec.failingApp Spec.mixedQueue) = Spec.mixedQueue /\
  fst (Host.rbProcess Spec.noCompApp Spec.mixedQueue) = Spec.mixedQueue.
Proof.
  assert (Hd : forall app, Host.userBusy app = false -> Host.hasProject app = true ->
               Spec.dispatches app Spec.mixedQueue
                 (Spec.jobFile "2000-b.cmd" 2000 "/tmp/b.wav") cmd
                 (Js.lit "/tmp/b.wav")).
  { intros app Hb Hp. repeat split; try assumption; try reflexivity.
    exists (Node.payloadOf (Js.lit "/tmp/b.wav")). split; reflexivity. }
  split; [|split].
  - apply (proj1 (C7_removed_exactly_when_ok
             Spec.idleApp Spec.mixedQueue _ cmd _
             (Hd Spec.idleApp eq_refl eq_refl))).
    reflexivity.
  - apply (proj1 (proj2 (C7_removed_exactly_when_ok
             Spec.failingApp Spec.mixedQueue _ cmd _
             (Hd Spec.failingApp eq_refl eq_refl)))).
    reflexivity.
  - apply (proj1 (proj2 (C7_removed_exactly_when_ok
             Spec.noCompApp Spec.mixedQueue _ cmd _
             (Hd Spec.noCompApp eq_refl eq_refl)))).
    reflexivity.
Defined.

(** C8 (as stated, refuted): in [Spec.mixedQueue] the script file was
    written at time 1000 and the import file at time 2000; the tick
    selects the import file, which is not the oldest. *)
Lemma C8_selected_is_not_oldest :
  ~ (forall (q : Host.Queue) (f : Host.QEntry) (t : FileType),
       Host.stopFileExists q = false ->
       Host.selected q = Some (f, t) ->
       forall e, In e (Host.entries q) -> Host.modified f <= Host.modified e).
Proof.
  intros H.
  specialize (H Spec.mixedQueue (Spec.jobFile "2000-b.cmd" 2000 "/tmp/b.wav") cmd
                eq_refl eq_refl (Spec.jobFile "1000-a.jsx" 1000 "alert(1)")).
  assert (Hle : 2000 <= 1000) by (apply H; left; reflexivity).
  lia.
Qed.

(** C8 (amended): in a tick with no stop file and no selected layers, on
    a queue that holds at least one ['*.cmd'] or ['*.jsx'] entry, exactly
    one entry is selected: the first ['*.cmd'] entry in listing order
    when there is one, otherwise the first ['*.jsx'] entry (time stamps
    play no part). Only that entry is read, at most once; at most one job
    is handed to the host; nothing but that entry is removed. *)
Theorem C8_one_job_per_tick (app : Host.App) (q : Host.Queue) :
  Host.stopFileExists q = false ->
  Host.userBusy app = false ->
  Host.allFiles q <> [] ->
  exists f t,
    Host.selected q = Some (f, t) /\
    Some (f, t) =
      match List.find (Host.matches (Host.MaskExt cmd)) (Host.entries q) with
      | Some c => Some (c, cmd)
      | None =>
          match List.find (Host.matches (Host.MaskExt jsx)) (Host.entries q) with
          | Some j => Some (j, jsx)
          | None => None
          end
      end /\
    let evs := snd (Host.rbProcess app q) in
    (forall n, In (Host.EvRead n) evs -> n = Host.name f) /\
    (length (List.filter Spec.isRead evs) <= 1)%nat /\
    (length (List.filter Spec.isDispatchCall evs) <= 1)%nat /\
    (forall n, In (Host.EvRemove n) evs -> n = Host.name f).
Proof.
  intros Hstop Hbusy Hne.
  destruct (Host.selected q) as [[f t]|] eqn:Hsel.
  2:{ unfold Host.selected in Hsel. destruct (Host.allFiles q); [tauto | discriminate]. }
  exists f, t. split; [reflexivity|]. split; [rewrite <- Hsel; apply selected_spec|].
  destruct (selected_some_queue _ _ Hsel) as [es ->].
  unfold Host.rbProcess. simpl Host.rbEnsureDir. cbv iota beta.
  rewrite Hstop, Hbusy, Hsel.
  destruct (negb (Host.isFile f)); [simpl; repeat split; try lia; intros n []|].
  destruct (Host.content f) as [raw|].
  2:{ simpl. repeat split; try lia; intros n [H|[]]; congruence. }
  destruct (negb (Js.truthy (Js.stripTrailingWs raw))).
  { simpl. repeat split; try lia; intros n [H|[]]; congruence. }
  destruct (negb (Host.hasProject app)).
  { simpl. repeat split; try lia; intros n [H|[]]; congruence. }
  pose proof (dispatch_events app t (Js.stripTrailingWs raw)) as (Hr & Hd & Hrm & _).
  destruct (Host.dispatch app t (Js.stripTrailingWs raw)) as [c evs].
  simpl in Hr, Hd, Hrm.
  assert (Hnoread : forall n, ~ In (Host.EvRead n) evs).
  { intros n Hin.
    assert (Hin' : In (Host.EvRead n) (List.filter Spec.isRead evs))
      by (apply List.filter_In; split; [exact Hin | reflexivity]).
    rewrite Hr in Hin'. destruct Hin'. }
  destruct (Host.okOf c); simpl.
  - repeat split.
    + intros n [H|H]; [congruence|]. apply List.in_app_or in H.
      destruct H as [H|[H|[]]]; [destruct (Hnoread n H) | discriminate].
    + rewrite List.filter_app, Hr. simpl. lia.
    + rewrite List.filter_app, List.length_app, Hd. simpl. lia.
    + intros n [H|H]; [discriminate|]. apply List.in_app_or in H.
      destruct H as [H|[H|[]]]; [destruct (Hrm n H) | congruence].
  - repeat split.
    + intros n [H|H]; [congruence | destruct (Hnoread n H)].
    + rewrite Hr. simpl. lia.
    + rewrite Hd. lia.
    + intros n [H|H]; [discriminate | destruct (Hrm n H)].
Qed.

Lemma C8_one_job_per_tick_witness :
  exists f t,
    Host.selected Spec.mixedQueue = Some (f, t) /\
    Host.name f = "2000-b.cmd"%string /\
    (length (List.filter Spec.isDispatchCall
               (snd (Host.rbProcess Spec.idleApp Spec.mixedQueue))) <= 1)%nat.
Proof.
  destruct (C8_one_job_per_tick Spec.idleApp Spec.mixedQueue eq_refl eq_refl)
    as (f & t & Hsel & _ & _ & _ & Hd & _).
  - discriminate.
  - exists f, t. split; [exact Hsel|]. split; [|exact Hd].
    vm_compute in Hsel. injection Hsel as <- <-. reflexivity.
Defined.

(** *** The calls a computation makes *)

Section Effects.

Import Node NodeSpec.
Local Open Scope js_scope.

Context {P : Effect -> Prop}.

Lemma emitsOnly_ret {A} (a : A) : emitsOnly P (ret a).
Proof. intros w. exists []. simpl. rewrite List.app_nil_r. auto. Qed.

Lemma emitsOnly_throw {A} (e : Exn) : emitsOnly P (@throw A e).
Proof. intros w. exists []. simpl. rewrite List.app_nil_r. auto. Qed.

Lemma emitsOnly_bind {A B} (m : M A) (k : A -> M B) :
  emitsOnly P m -> (forall a, emitsOnly P (k a)) -> emitsOnly P (bind m k).
Proof.
  intros Hm Hk w. unfold bind. destruct (Hm w) as (n1 & E1 & F1).
  destruct (m w) as [[a|e] w1]; simpl in E1.
  - destruct (Hk a w1) as (n2 & E2 & F2). exists (n1 ++ n2).
    rewrite E2, E1, List.app_assoc. split; [reflexivity|].
    apply Forall_app; auto.
  - exists n1. simpl. auto.
Qed.

Lemma emitsOnly_tryCatch {A} (m : M A) (h : Exn -> M A) :
  emitsOnly P m -> (forall e, emitsOnly P (h e)) -> emitsOnly P (tryCatch m h).
Proof.
  intros Hm Hh w. unfold tryCatch. destruct (Hm w) as (n1 & E1 & F1).
  destruct (m w) as [[a|e] w1]; simpl in E1.
  - exists n1. simpl. auto.
  - destruct (Hh e w1) as (n2 & E2 & F2). exists (n1 ++ n2).
    rewrite E2, E1, List.app_assoc. split; [reflexivity|].
    apply Forall_app; auto.
Qed.

Lemma emitsOnly_emit (e : Effect) : P e -> emitsOnly P (emit e).
Proof. intros He w. exists [e]. simpl. auto. Qed.

Lemma emitsOnly_getFiles : emitsOnly P getFiles.
Proof. intros w. exists []. simpl. rewrite List.app_nil_r. auto. Qed.

Lemma emitsOnly_putFiles (s : fs) : emitsOnly P (putFiles s).
Proof. intros w. exists []. simpl. rewrite List.app_nil_r. auto. Qed.

Lemma emitsOnly_dateNow : emitsOnly P dateNow.
Proof. intros w. exists []. simpl. rewrite List.app_nil_r. auto. Qed.

Lemma emitsOnly_tryIgnore (m : M unit) : emitsOnly P m -> emitsOnly P (tryIgnore m).
Proof. intros H. apply emitsOnly_tryCatch; [exact H | intros; apply emitsOnly_ret]. Qed.

Variable env : Env.

Lemma emitsOnly_sleep (ms : Z) : P (ESleep ms) -> emitsOnly P (sleep env ms).
Proof. intros He w. exists [ESleep ms]. simpl. auto. Qed.

Lemma emitsOnly_mkdirSync (p : path) : P (EMkdir p) -> emitsOnly P (mkdirSync env p).
Proof.
  intros He. unfold mkdirSync.
  apply emitsOnly_bind; [apply emitsOnly_emit, He | intros _].
  apply emitsOnly_bind; [apply emitsOnly_getFiles | intros s].
  destruct (mkdirp (locked env) s p) as [s' done].
  apply emitsOnly_bind; [apply emitsOnly_putFiles | intros _].
  destruct done; [apply emitsOnly_ret | apply emitsOnly_throw].
Qed.

Lemma emitsOnly_writeFileSync (p : path) (data : Js.str) :
  P (EWrite p data) -> emitsOnly P (writeFileSync env p data).
Proof.
  intros He. unfold writeFileSync.
  apply emitsOnly_bind; [apply emitsOnly_emit, He | intros _].
  apply emitsOnly_bind; [apply emitsOnly_getFiles | intros s].
  destruct (writeFile (locked env) s p data);
    [apply emitsOnly_putFiles | apply emitsOnly_throw].
Qed.

Lemma emitsOnly_renameSync (a b : path) :
  P (ERename a b) -> emitsOnly P (renameSync env a b).
Proof.
  intros He. unfold renameSync.
  apply emitsOnly_bind; [apply emitsOnly_emit, He | intros _].
  apply emitsOnly_bind; [apply emitsOnly_getFiles | intros s].
  destruct (rename (locked env) s a b);
    [apply emitsOnly_putFiles | apply emitsOnly_throw].
Qed.

Lemma emitsOnly_unlinkSync (p : path) :
  P (EUnlink p) -> emitsOnly P (unlinkSync p).
Proof.
  intros He. unfold unlinkSync.
  apply emitsOnly_bind; [apply emitsOnly_emit, He | intros _].
  apply emitsOnly_bind; [apply emitsOnly_getFiles | intros s].
  destruct (unlink s p); [apply emitsOnly_putFiles | apply emitsOnly_throw].
Qed.

Lemma emitsOnly_readFileSync (p : path) :
  P (ERead p) -> emitsOnly P (readFileSync p).
Proof.
  intros He. unfold readFileSync.
  apply emitsOnly_bind; [apply emitsOnly_emit, He | intros _].
  apply emitsOnly_bind; [apply emitsOnly_getFiles | intros s].
  destruct (readFile s p); [apply emitsOnly_ret | apply emitsOnly_throw].
Qed.

Lemma emitsOnly_runOsascript (s : Script) :
  P (ESpawn s) -> emitsOnly P (runOsascript env s).
Proof.
  intros He. unfold runOsascript.
  apply emitsOnly_bind; [apply emitsOnly_emit, He | intros _].
  destruct (osascript env s) as [|code out]; [apply emitsOnly_throw|].
  destruct (code =? 0); [apply emitsOnly_ret | apply emitsOnly_throw].
Qed.

End Effects.

(** [isAERunning] makes the process query and nothing else, never raises,
    and answers what the query printed. *)
Lemma isAERunning_run (env : Node.Env) (w : Node.World) :
  Node.isAERunning env w =
  (Node.Ok (NodeSpec.probeSaysRunning env),
   NodeSpec.logged w [Node.ESpawn Node.ProbeProcess]).
Proof.
  unfold Node.isAERunning, Node.tryCatch, Node.bind, Node.runOsascript,
    Node.emit, NodeSpec.probeSaysRunning, NodeSpec.logged, Node.ret, Node.throw.
  simpl. destruct (Node.osascript env Node.ProbeProcess) as [|code out];
    [reflexivity|].
  destruct (code =? 0); reflexivity.
Qed.

(** *** What each call does to the world *)

Section Runs.

Import Node NodeSpec.

Variable env : Env.

Lemma mkdirSync_run (p : path) (w : World) :
  mkdirSync env p w =
  (if snd (mkdirp (locked env) (files w) p)
   then Ok tt else Throw (FsError "mkdir" p),
   {| files := fst (mkdirp (locked env) (files w) p);
      clock := clock w;
      trace := trace w ++ [EMkdir p] |}).
Proof.
  unfold mkdirSync, bind, emit, getFiles, putFiles, ret, throw. simpl.
  destruct (mkdirp (locked env) (files w) p) as [s' done]. simpl.
  destruct done; reflexivity.
Qed.

Lemma writeFileSync_run (p : path) (data : Js.str) (w : World) :
  writeFileSync env p data w =
  match writeFile (locked env) (files w) p data with
  | Some s' => (Ok tt, {| files := s'; clock := clock w;
                          trace := trace w ++ [EWrite p data] |})
  | None => (Throw (FsError "open" p), logged w [EWrite p data])
  end.
Proof.
  unfold writeFileSync, bind, emit, getFiles, putFiles, ret, throw, logged.
  simpl. destruct (writeFile (locked env) (files w) p data); reflexivity.
Qed.

Lemma renameSync_run (a b : path) (w : World) :
  renameSync env a b w =
  match rename (locked env) (files w) a b with
  | Some s' => (Ok tt, {| files := s'; clock := clock w;
                          trace := trace w ++ [ERename a b] |})
  | None => (Throw (FsError "rename" a), logged w [ERename a b])
  end.
Proof.
  unfold renameSync, bind, emit, getFiles, putFiles, ret, throw, logged.
  simpl. destruct (rename (locked env) (files w) a b); reflexivity.
Qed.

Lemma unlinkSync_run (p : path) (w : World) :
  unlinkSync p w =
  match unlink (files w) p with
  | Some s' => (Ok tt, {| files := s'; clock := clock w;
                          trace := trace w ++ [EUnlink p] |})
  | None => (Throw (FsError "unlink" p), logged w [EUnlink p])
  end.
Proof.
  unfold unlinkSync, bind, emit, getFiles, putFiles, ret, throw, logged.
  simpl. destruct (unlink (files w) p); reflexivity.
Qed.

Lemma readFileSync_run (p : path) (w : World) :
  readFileSync p w =
  (match readFile (files w) p with
   | Some data => Ok data
   | None => Throw (FsError "open" p)
   end, logged w [ERead p]).
Proof.
  unfold readFileSync, bind, emit, getFiles, ret, throw, logged.
  simpl. destruct (readFile (files w) p); reflexivity.
Qed.

Lemma runOsascript_run (s : Script) (w : World) :
  runOsascript env s w =
  (match osascript env s with
   | Closed code stdout => if code =? 0 then Ok stdout else Throw AppleScriptFailed
   | SpawnError => Throw SpawnFailed
   end, logged w [ESpawn s]).
Proof.
  unfold runOsascript, bind, emit, ret, throw, logged. simpl.
  destruct (osascript env s) as [|code out]; [reflexivity|].
  destruct (code =? 0); reflexivity.
Qed.

End Runs.

(** *** C4: direct invocation while the host is not running *)

(** C4: when the process query says that the host is not running,
    [runOnDemand] raises the error of its own for that case
    ([NotRunning]) straight away: the only call made is the process
    query, addressed to System Events; no call is addressed to the host
    (so no instance is launched), no directory or file is created, and
    the disk is what it was. *)
Theorem C4_not_running_fails_fast
    (env : Node.Env) (cmd : Node.OnDemandCommand) (w : Node.World) :
  NodeSpec.probeSaysRunning env = false ->
  Node.runOnDemand env cmd w =
    (Node.Throw Node.NotRunning,
     NodeSpec.logged w [Node.ESpawn Node.ProbeProcess]) /\
  Node.files (snd (Node.runOnDemand env cmd w)) = Node.files w /\
  exists new,
    Node.trace (snd (Node.runOnDemand env cmd w)) = Node.trace w ++ new /\
    Forall (fun e => Node.launchesHost e = false /\ Node.mutatesFs e = false) new.
Proof.
  intros Hdown.
  assert (E : Node.runOnDemand env cmd w =
              (Node.Throw Node.NotRunning,
               NodeSpec.logged w [Node.ESpawn Node.ProbeProcess])).
  { unfold Node.runOnDemand, Node.bind. rewrite isAERunning_run, Hdown.
    reflexivity. }
  rewrite E. split; [reflexivity | split; [reflexivity|]].
  exists [Node.ESpawn Node.ProbeProcess]. split; [reflexivity|].
  constructor; [split; reflexivity | constructor].
Qed.

Lemma C4_not_running_fails_fast_witness :
  Node.runOnDemand NodeSpec.hostDownEnv (Node.run_jsx_text (Js.lit "alert(1)"))
    NodeSpec.emptyWorld =
  (Node.Throw Node.NotRunning,
   NodeSpec.logged NodeSpec.emptyWorld [Node.ESpawn Node.ProbeProcess]).
Proof.
  apply (C4_not_running_fails_fast NodeSpec.hostDownEnv
           (Node.run_jsx_text (Js.lit "alert(1)")) NodeSpec.emptyWorld).
  reflexivity.
Defined.

(** *** The guard of the fast path *)

(** The test that guards the fast path holds for each of the three
    commands. *)
Lemma fast_path_test (cmd : Node.OnDemandCommand) :
  String.eqb (Node.action cmd) "run_jsx_text"
  || String.eqb (Node.action cmd) "run_jsx_file"
  || String.eqb (Node.action cmd) "import_audio" = true.
Proof. destruct cmd; reflexivity. Qed.

(** Once the host is found running, [runOnDemand] is its fast path. *)
Lemma runOnDemand_running (env : Node.Env) (cmd : Node.OnDemandCommand)
    (w : Node.World) :
  NodeSpec.probeSaysRunning env = true ->
  Node.runOnDemand env cmd w =
  Node.bind (Node.mkdirSync env
               (Node.HOME env ++ ["Library"; "Application Support"; "raycast-ae-bridge"]%string))
    (fun _ =>
       Node.bind (Node.mkdirSync env (NodeSpec.jobsDirOf env))
         (fun _ =>
            Node.tryCatch
              (Node.directInvocation env cmd (Node.freshId env (Node.clock w))
                 (NodeSpec.jobsDirOf env))
              (fun error =>
                 Node.bind (Node.tryIgnore
                              (Node.unlinkSync (NodeSpec.cmdPathOf env (Node.clock w))))
                   (fun _ => Node.throw error))))
    (NodeSpec.logged w [Node.ESpawn Node.ProbeProcess]).
Proof.
  intros Hup. unfold Node.runOnDemand at 1. unfold Node.bind at 1.
  rewrite isAERunning_run, Hup. simpl negb. cbv iota.
  unfold Node.bind at 1. unfold Node.dateNow. simpl Node.clock.
  rewrite fast_path_test. reflexivity.
Qed.

Section PathFacts.

Import Node NodeSpec.

Lemma string_app_inv_head (s a b : string) :
  (s ++ a)%string = (s ++ b)%string -> a = b.
Proof. induction s as [|c s IH]; simpl; intros H; [exact H | injection H; auto]. Qed.

Lemma addSuffix_snoc (p : path) (n suffix : string) :
  addSuffix (p ++ [n]) suffix = p ++ [(n ++ suffix)%string].
Proof.
  unfold addSuffix. rewrite List.rev_app_distr. simpl.
  rewrite List.rev_involutive. reflexivity.
Qed.

(** The throw-away script of the fast path is none of the files of the
    queued invocation. *)
Lemma directPath_not_queued (env : Env) (now : Z) :
  directPathOf env now <> cmdPathOf env now /\
  directPathOf env now <> inboxCmdPathOf env /\
  directPathOf env now <> addSuffix (inboxCmdPathOf env) ".tmp".
Proof.
  unfold directPathOf, cmdPathOf, jobsDirOf, inboxCmdPathOf.
  split; [|split].
  - intros H. apply List.app_inv_head in H. injection H as H.
    apply (string_app_inv_head "") in H.
    apply (string_app_inv_head (freshId env now)) in H. discriminate.
  - unfold inboxDirOf. rewrite <- !List.app_assoc. intros H.
    apply List.app_inv_head in H. discriminate.
  - rewrite addSuffix_snoc. unfold inboxDirOf. rewrite <- !List.app_assoc.
    intros H. apply List.app_inv_head in H. discriminate.
Qed.

Lemma directEffect_not_queued (env : Env) (now : Z) (e : Effect) :
  directEffect env now e -> ~ queuedEffect env now e.
Proof.
  destruct (directPath_not_queued env now) as (H1 & H2 & H3).
  destruct e as [p|p d|a b|p|p|p|p|[]|ms|]; simpl; try tauto.
  intros ->. tauto.
Qed.

End PathFacts.

(** *** C6: how the job files are written *)

Section Awaiter.

Import Node NodeSpec.

Variable env : Env.

(** The calls of the awaiter: reads of the artifact and of its temporary
    variant, removals of the descriptor and of the artifact, sleeps. *)
Lemma emitsOnly_awaitArtifact (P : Effect -> Prop) (budget : nat) (start : Z)
    (cmdPath artifactPath : path) :
  P (ERead artifactPath) -> P (ERead (addSuffix artifactPath ".tmp")) ->
  P (EUnlink cmdPath) -> P (EUnlink artifactPath) ->
  P (EUnlink (addSuffix artifactPath ".tmp")) -> P (ESleep 150) ->
  emitsOnly P (awaitArtifact env budget start cmdPath artifactPath).
Proof.
  intros Hr Hrt Huc Hua Hut Hs.
  induction budget as [|n IH]; simpl; [apply emitsOnly_throw|].
  apply emitsOnly_bind; [apply emitsOnly_dateNow | intros now].
  destruct (now - start <? deadlineMs).
  - apply emitsOnly_bind.
    + apply emitsOnly_tryCatch.
      * apply emitsOnly_bind.
        -- apply emitsOnly_tryCatch; [apply emitsOnly_readFileSync, Hr | intros _].
           apply emitsOnly_tryCatch; [apply emitsOnly_readFileSync, Hrt | intros _].
           apply emitsOnly_throw.
        -- intros txt. apply emitsOnly_bind.
           ++ destruct (parse env txt); [apply emitsOnly_ret | apply emitsOnly_throw].
           ++ intros r. apply emitsOnly_bind; [|intros _; apply emitsOnly_ret].
              apply emitsOnly_tryIgnore.
              apply emitsOnly_bind; [apply emitsOnly_unlinkSync, Huc | intros _].
              apply emitsOnly_bind; [apply emitsOnly_unlinkSync, Hua | intros _].
              apply emitsOnly_tryIgnore, emitsOnly_unlinkSync, Hut.
      * intros _. apply emitsOnly_bind; [apply emitsOnly_sleep, Hs | intros _].
        apply emitsOnly_ret.
    + intros [r|]; [apply emitsOnly_ret | exact IH].
  - apply emitsOnly_bind; [|intros _; apply emitsOnly_throw].
    apply emitsOnly_tryIgnore, emitsOnly_unlinkSync, Huc.
Qed.

Lemma writeFile_Some (s s' : fs) (p : path) (data : Js.str) :
  writeFile (locked env) s p data = Some s' ->
  s' = <[p := File (Js.toWellFormed data)]> s.
Proof.
  unfold writeFile. destruct (look s p) as [[|d]|].
  - discriminate.
  - congruence.
  - destruct (creatable (locked env) s p); [congruence | discriminate].
Qed.

End Awaiter.

(** C6 (as stated, refuted): [queueCommand] submits a script on an empty
    disk and returns [true], and no rename was made: the queue file is
    written in place. *)
Lemma C6_queueCommand_writes_in_place :
  ~ (forall (env : Node.Env) (content : Js.str) (t : FileType) (d : string)
            (w : Node.World),
       fst (Node.queueCommand env content t d w) = Node.Ok true ->
       exists tmp final,
         In (Node.ERename tmp final)
            (Node.trace (snd (Node.queueCommand env content t d w)))).
Proof.
  intros H.
  destruct (H NodeSpec.quietEnv (Js.lit "alert(1)") jsx "script execution: a"%string
              NodeSpec.emptyWorld) as (tmp & final & Hin).
  - vm_compute. reflexivity.
  - vm_compute in Hin. destruct Hin as [Hin|[Hin|[]]]; discriminate.
Qed.

(** C6 (amended): [queueCommand] writes the queue file with a single
    [writeFileSync] to its final path ([<timestamp>-<random>.<ext>] in
    the queue directory) and never renames; when it returns [true] its
    calls are the [mkdirSync] of the queue directory and that write, and
    the file then holds the payload (as UTF-8 keeps it). The queued
    invocation of [runOnDemand] makes the calls of
    [NodeSpec.queuedProtocol] in order, up to the first that fails, whose
    error it raises: after the [mkdirSync] of the inbox, the inbox
    command goes to [cmd.json.tmp], which is renamed to [cmd.json]; then
    the job descriptor [rb_<id>.json] goes to its final path by one
    write; then the listener is triggered. No other write or rename is
    ever made: [cmd.json] is never written to, and nothing is renamed to
    the descriptor. *)
Theorem C6_how_job_files_are_written
    (env : Node.Env) (content : Js.str) (t : FileType) (d : string)
    (cmd : Node.OnDemandCommand) (requestId : string)
    (cmdPath artifactPath : Node.path) (w : Node.World) :
  (exists new,
     Node.trace (snd (Node.queueCommand env content t d w)) = Node.trace w ++ new /\
     List.filter NodeSpec.isRename new = [] /\
     (forall p data, In (Node.EWrite p data) new ->
        p = NodeSpec.queueFileOf env (Node.clock w) t /\
        data = Node.payloadOf content) /\
     (fst (Node.queueCommand env content t d w) = Node.Ok true ->
        new = [Node.EMkdir (Node.getBridgeQueueDir env);
               Node.EWrite (NodeSpec.queueFileOf env (Node.clock w) t)
                           (Node.payloadOf content)] /\
        Node.files (snd (Node.queueCommand env content t d w))
          !! NodeSpec.queueFileOf env (Node.clock w) t
        = Some (Node.File (Js.toWellFormed (Node.payloadOf content))))) /\
  (let run := Node.queuedInvocation env cmd requestId cmdPath artifactPath w in
   let payload := Node.stringify env cmd requestId artifactPath in
   let tmp := Node.addSuffix (NodeSpec.inboxCmdPathOf env) ".tmp" in
   let protocol := NodeSpec.queuedProtocol env payload cmdPath in
   exists new,
     Node.trace (snd run) = Node.trace w ++ new /\
     (protocol `prefix_of` new \/
      (fst run = Node.Throw (Node.FsError "mkdir" (NodeSpec.inboxDirOf env)) /\
       new = List.firstn 1 protocol) \/
      (fst run = Node.Throw (Node.FsError "open" tmp) /\
       new = List.firstn 2 protocol) \/
      (fst run = Node.Throw (Node.FsError "rename" tmp) /\
       new = List.firstn 3 protocol) \/
      (fst run = Node.Throw (Node.FsError "open" cmdPath) /\
       new = List.firstn 4 protocol)) /\
     (forall a b, In (Node.ERename a b) new ->
        a = tmp /\ b = NodeSpec.inboxCmdPathOf env) /\
     (forall p data, In (Node.EWrite p data) new ->
        data = payload /\ (p = tmp \/ p = cmdPath))).
Proof.
  split.
  - assert (H : exists r w' new,
      Node.queueCommand env content t d w = (r, w') /\
      Node.trace w' = Node.trace w ++ new /\
      List.filter NodeSpec.isRename new = [] /\
      (forall p data, In (Node.EWrite p data) new ->
         p = NodeSpec.queueFileOf env (Node.clock w) t /\
         data = Node.payloadOf content) /\
      (r = Node.Ok true ->
         new = [Node.EMkdir (Node.getBridgeQueueDir env);
                Node.EWrite (NodeSpec.queueFileOf env (Node.clock w) t)
                            (Node.payloadOf content)] /\
         Node.files w' !! NodeSpec.queueFileOf env (Node.clock w) t
         = Some (Node.File (Js.toWellFormed (Node.payloadOf content))))).
    { unfold Node.queueCommand, Node.tryCatch.
      unfold Node.bind at 1. rewrite mkdirSync_run.
      destruct (snd (Node.mkdirp _ _ _)).
      + unfold Node.bind at 1. unfold Node.dateNow. simpl Node.clock.
        unfold Node.bind at 1. rewrite writeFileSync_run.
        change (Node.getBridgeQueueDir env ++
                [(Node.freshId env (Node.clock w) ++ "." ++ extension t)%string])
          with (NodeSpec.queueFileOf env (Node.clock w) t).
        destruct (Node.writeFile _ _ _ _) as [s'|] eqn:Ew.
        * do 3 eexists. split; [reflexivity|].
          split; [simpl; rewrite <- List.app_assoc; reflexivity|].
          split; [reflexivity|]. split.
          -- intros p data [H|[H|[]]]; [discriminate|]. injection H as <- <-. auto.
          -- intros _. split; [reflexivity|]. simpl.
             apply writeFile_Some in Ew. subst s'. apply lookup_insert_eq.
        * do 3 eexists. split; [reflexivity|].
          split; [simpl; rewrite <- !List.app_assoc; reflexivity|].
          split; [reflexivity|]. split.
          -- intros p data [H|[H|[H|[]]]]; try discriminate.
             injection H as <- <-. auto.
          -- discriminate.
      + do 3 eexists. split; [reflexivity|].
        split; [simpl; rewrite <- !List.app_assoc; reflexivity|].
        split; [reflexivity|]. split.
        * intros p data [H|[H|[]]]; discriminate.
        * discriminate. }
    destruct H as (r & w' & new & E & T & R & W & O).
    exists new. rewrite E. simpl. auto.
  - cbv zeta.
    destruct (Node.queuedInvocation env cmd requestId cmdPath artifactPath w)
      as [r w'] eqn:E.
    cbn [fst snd]. unfold Node.queuedInvocation in E.
    change (Node.HOME env ++ ["Library"; "Application Support";
                              "raycast-ae-bridge"; "inbox"]%string)
      with (NodeSpec.inboxDirOf env) in E.
    change (NodeSpec.inboxDirOf env ++ ["cmd.json"%string])
      with (NodeSpec.inboxCmdPathOf env) in E.
    unfold NodeSpec.queuedProtocol.
    set (payload := Node.stringify env cmd requestId artifactPath) in *.
    set (tmp := Node.addSuffix (NodeSpec.inboxCmdPathOf env) ".tmp") in *.
    unfold Node.bind at 1 in E. rewrite mkdirSync_run in E.
    destruct (snd (Node.mkdirp _ _ _)).
    2:{ injection E as <- <-. eexists. split; [reflexivity|].
        cbn [List.firstn].
        split; [right; left; split; reflexivity|].
        split; intros ? ? [H|[]]; discriminate. }
    unfold Node.bind at 1 in E. rewrite writeFileSync_run in E.
    destruct (Node.writeFile _ _ _ _) as [s1|].
    2:{ injection E as <- <-. eexists.
        split; [simpl; rewrite <- !List.app_assoc; reflexivity|].
        cbn [List.firstn].
        split; [right; right; left; split; reflexivity|].
        split; intros ? ? [H|[H|[]]]; try discriminate.
        injection H as <- <-. auto. }
    unfold Node.bind at 1 in E. rewrite renameSync_run in E. simpl Node.files in E.
    destruct (Node.rename _ _ _ _) as [s2|].
    2:{ injection E as <- <-. eexists.
        split; [simpl; rewrite <- !List.app_assoc; reflexivity|].
        cbn [List.firstn].
        split; [right; right; right; left; split; reflexivity|].
        split; intros ? ? [H|[H|[H|[]]]]; try discriminate.
        - injection H as <- <-. auto.
        - injection H as <- <-. auto. }
    unfold Node.bind at 1 in E. rewrite writeFileSync_run in E. simpl Node.files in E.
    destruct (Node.writeFile _ _ _ _) as [s3|].
    2:{ injection E as <- <-. eexists.
        split; [simpl; rewrite <- !List.app_assoc; reflexivity|].
        cbn [List.firstn].
        split; [right; right; right; right; split; reflexivity|].
        split; intros ? ? [H|[H|[H|[H|[]]]]]; try discriminate.
        - injection H as <- <-. auto.
        - injection H as <- <-. auto.
        - injection H as <- <-. auto. }
    unfold Node.bind at 1 in E. rewrite runOsascript_run in E.
    destruct (match Node.osascript env Node.RunListener with
              | Node.SpawnError => _ | Node.Closed _ _ => _ end) as [out|e].
    2:{ injection E as <- <-. eexists.
        split; [simpl; rewrite <- !List.app_assoc; reflexivity|].
        split; [left; exists []; rewrite List.app_nil_r; reflexivity|].
        split; intros ? ? [H|[H|[H|[H|[H|[]]]]]]; try discriminate.
        - injection H as <- <-. auto.
        - injection H as <- <-. auto.
        - injection H as <- <-. auto. }
    unfold Node.bind at 1 in E. unfold Node.dateNow in E. cbv beta iota in E.
    match type of E with
    | Node.awaitArtifact env ?b ?st ?c ?a ?w5 = _ =>
        destruct (emitsOnly_awaitArtifact env
                    (fun e => match e with
                              | Node.ERename _ _ | Node.EWrite _ _ => False
                              | _ => True
                              end) b st c a I I I I I I w5) as (rest & T & F)
    end.
    rewrite E in T. cbn [snd] in T. rewrite List.Forall_forall in F.
    eexists. split; [rewrite T; simpl; rewrite <- !List.app_assoc; reflexivity|].
    split; [left; exists rest; reflexivity|].
    split.
    + intros x y [H|[H|[H|[H|[H|H]]]]]; try discriminate.
      * injection H as <- <-. auto.
      * apply (F _) in H. destruct H.
    + intros x y [H|[H|[H|[H|[H|H]]]]]; try discriminate.
      * injection H as <- <-. auto.
      * injection H as <- <-. auto.
      * apply (F _) in H. destruct H.
Qed.

(** *** C5: the wait for the artifact *)

Section AwaiterRuns.

Import Node NodeSpec.

Variable env : Env.
Variables (start : Z) (cmdPath artifactPath : path).

(** A timer does not fire before it is due. *)
Lemma wakeTime_due (t ms : Z) : t + ms <= wakeTime env t ms.
Proof. unfold wakeTime. pose proof (N2Z.is_nonneg (late env t)). lia. Qed.



End AwaiterRuns.

Section AwaiterGlobal.

Import Node NodeSpec.

Variable env : Env.
Variables (start : Z) (cmdPath artifactPath : path).








End AwaiterGlobal.

Section Cleanup.

Import Node NodeSpec.









End Cleanup.




(** *** C9: the installer *)

Section PureRuns.

Import Node NodeSpec.
Local Open Scope js_scope.

Lemma pureRun_ret {A} (a : A) : pureRun (ret a) (fun s => (s, a)).
Proof. intros [s t tr]. exists tr. reflexivity. Qed.

(** A computation that cannot raise is not changed by a handler. *)
Lemma pureRun_tryCatch {A} (m : M A) (h : Exn -> M A) g :
  pureRun m g -> pureRun (tryCatch m h) g.
Proof.
  intros Hm w. unfold tryCatch. destruct (Hm w) as [tr E]. rewrite E.
  exists tr. reflexivity.
Qed.

Variable env : Env.

Lemma pureRun_mkdir_ignored (p : path) :
  pureRun (tryIgnore (mkdirSync env p))
          (fun s => (fst (mkdirp (locked env) s p), tt)).
Proof.
  intros w. unfold tryIgnore, tryCatch. rewrite mkdirSync_run.
  destruct (snd (mkdirp (locked env) (files w) p)); eexists; reflexivity.
Qed.

Lemma pureRun_stat (p : path) :
  pureRun (tryCatch (statIsDirectory p) (fun _ => ret false))
          (fun s => (s, isDir s p)).
Proof.
  intros w. unfold tryCatch, statIsDirectory, bind, emit, getFiles, ret, throw,
    isDir. simpl.
  destruct (isDirectory (files w) p) as [[|]|]; eexists; reflexivity.
Qed.

Lemma pureRun_filterM {A} (p : A -> M bool) (q : fs -> A -> bool) (l : list A) :
  (forall x, pureRun (p x) (fun s => (s, q s x))) ->
  pureRun (filterM p l) (fun s => (s, List.filter (q s) l)).
Proof.
  intros Hp. induction l as [|x l IH]; simpl filterM.
  - apply pureRun_ret.
  - intros w. unfold bind at 1. destruct (Hp x w) as [tr1 E1]. rewrite E1.
    unfold bind at 1. simpl fst. simpl snd.
    destruct (IH {| files := files w; clock := clock w; trace := tr1 |})
      as [tr2 E2].
    rewrite E2. simpl. exists tr2. destruct (q (files w) x); reflexivity.
Qed.

Lemma pureRun_versions (base : path) :
  pureRun
    (tryCatch
       (names <- readdirSync base ;;
        filterM (fun d => tryCatch (statIsDirectory (base ++ [d]))
                                   (fun _ => ret false)) names)
       (fun _ => ret []))
    (fun s => (s, versionsAt s base)).
Proof.
  intros w. unfold tryCatch at 1. unfold bind at 1.
  unfold readdirSync, bind, emit, getFiles, ret, throw, versionsAt. simpl.
  destruct (readdir (files w) base) as [names|]; [|eexists; reflexivity].
  destruct (pureRun_filterM
              (fun d => tryCatch (statIsDirectory (base ++ [d])) (fun _ => ret false))
              (fun s d => isDir s (base ++ [d])) names
              (fun d => pureRun_stat (base ++ [d]))
              {| files := files w; clock := clock w;
                 trace := trace w ++ [EReaddir base] |}) as [tr E].
  unfold ret in E. rewrite E. exists tr. reflexivity.
Qed.

Lemma pureRun_seed (base : path) (vs : list string) :
  pureRun (forEach vs (fun v => tryIgnore (mkdirSync env (base ++ [v]))))
    (fun s => (List.fold_left
                 (fun s v => fst (mkdirp (locked env) s (base ++ [v]))) vs s, tt)).
Proof.
  induction vs as [|v vs IH]; simpl forEach.
  - apply pureRun_ret.
  - intros w. unfold bind at 1.
    destruct (pureRun_mkdir_ignored (base ++ [v]) w) as [tr1 E1]. rewrite E1.
    destruct (IH {| files := fst (mkdirp (locked env) (files w) (base ++ [v]));
                    clock := clock w; trace := tr1 |}) as [tr2 E2].
    simpl fst. rewrite E2. exists tr2. reflexivity.
Qed.

Lemma pureRun_discoverTarget (b : path) :
  pureRun (discoverTarget env b)
    (fun s => (fst (discoverPure env s b),
               {| base := b; versions := snd (discoverPure env s b) |})).
Proof.
  intros w. unfold discoverTarget, discoverPure.
  unfold bind at 1.
  destruct (pureRun_mkdir_ignored b w) as [tr1 E1]. rewrite E1. simpl fst.
  unfold bind at 1.
  match goal with |- context [tryCatch _ _ ?w1] =>
    destruct (pureRun_versions b w1) as [tr2 E2] end.
  rewrite E2. simpl fst. simpl snd. simpl files. simpl clock.
  destruct (versionsAt (fst (mkdirp (locked env) (files w) b)) b) as [|v vs].
  - unfold bind at 1. unfold bind at 1.
    match goal with |- context [forEach _ _ ?w2] =>
      destruct (pureRun_seed b seedVersions w2) as [tr3 E3] end.
    rewrite E3. exists tr3. reflexivity.
  - exists tr2. reflexivity.
Qed.

Lemma pureRun_installVersion (b : path) (n : nat) (v : string) :
  pureRun (installVersion env b n v)
    (fun s => (fst (installOne env s b v),
               if snd (installOne env s b v) then S n else n)).
Proof.
  intros w. unfold installVersion, installOne, tryCatch.
  change (b ++ [v; "Scripts"; "Startup"]%string) with (startupDirOf b v).
  change (startupDirOf b v ++ ["RaycastBridge.jsx"%string]) with (scriptPathOf b v).
  unfold bind at 1. rewrite mkdirSync_run.
  destruct (mkdirp (locked env) (files w) (startupDirOf b v)) as [s1 made].
  simpl fst. simpl snd. destruct made; [|eexists; reflexivity].
  unfold bind at 1. rewrite writeFileSync_run. simpl files.
  destruct (writeFile (locked env) s1 (scriptPathOf b v) (bridgeCode env));
    eexists; reflexivity.
Qed.

Lemma pureRun_installLoop (b : path) (vs : list string) (n : nat) :
  pureRun (foldM (installVersion env b) vs n)
          (fun s => installLoop env s b vs n).
Proof.
  revert n. induction vs as [|v vs IH]; intros n; simpl foldM.
  - apply pureRun_ret.
  - intros w. unfold bind at 1.
    destruct (pureRun_installVersion b n v w) as [tr1 E1]. rewrite E1.
    simpl installLoop.
    destruct (installOne env (files w) b v) as [s1 written]. simpl fst. simpl snd.
    destruct (IH (if written then S n else n)
                 {| files := s1; clock := clock w; trace := tr1 |}) as [tr2 E2].
    exists tr2. exact E2.
Qed.

(** The installer never raises; it does to the disk what [installPure]
    says and reports the number of installs. *)
Lemma installUnifiedBridge_run :
  pureRun (installUnifiedBridge env)
          (fun s => (fst (installPure env s), resultOf (snd (installPure env s)))).
Proof.
  unfold installUnifiedBridge. apply pureRun_tryCatch.
  unfold discoverAETargets, candidates. simpl mapM.
  change (HOME env ++ ["Library"; "Preferences"; "Adobe"; "After Effects"]%string)
    with (preferencesBase env).
  change (HOME env ++ ["Library"; "Application Support"; "Adobe"; "After Effects"]%string)
    with (supportBase env).
  intros w. unfold installPure.
  unfold bind at 1. unfold bind at 1.
  destruct (pureRun_discoverTarget (preferencesBase env) w) as [tr1 E1].
  rewrite E1. clear E1.
  destruct (discoverPure env (files w) (preferencesBase env)) as [s1 v1].
  simpl fst. simpl snd.
  unfold bind at 1. unfold bind at 1.
  match goal with |- context [discoverTarget env _ ?w1] =>
    destruct (pureRun_discoverTarget (supportBase env) w1) as [tr2 E2] end.
  rewrite E2. clear E2. simpl files. simpl clock.
  destruct (discoverPure env s1 (supportBase env)) as [s2 v2].
  simpl fst. simpl snd.
  unfold ret at 1. unfold bind at 1. unfold ret at 1. unfold ret at 1.
  unfold bind at 1. simpl foldM.
  unfold bind at 1.
  match goal with |- context [foldM _ v1 _ ?w2] =>
    destruct (pureRun_installLoop (preferencesBase env) v1 0 w2) as [tr3 E3] end.
  simpl base. simpl versions. rewrite E3. clear E3. simpl files. simpl clock.
  destruct (installLoop env s2 (preferencesBase env) v1 0) as [s3 n1].
  simpl fst. simpl snd.
  unfold bind at 1.
  match goal with |- context [foldM _ v2 _ ?w3] =>
    destruct (pureRun_installLoop (supportBase env) v2 n1 w3) as [tr4 E4] end.
  rewrite E4. clear E4. simpl files. simpl clock.
  destruct (installLoop env s3 (supportBase env) v2 n1) as [s4 n2].
  simpl fst. simpl snd. unfold ret at 1.
  exists tr4. unfold resultOf. destruct (n2 =? 0)%nat; reflexivity.
Qed.

End PureRuns.

Section Growth.

Import Node NodeSpec.

Variable env : Env.

Lemma grows_refl (s : fs) : grows env s s.
Proof. intros q. repeat split; eauto. Qed.

Lemma grows_trans (s1 s2 s3 : fs) :
  grows env s1 s2 -> grows env s2 s3 -> grows env s1 s3.
Proof.
  intros H12 H23 q. destruct (H12 q) as (A1 & B1 & C1 & D1).
  destruct (H23 q) as (A2 & B2 & C2 & D2).
  repeat split; eauto.
  intros d Hd. destruct (B1 d Hd) as [d' Hd']. eauto.
Qed.

Lemma dirname_snoc (p : path) (c : string) : dirname (p ++ [c]) = p.
Proof. unfold dirname. apply List.removelast_last. Qed.

Lemma look_snoc (s : fs) (p : path) (c : string) : look s (p ++ [c]) = s !! (p ++ [c]).
Proof. unfold look. destruct (p ++ [c]) eqn:E; [|reflexivity]. destruct p; discriminate. Qed.

Lemma grows_insert_dir (s : fs) (q : path) :
  s !! q = None -> locked env (dirname q) = false ->
  grows env s (<[q := Dir]> s).
Proof.
  intros Hq Hl r. destruct (decide (q = r)) as [<-|Hne].
  - rewrite lookup_insert_eq. repeat split; try congruence.
  - rewrite lookup_insert_ne by exact Hne. repeat split; eauto.
Qed.

Lemma mkdirFrom_grows (todo : list string) (s : fs) (done : path) :
  grows env s (fst (mkdirFrom (locked env) s done todo)).
Proof.
  revert s done. induction todo as [|c rest IH]; intros s done; cbn [mkdirFrom fst].
  - apply grows_refl.
  - destruct (s !! (done ++ [c])) as [[|d]|] eqn:E.
    + apply IH.
    + apply grows_refl.
    + destruct (locked env done) eqn:El; [apply grows_refl|].
      eapply grows_trans; [|apply IH].
      apply grows_insert_dir; [exact E | rewrite dirname_snoc; exact El].
Qed.


(** After a [mkdir -p] that succeeded, every component is a directory. *)
Lemma mkdirFrom_made (todo : list string) (s : fs) (done : path)
    (pre post : list string) :
  snd (mkdirFrom (locked env) s done todo) = true ->
  todo = pre ++ post -> pre <> [] ->
  fst (mkdirFrom (locked env) s done todo) !! (done ++ pre) = Some Dir.
Proof.
  revert s done pre. induction todo as [|c rest IH]; intros s done pre Hok Hsplit Hpre.
  - destruct pre; [contradiction | discriminate].
  - destruct pre as [|c' pre]; [contradiction|]. injection Hsplit as <- Hrest.
    cbn [mkdirFrom] in Hok |- *.
    assert (Hkeep : forall s0, s0 !! (done ++ [c]) = Some Dir ->
              snd (mkdirFrom (locked env) s0 (done ++ [c]) rest) = true ->
              fst (mkdirFrom (locked env) s0 (done ++ [c]) rest)
                !! (done ++ c :: pre) = Some Dir).
    { intros s0 Hs0 Hok0. destruct pre as [|c2 pre].
      - apply (mkdirFrom_grows rest s0 (done ++ [c])). exact Hs0.
      - replace (done ++ c :: c2 :: pre) with ((done ++ [c]) ++ c2 :: pre)
          by (rewrite <- List.app_assoc; reflexivity).
        apply IH; [exact Hok0 | exact Hrest | discriminate]. }
    destruct (s !! (done ++ [c])) as [[|d]|] eqn:E.
    + apply Hkeep; assumption.
    + discriminate.
    + destruct (locked env done); [discriminate|].
      apply Hkeep; [apply lookup_insert_eq | exact Hok].
Qed.

(** The directories a [mkdir -p] adds lie on its path. *)
Lemma mkdirFrom_new (todo : list string) (s : fs) (done q : path) :
  fst (mkdirFrom (locked env) s done todo) !! q = Some Dir ->
  s !! q = Some Dir \/ q `prefix_of` (done ++ todo).
Proof.
  revert s done. induction todo as [|c rest IH]; intros s done; cbn [mkdirFrom fst].
  - auto.
  - assert (Hstep : forall s0,
              fst (mkdirFrom (locked env) s0 (done ++ [c]) rest) !! q = Some Dir ->
              s0 !! q = Some Dir \/ q `prefix_of` (done ++ c :: rest)).
    { intros s0 H. apply IH in H. rewrite <- List.app_assoc in H. exact H. }
    destruct (s !! (done ++ [c])) as [[|d]|] eqn:E; auto.
    destruct (locked env done); auto.
    intros H. apply Hstep in H. destruct H as [H|H]; [|auto].
    destruct (decide (done ++ [c] = q)) as [<-|Hne].
    + right. exists rest. rewrite <- List.app_assoc. reflexivity.
    + rewrite lookup_insert_ne in H by exact Hne. auto.
Qed.

End Growth.

Section InstallSteps.

Import Node NodeSpec.

Variable env : Env.

Lemma writeFile_grows (s s' : fs) (p : path) :
  writeFile (locked env) s p (bridgeCode env) = Some s' -> grows env s s'.
Proof.
  unfold writeFile, creatable. intros H q.
  destruct p as [|c p]; [discriminate|]. cbn [look] in H.
  assert (Hs' : s' = <[c :: p := File (Js.toWellFormed (bridgeCode env))]> s /\
                (s !! (c :: p) = None -> locked env (dirname (c :: p)) = false) /\
                s !! (c :: p) <> Some Dir).
  { destruct (s !! (c :: p)) as [[|d]|].
    - discriminate.
    - injection H as <-. repeat split; congruence.
    - destruct (look s (dirname (c :: p))) as [[|d]|]; try discriminate.
      destruct (locked env (dirname (c :: p))); [discriminate|].
      injection H as <-. repeat split; congruence. }
  destruct Hs' as (-> & Hnew & Hnd).
  destruct (decide (c :: p = q)) as [<-|Hne].
  - rewrite lookup_insert_eq. repeat split; try congruence; eauto.
    intros Hn Hl. rewrite (Hnew Hn) in Hl. discriminate.
  - rewrite lookup_insert_ne by exact Hne. repeat split; eauto.
Qed.




Lemma installOne_grows (s : fs) (b : path) (v : string) :
  grows env s (fst (installOne env s b v)).
Proof.
  unfold installOne.
  pose proof (mkdirFrom_grows env (startupDirOf b v) s []) as Hm.
  fold (mkdirp (locked env) s (startupDirOf b v)) in Hm.
  destruct (mkdirp (locked env) s (startupDirOf b v)) as [s1 made].
  cbn [fst] in Hm. destruct made; [|exact Hm].
  destruct (writeFile _ s1 _ _) as [s2|] eqn:Ew; [|exact Hm].
  cbn [fst]. eapply grows_trans; [exact Hm | eapply writeFile_grows, Ew].
Qed.


Lemma installLoop_grows (vs : list string) (s : fs) (b : path) (n : nat) :
  grows env s (fst (installLoop env s b vs n)).
Proof.
  revert s n. induction vs as [|v vs IH]; intros s n; cbn [installLoop].
  - apply grows_refl.
  - pose proof (installOne_grows s b v) as H1.
    destruct (installOne env s b v) as [s1 written]. cbn [fst] in H1.
    eapply grows_trans; [exact H1 | apply IH].
Qed.



Lemma seedFold_grows (vs : list string) (s : fs) (b : path) :
  grows env s
    (List.fold_left (fun s v => fst (mkdirp (locked env) s (b ++ [v]))) vs s).
Proof.
  revert s. induction vs as [|v vs IH]; intros s; cbn [List.fold_left].
  - apply grows_refl.
  - eapply grows_trans; [|apply IH]. apply mkdirFrom_grows.
Qed.

Lemma seedAll_grows (s : fs) (b : path) : grows env s (seedAll env s b).
Proof. apply seedFold_grows. Qed.



End InstallSteps.

Section Versions.

Import Node NodeSpec.

Variable env : Env.

Lemma childName_spec (p k : path) (n : string) :
  childName p k = Some n <-> k = p ++ [n].
Proof.
  unfold childName. split.
  - destruct (List.rev k) as [|m r] eqn:E; [discriminate|].
    case_bool_decide as Hr; [|discriminate]. intros [= ->].
    apply (f_equal (@List.rev string)) in E.
    rewrite List.rev_involutive in E. simpl in E. subst. reflexivity.
  - intros ->. rewrite List.rev_app_distr. simpl.
    rewrite bool_decide_eq_true_2 by apply List.rev_involutive. reflexivity.
Qed.

Lemma NoDup_omap_inj {A B} (f : A -> option B) (l : list A) :
  NoDup l ->
  (forall x x' y, In x l -> In x' l -> f x = Some y -> f x' = Some y -> x = x') ->
  NoDup (omap f l).
Proof.
  induction l as [|a l IH]; intros Hnd Hinj; simpl.
  - constructor.
  - inversion Hnd as [|? ? Ha Hl]; subst.
    assert (IH' : NoDup (omap f l)).
    { apply IH; [exact Hl|]. intros x x' y Hx Hx'. apply Hinj; right; assumption. }
    destruct (f a) as [b|] eqn:Efa; [|exact IH'].
    constructor; [|exact IH'].
    intros Hin. apply list_elem_of_omap in Hin. destruct Hin as (x & Hx & Hfx).
    apply list_elem_of_In in Hx.
    assert (a = x) by (apply (Hinj a x b); [left; reflexivity | right; exact Hx | exact Efa | exact Hfx]).
    subst x. apply Ha. apply list_elem_of_In. exact Hx.
Qed.

Lemma readdir_spec (s : fs) (b : path) (names : list string) :
  readdir s b = Some names ->
  (forall n, In n names <-> is_Some (s !! (b ++ [n]))) /\ List.NoDup names.
Proof.
  unfold readdir. destruct (look s b) as [[|d]|]; try discriminate.
  intros [= <-]. split.
  - intros n. rewrite <- list_elem_of_In, list_elem_of_omap. split.
    + intros ([k x] & Hkx & Hn). apply elem_of_map_to_list in Hkx.
      apply childName_spec in Hn. simpl in Hn. subst k. eauto.
    + intros [x Hx]. exists (b ++ [n], x). split.
      * apply elem_of_map_to_list. exact Hx.
      * apply childName_spec. reflexivity.
  - apply NoDup_ListNoDup. apply NoDup_omap_inj.
    + apply NoDup_map_to_list.
    + intros [k x] [k' x'] n Hk Hk' Hn Hn'.
      apply childName_spec in Hn, Hn'. simpl in Hn, Hn'. subst k k'.
      apply list_elem_of_In, elem_of_map_to_list in Hk.
      apply list_elem_of_In, elem_of_map_to_list in Hk'.
      congruence.
Qed.

Lemma isDir_spec (s : fs) (p : path) (c : string) :
  isDir s (p ++ [c]) = true <-> s !! (p ++ [c]) = Some Dir.
Proof.
  unfold isDir, isDirectory. rewrite look_snoc.
  destruct (s !! (p ++ [c])) as [[|d]|]; split; congruence.
Qed.

Lemma versionsAt_spec (s : fs) (b : path) (v : string) :
  In v (versionsAt s b) <-> look s b = Some Dir /\ s !! (b ++ [v]) = Some Dir.
Proof.
  unfold versionsAt. destruct (readdir s b) as [names|] eqn:E.
  - destruct (readdir_spec s b names E) as [Hin _].
    assert (Hb : look s b = Some Dir).
    { unfold readdir in E. destruct (look s b) as [[|d]|]; congruence. }
    rewrite List.filter_In, Hin, isDir_spec. split.
    + intros [_ H]. auto.
    + intros [_ H]. split; [rewrite H; eauto | exact H].
  - split; [intros [] | intros [Hb _]].
    unfold readdir in E. rewrite Hb in E. discriminate.
Qed.

Lemma versionsAt_NoDup (s : fs) (b : path) : List.NoDup (versionsAt s b).
Proof.
  unfold versionsAt. destruct (readdir s b) as [names|] eqn:E; [|constructor].
  apply List.NoDup_filter. exact (proj2 (readdir_spec s b names E)).
Qed.

Lemma look_grows (s s' : fs) (p : path) :
  grows env s s' -> look s p = Some Dir -> look s' p = Some Dir.
Proof.
  intros Hg. unfold look. destruct p; [auto|]. apply (proj1 (Hg _)).
Qed.


Lemma seedVersions_NoDup : List.NoDup seedVersions.
Proof.
  unfold seedVersions. repeat constructor; simpl; intuition discriminate.
Qed.

(** *** The tree shape of the disk *)

Lemma wellFormed_insert (s : fs) (p : path) (c : string) (x : node) :
  wellFormed s -> look s p = Some Dir -> s !! (p ++ [c]) = None ->
  wellFormed (<[p ++ [c] := x]> s).
Proof.
  intros Hwf Hp Hnone q d Hq.
  assert (Hkeep : forall r, look s r = Some Dir ->
            look (<[p ++ [c] := x]> s) r = Some Dir).
  { intros r. unfold look. destruct r as [|e r]; [auto|].
    intros Hr. rewrite lookup_insert_ne; [exact Hr|].
    intros Heq. rewrite <- Heq, Hnone in Hr. discriminate. }
  destruct (decide (p ++ [c] = q ++ [d])) as [Heq|Hne].
  - apply List.app_inj_tail in Heq. destruct Heq as [<- _]. apply Hkeep, Hp.
  - rewrite lookup_insert_ne in Hq by exact Hne. apply Hkeep, (Hwf q d), Hq.
Qed.

Lemma wellFormed_mkdirFrom (todo : list string) (s : fs) (done : path) :
  wellFormed s -> look s done = Some Dir ->
  wellFormed (fst (mkdirFrom (locked env) s done todo)).
Proof.
  revert s done. induction todo as [|c rest IH]; intros s done Hwf Hd;
    cbn [mkdirFrom].
  - exact Hwf.
  - destruct (s !! (done ++ [c])) as [[|d]|] eqn:E.
    + apply IH; [exact Hwf | rewrite look_snoc; exact E].
    + exact Hwf.
    + destruct (locked env done); [exact Hwf|].
      apply IH.
      * apply wellFormed_insert; assumption.
      * rewrite look_snoc. apply lookup_insert_eq.
Qed.

Lemma wellFormed_mkdirp (s : fs) (p : path) :
  wellFormed s -> wellFormed (fst (mkdirp (locked env) s p)).
Proof. intros H. apply wellFormed_mkdirFrom; [exact H | reflexivity]. Qed.

Lemma wellFormed_seedAll (s : fs) (b : path) :
  wellFormed s -> wellFormed (seedAll env s b).
Proof.
  unfold seedAll. generalize seedVersions. intros vs. revert s.
  induction vs as [|v vs IH]; intros s Hwf; cbn [List.fold_left].
  - exact Hwf.
  - apply IH, wellFormed_mkdirp, Hwf.
Qed.


End Versions.

Section Children.

Import Node NodeSpec.

Variable env : Env.

Lemma prefix_child (b b' : path) (n : string) (l : list string) :
  (b ++ [n]) `prefix_of` (b' ++ l) -> length b = length b' ->
  b = b' /\ exists l', l = n :: l'.
Proof.
  intros [k Hk] Hlen. rewrite <- List.app_assoc in Hk.
  assert (H : b' = b /\ l = [n] ++ k).
  { revert b' Hlen Hk. induction b as [|x b IH]; intros [|y b'] Hlen Hk;
      try discriminate.
    - auto.
    - injection Hlen as Hlen. injection Hk as -> Hk.
      destruct (IH b' Hlen Hk) as [-> ->]. auto. }
  destruct H as [-> ->]. split; [reflexivity | eauto].
Qed.

Lemma childrenIn_mkdirp (b : path) (vs : list string) (s : fs) (p : path) :
  childrenIn b vs s ->
  (forall n, (b ++ [n]) `prefix_of` p -> In n vs) ->
  childrenIn b vs (fst (mkdirp (locked env) s p)).
Proof.
  intros Hc Hp n Hn. unfold mkdirp in Hn. apply mkdirFrom_new in Hn.
  destruct Hn as [Hn|Hn]; [exact (Hc n Hn) | exact (Hp n Hn)].
Qed.



Lemma childrenIn_seedAll (b : path) (vs : list string) (b' : path) (s : fs) :
  childrenIn b vs s ->
  (forall u n, In u seedVersions -> (b ++ [n]) `prefix_of` (b' ++ [u]) -> In n vs) ->
  childrenIn b vs (seedAll env s b').
Proof.
  unfold seedAll. generalize seedVersions. intros us. revert s.
  induction us as [|u us IH]; intros s Hc Hp; cbn [List.fold_left].
  - exact Hc.
  - apply IH.
    + apply childrenIn_mkdirp; [exact Hc|]. intros n. apply Hp. left. reflexivity.
    + intros w n Hw. apply Hp. right. exact Hw.
Qed.

(** What one discovery establishes. *)
Lemma discoverPure_facts (s : fs) (b : path) :
  wellFormed s ->
  let s1 := fst (discoverPure env s b) in
  let vs := snd (discoverPure env s b) in
  grows env (fst (mkdirp (locked env) s b)) s1 /\
  wellFormed s1 /\
  childrenIn b vs s1 /\
  List.NoDup vs /\
  (versionsAt (fst (mkdirp (locked env) s b)) b = [] ->
   vs = seedVersions /\ s1 = seedAll env (fst (mkdirp (locked env) s b)) b) /\
  (forall v, In v (versionsAt (fst (mkdirp (locked env) s b)) b) -> In v vs).
Proof.
  intros Hwf. unfold discoverPure.
  pose proof (wellFormed_mkdirp env s b Hwf) as Hwa.
  set (sa := fst (mkdirp (locked env) s b)) in *.
  assert (Hca : childrenIn b (versionsAt sa b) sa).
  { intros n Hn. apply versionsAt_spec. split; [|exact Hn].
    apply (Hwa b n). rewrite Hn. eauto. }
  destruct (versionsAt sa b) as [|v vs] eqn:Ev; cbn [fst snd].
  - split; [apply seedAll_grows|]. split; [apply wellFormed_seedAll, Hwa|].
    split.
    + apply childrenIn_seedAll.
      * intros n Hn. destruct (Hca n Hn).
      * intros u n Hu Hpre.
        destruct (prefix_child b b n [u] Hpre eq_refl) as [_ [l' Hl]].
        injection Hl as -> _. exact Hu.
    + split; [apply seedVersions_NoDup|]. split; [auto | intros v []].
  - split; [apply grows_refl|]. split; [exact Hwa|]. split; [exact Hca|].
    split; [rewrite <- Ev; apply versionsAt_NoDup|].
    split; [discriminate | auto].
Qed.

End Children.

Section Idempotence.

Import Node NodeSpec.

Variable env : Env.

Lemma bases_length : length (preferencesBase env) = length (supportBase env).
Proof. unfold preferencesBase, supportBase. rewrite !List.length_app. reflexivity. Qed.

Lemma bases_differ : preferencesBase env <> supportBase env.
Proof.
  unfold preferencesBase, supportBase. intros H.
  apply List.app_inv_head in H. discriminate.
Qed.








End Idempotence.



(** On an empty disk with nothing locked, three version folders are
    seeded under each candidate and six scripts are written, the second
    time as well. *)
Example install_on_empty_disk :
  let first := Node.installUnifiedBridge NodeSpec.quietEnv NodeSpec.emptyWorld in
  let second := Node.installUnifiedBridge NodeSpec.quietEnv (snd first) in
  fst first = Node.Ok (NodeSpec.resultOf 6) /\
  fst second = Node.Ok (NodeSpec.resultOf 6) /\
  size (Node.files (snd second)) = size (Node.files (snd first)).
Proof. vm_compute. auto. Qed.

(** Where nothing can be created every write fails, and the installer
    reports that instead of raising. *)
Example install_on_read_only_disk :
  fst (Node.installUnifiedBridge NodeSpec.readOnlyEnv NodeSpec.emptyWorld)
  = Node.Ok {| Node.success := false; Node.installCount := 0;
               Node.message := Node.CouldNotCreate |}.
Proof. vm_compute. reflexivity. Qed.

(* ===================================================================== *)
(** ** Further properties *)
(* ===================================================================== *)

(** *** The queue over several ticks *)

Section TickRuns.

Import Host Spec HostSpec.

Lemma ticks_cons (app : App) (apps : list App) (q : Queue) :
  ticks (app :: apps) q =
  (fst (ticks apps (fst (rbProcess app q))),
   snd (rbProcess app q) ++ snd (ticks apps (fst (rbProcess app q)))).
Proof.
  simpl. destruct (rbProcess app q) as [q1 ev1]. simpl.
  destruct (ticks apps q1) as [q2 ev2]. reflexivity.
Qed.

(** A tick on an entry with which nothing can be done. *)
Lemma rbProcess_unusable (app : App) (q : Queue) (f : QEntry) (t : FileType) :
  selected q = Some (f, t) ->
  unusable f = true ->
  fst (rbProcess app q) = q /\
  Forall (fun e => e = EvRead (name f)) (snd (rbProcess app q)).
Proof.
  intros Hsel Hun. destruct (selected_some_queue _ _ Hsel) as [es ->].
  unfold rbProcess. simpl rbEnsureDir. cbv iota beta.
  destruct (stopFileExists (Some es)); [split; [reflexivity | constructor]|].
  destruct (userBusy app); [split; [reflexivity | constructor]|].
  rewrite Hsel. unfold unusable in Hun.
  destruct (negb (isFile f)); [split; [reflexivity | constructor]|].
  simpl in Hun. destruct (content f) as [raw|].
  - rewrite Hun. split; [reflexivity | repeat constructor].
  - split; [reflexivity | repeat constructor].
Qed.

End TickRuns.

(** X1: when the entry that a tick selects cannot be used whatever
    the host does (it is a folder, reading it raises, or its text is
    empty once the trailing white space is removed), the tick returns
    without removing it; so it is selected again at every later tick:
    after any number of ticks, in any states of the host, the queue is
    what it was, and the only calls made are reads of that entry. No job
    behind it is ever handed to the host. *)
Theorem blocked_head_blocks_queue
    (apps : list Host.App) (q : Host.Queue) (f : Host.QEntry) (t : FileType) :
  Host.selected q = Some (f, t) ->
  HostSpec.unusable f = true ->
  fst (Host.ticks apps q) = q /\
  Forall (fun e => e = Host.EvRead (Host.name f)) (snd (Host.ticks apps q)).
Proof.
  intros Hsel Hun. induction apps as [|app apps IH].
  - split; [reflexivity | constructor].
  - rewrite ticks_cons.
    destruct (rbProcess_unusable app q f t Hsel Hun) as [Hq Hev].
    rewrite Hq. simpl. split; [apply IH|].
    apply Forall_app. split; [exact Hev | apply IH].
Qed.


Section Consumption.

Import Host Spec HostSpec.

Lemma masks_exclusive (e : QEntry) :
  matches (MaskExt cmd) e = true -> matches (MaskExt jsx) e = false.
Proof.
  unfold matches, endsWith. simpl extension.
  rewrite bool_decide_eq_true, bool_decide_eq_false.
  intros [k1 H1] [k2 H2]. rewrite H1 in H2. vm_compute in H2. discriminate.
Qed.

Lemma name_unique (es : list QEntry) (e f : QEntry) :
  List.NoDup (List.map name es) -> In e es -> In f es -> name e = name f -> e = f.
Proof.
  induction es as [|x es IH]; simpl; [tauto|].
  intros Hnd He Hf Hn. inversion Hnd as [|? ? Hx Hnd']; subst.
  destruct He as [->|He], Hf as [->|Hf]; auto.
  - exfalso. apply Hx. rewrite Hn. apply List.in_map. exact Hf.
  - exfalso. apply Hx. rewrite <- Hn. apply List.in_map. exact He.
Qed.

Lemma NoDup_names_filter (p : QEntry -> bool) (es : list QEntry) :
  List.NoDup (List.map name es) -> List.NoDup (List.map name (List.filter p es)).
Proof.
  induction es as [|x es IH]; simpl; [auto|].
  intros Hnd. inversion Hnd as [|? ? Hx Hnd']; subst.
  destruct (p x); simpl; [|auto].
  constructor; [|auto]. intros Hin. apply Hx.
  apply List.in_map_iff in Hin. destruct Hin as (y & Hy & Hin).
  apply List.filter_In in Hin. rewrite <- Hy. apply List.in_map. tauto.
Qed.

(** Filtering out a name that no entry bears changes nothing. *)
Lemma filter_absent (n : string) (l : list QEntry) :
  (forall e, In e l -> name e <> n) ->
  List.filter (fun e => negb (String.eqb (name e) n)) l = l.
Proof.
  induction l as [|x l IH]; simpl; [reflexivity|]. intros H.
  destruct (String.eqb_spec (name x) n) as [E|E]; simpl.
  - destruct (H x (or_introl eq_refl) E).
  - f_equal. apply IH. intros e He. apply H. auto.
Qed.

Lemma filter_comm {A} (p r : A -> bool) (l : list A) :
  List.filter p (List.filter r l) = List.filter r (List.filter p l).
Proof.
  induction l as [|x l IH]; simpl; [reflexivity|].
  destruct (p x) eqn:Ep, (r x) eqn:Er; simpl; rewrite ?Ep, ?Er, IH; reflexivity.
Qed.

(** In a directory (no two entries of the same name), removing the first
    job leaves the other jobs, in order. *)
Lemma allFiles_removeEntry (q : Queue) (f : QEntry) (t : FileType)
    (rest : list (QEntry * FileType)) :
  List.NoDup (List.map name (entries q)) ->
  allFiles q = (f, t) :: rest ->
  allFiles (removeEntry (name f) q) = rest.
Proof.
  intros Hnd Hall. destruct q as [es|]; [|discriminate Hall].
  unfold allFiles, getFiles in *. simpl entries in *.
  set (keep := fun e : QEntry => negb (String.eqb (name e) (name f))).
  rewrite !(filter_comm _ keep).
  assert (Hin : forall m e, In e (List.filter (matches m) es) ->
                            name e = name f -> In f es -> e = f).
  { intros m e He Hn Hf. apply List.filter_In in He.
    apply (name_unique es); tauto. }
  destruct (List.filter (matches (MaskExt cmd)) es) as [|c cs] eqn:Ec.
  - (* the first job is a script *)
    simpl in Hall |- *.
    destruct (List.filter (matches (MaskExt jsx)) es) as [|j js] eqn:Ej;
      [discriminate|].
    simpl in Hall. injection Hall as -> <- <-.
    pose proof (NoDup_names_filter (matches (MaskExt jsx)) es Hnd) as Hj.
    rewrite Ej in Hj. simpl in Hj. inversion Hj as [|? ? Hx _]; subst.
    subst keep. simpl. rewrite String.eqb_refl. simpl.
    rewrite filter_absent; [reflexivity|].
    intros e He Hn. apply Hx. rewrite <- Hn. apply List.in_map. exact He.
  - (* the first job is an import *)
    simpl in Hall. injection Hall as -> <- <-.
    pose proof (NoDup_names_filter (matches (MaskExt cmd)) es Hnd) as Hc.
    rewrite Ec in Hc. simpl in Hc. inversion Hc as [|? ? Hx _]; subst.
    assert (Hf : In f es /\ matches (MaskExt cmd) f = true).
    { apply List.filter_In. rewrite Ec. left. reflexivity. }
    subst keep. simpl. rewrite String.eqb_refl. simpl.
    rewrite filter_absent.
    2:{ intros e He Hn. apply Hx. rewrite <- Hn. apply List.in_map. exact He. }
    rewrite filter_absent; [reflexivity|].
    intros e He Hn. apply List.filter_In in He.
    assert (e = f) by (apply (name_unique es); tauto). subst e.
    destruct He as [_ He]. rewrite (masks_exclusive f) in He; [discriminate|tauto].
Qed.

(** The dispatch makes exactly the call of the job. *)
Lemma dispatch_call (app : App) (f : QEntry) (t : FileType) :
  List.filter isDispatchCall (snd (dispatch app t (textOf f))) = [callOf (f, t)].
Proof.
  unfold dispatch, callOf. simpl snd at 2. simpl fst.
  destruct t; [destruct (importFile app (textOf f));
               [| | destruct (audioBinExists app); destruct (addFolderOk app);
                    cbn [negb andb];
                    try (destruct (activeItem app) as [comp|];
                         [destruct (isCompItem comp); [destruct (layersAddOk app)|]|])]
              | destruct (evalOk app (textOf f))];
    reflexivity.
Qed.

(** The tick on a queue whose first job can be used, in a host that
    accepts it. *)
Lemma rbProcess_accepts (app : App) (q : Queue) (f : QEntry) (t : FileType)
    (rest : list (QEntry * FileType)) :
  stopFileExists q = false ->
  allFiles q = (f, t) :: rest ->
  unusable f = false ->
  accepts app (f, t) ->
  fst (rbProcess app q) = removeEntry (name f) q /\
  List.filter isDispatchCall (snd (rbProcess app q)) = [callOf (f, t)].
Proof.
  intros Hstop Hall Hun (Hbusy & Hprj & Hok). simpl in Hok.
  unfold unusable in Hun. apply Bool.orb_false_iff in Hun.
  destruct Hun as [Hfile Hraw]. apply Bool.negb_false_iff in Hfile.
  assert (Hd : dispatches app q f t (textOf f)).
  { unfold dispatches, textOf. repeat split; try assumption.
    - unfold selected. rewrite Hall. reflexivity.
    - destruct (content f) as [raw|]; [|discriminate]. eauto.
    - destruct (content f) as [raw|]; [|discriminate].
      apply Bool.negb_false_iff. exact Hraw. }
  rewrite (rbProcess_dispatch _ _ _ _ _ Hd), Hok.
  split; [reflexivity|].
  cbn [fst snd List.app List.filter isDispatchCall].
  rewrite List.filter_app, dispatch_call. reflexivity.
Qed.

Lemma rbProcess_no_job (app : App) (q : Queue) :
  allFiles q = [] ->
  allFiles (fst (rbProcess app q)) = [] /\
  List.filter isDispatchCall (snd (rbProcess app q)) = [].
Proof.
  intros Hall. unfold rbProcess.
  assert (Hq1 : allFiles (fst (rbEnsureDir q)) = []).
  { destruct q; [exact Hall | reflexivity]. }
  assert (Hev : List.filter isDispatchCall (snd (rbEnsureDir q)) = []).
  { destruct q; reflexivity. }
  destruct (rbEnsureDir q) as [q1 ev1]. simpl in Hq1, Hev.
  destruct (stopFileExists q1); [auto|].
  destruct (userBusy app); [auto|].
  unfold selected. rewrite Hq1. simpl. auto.
Qed.

End Consumption.

(** X2: in a queue directory with no stop file, whose entries have
    distinct names and whose job files are all readable files with some
    text, and in a host that accepts each
    of them at each tick (no layer selected, a project open, the
    dispatch sets [ok]), [k] ticks take the first [k] jobs of [allFiles]
    (every ['*.cmd'] entry in listing order, then every ['*.jsx']
    entry), one per tick and in that order: the jobs left are the others,
    in order, and the calls that hand a job to the host are exactly those
    of the first [k] jobs, each with the text of its file without the
    trailing white space. ([f.remove()] removes the file, as in
    [Host.rbProcess].) *)
Theorem ticks_consume_in_order (apps : list Host.App) (q : Host.Queue) :
  Host.stopFileExists q = false ->
  List.NoDup (List.map Host.name (Host.entries q)) ->
  (forall job, In job (Host.allFiles q) -> HostSpec.unusable (fst job) = false) ->
  (forall app job, In app apps -> In job (Host.allFiles q) ->
                   HostSpec.accepts app job) ->
  Host.allFiles (fst (Host.ticks apps q))
    = List.skipn (length apps) (Host.allFiles q) /\
  List.filter Spec.isDispatchCall (snd (Host.ticks apps q))
    = List.map HostSpec.callOf (List.firstn (length apps) (Host.allFiles q)).
Proof.
  revert q. induction apps as [|app apps IH]; intros q Hstop Hnd Hun Hacc.
  - split; reflexivity.
  - rewrite ticks_cons. simpl fst. simpl snd. rewrite List.filter_app.
    destruct (Host.allFiles q) as [|[f t] rest] eqn:Hall.
    + destruct (rbProcess_no_job app q Hall) as [Hq Hev].
      rewrite Hev. simpl.
      assert (Hnone : forall apps' q', Host.allFiles q' = [] ->
                Host.allFiles (fst (Host.ticks apps' q')) = [] /\
                List.filter Spec.isDispatchCall (snd (Host.ticks apps' q')) = []).
      { clear. induction apps' as [|a apps' IH']; intros q' Hq'; [auto|].
        rewrite ticks_cons. simpl fst. simpl snd. rewrite List.filter_app.
        destruct (rbProcess_no_job a q' Hq') as [H1 H2]. rewrite H2.
        apply IH'. exact H1. }
      apply Hnone. exact Hq.
    + destruct (rbProcess_accepts app q f t rest Hstop Hall) as [Hq Hev].
      { apply (Hun (f, t)). left. reflexivity. }
      { apply Hacc; left; reflexivity. }
      pose proof (allFiles_removeEntry q f t rest Hnd Hall) as Hrest.
      rewrite Hq, Hev. simpl.
      destruct (IH (Host.removeEntry (Host.name f) q)) as [H1 H2].
      * apply present_false. intros e He. apply In_removeEntry in He.
        destruct He as [He _]. revert e He. apply present_false. exact Hstop.
      * destruct q as [es|]; [|discriminate Hall]. simpl.
        apply NoDup_names_filter. exact Hnd.
      * rewrite Hrest. intros job Hj. apply Hun. right. exact Hj.
      * rewrite Hrest. intros a job Ha Hj. apply Hacc; right; assumption.
      * rewrite Hrest in H1, H2. rewrite H1, H2. split; reflexivity.
Qed.


Lemma blocked_head_blocks_queue_witness :
  fst (Host.ticks [Spec.idleApp; Spec.idleApp] HostSpec.blankHeadQueue)
    = HostSpec.blankHeadQueue /\
  Forall (fun e => e = Host.EvRead "1000-a.cmd")
    (snd (Host.ticks [Spec.idleApp; Spec.idleApp] HostSpec.blankHeadQueue)).
Proof.
  apply (blocked_head_blocks_queue [Spec.idleApp; Spec.idleApp]
           HostSpec.blankHeadQueue (Spec.jobFile "1000-a.cmd" 1000 "  ") cmd).
  - reflexivity.
  - reflexivity.
Defined.

Lemma ticks_consume_in_order_witness :
  Host.allFiles (fst (Host.ticks [Spec.idleApp; Spec.idleApp] Spec.mixedQueue)) = [] /\
  List.filter Spec.isDispatchCall
    (snd (Host.ticks [Spec.idleApp; Spec.idleApp] Spec.mixedQueue))
  = [Host.EvImportFile (Js.lit "/tmp/b.wav"); Host.EvEval (Js.lit "alert(1)")].
Proof.
  apply (ticks_consume_in_order [Spec.idleApp; Spec.idleApp] Spec.mixedQueue).
  - reflexivity.
  - repeat constructor; simpl; intros H;
      repeat (destruct H as [H|H]; [discriminate H|]); destruct H.
  - intros job [<-|[<-|[]]]; reflexivity.
  - intros app job [<-|[<-|[]]] [<-|[<-|[]]]; repeat split.
Defined.

Section Untouched.

Import Host Spec HostSpec.

(** An entry that bears the name of a job file is selected by the same
    mask. *)
Lemma matches_name (m : Mask) (e f : QEntry) :
  name e = name f -> matches m e = matches m f.
Proof. intros H. destruct m; simpl; [reflexivity | rewrite H; reflexivity]. Qed.

Lemma rbProcess_entries (app : App) (q : Queue) (e : QEntry) :
  (In e (entries (fst (rbProcess app q))) -> In e (entries q)) /\
  (In e (entries q) ->
   matches (MaskExt cmd) e = false -> matches (MaskExt jsx) e = false ->
   In e (entries (fst (rbProcess app q)))).
Proof.
  split.
  - destruct q as [es|]; unfold rbProcess; simpl rbEnsureDir; cbv iota beta.
    + destruct (stopFileExists (Some es)); [auto|].
      destruct (userBusy app); [auto|].
      destruct (selected (Some es)) as [[f t]|]; [|auto].
      destruct (negb (isFile f)); [auto|].
      destruct (content f) as [raw|]; [|auto].
      destruct (negb (Js.truthy (Js.stripTrailingWs raw))); [auto|].
      destruct (negb (hasProject app)); [auto|].
      destruct (dispatch app t (Js.stripTrailingWs raw)) as [c evs].
      destruct (okOf c); [|auto].
      cbn [fst]. intros H. apply In_removeEntry in H. tauto.
    + destruct (stopFileExists (Some [])); [auto|].
      destruct (userBusy app); auto.
  - intros He Hc Hj. apply rbProcess_keeps_others; [exact He|].
    intros f t Hsel Hn. apply selected_In in Hsel. destruct Hsel as [_ Hm].
    rewrite <- (matches_name _ _ _ (eq_sym Hn)) in Hm.
    destruct t; congruence.
Qed.

End Untouched.

(** X3: ticks never add an entry to the queue directory, and never
    remove an entry that is neither a ['*.cmd'] nor a ['*.jsx'] entry:
    the stop file and any other file put there stay, whatever the host
    does and however many ticks run. *)
Theorem ticks_only_remove_jobs
    (apps : list Host.App) (q : Host.Queue) (e : Host.QEntry) :
  (In e (Host.entries (fst (Host.ticks apps q))) -> In e (Host.entries q)) /\
  (In e (Host.entries q) ->
   Host.matches (Host.MaskExt cmd) e = false ->
   Host.matches (Host.MaskExt jsx) e = false ->
   In e (Host.entries (fst (Host.ticks apps q)))).
Proof.
  revert q. induction apps as [|app apps IH]; intros q.
  - simpl. tauto.
  - rewrite ticks_cons. simpl fst.
    destruct (IH (fst (Host.rbProcess app q))) as [H1 H2].
    destruct (rbProcess_entries app q e) as [H3 H4].
    split; [tauto|]. intros He Hc Hj. apply H2; auto.
Qed.

Lemma ticks_only_remove_jobs_witness :
  In Spec.stopFile
     (Host.entries (fst (Host.ticks [Spec.idleApp; Spec.idleApp] Spec.stoppedQueue))).
Proof.
  apply (proj2 (ticks_only_remove_jobs [Spec.idleApp; Spec.idleApp]
                  Spec.stoppedQueue Spec.stopFile)).
  - right. left. reflexivity.
  - reflexivity.
  - reflexivity.
Defined.

(** X4: while the user has layers selected in the active
    composition, ticks leave every entry of the queue in place and make
    no call but the creation of the queue directory when it is missing:
    nothing is read, handed to the host or removed. *)
Theorem ticks_wait_while_layers_selected
    (apps : list Host.App) (q : Host.Queue) :
  Forall (fun app => Host.userBusy app = true) apps ->
  Host.entries (fst (Host.ticks apps q)) = Host.entries q /\
  Forall (fun e => e = Host.EvCreateDir) (snd (Host.ticks apps q)).
Proof.
  intros Hbusy. revert q. induction Hbusy as [|app apps Hb _ IH]; intros q.
  - split; [reflexivity | constructor].
  - rewrite ticks_cons. simpl fst. simpl snd.
    assert (Hq : Host.entries (fst (Host.rbProcess app q)) = Host.entries q /\
                 Forall (fun e => e = Host.EvCreateDir) (snd (Host.rbProcess app q))).
    { unfold Host.rbProcess. rewrite Hb.
      destruct q as [es|]; simpl Host.rbEnsureDir; cbv iota beta.
      - destruct (Host.stopFileExists (Some es));
          (split; [reflexivity | repeat constructor]).
      - destruct (Host.stopFileExists (Some []));
          (split; [reflexivity | repeat constructor]). }
    destruct Hq as [Hq Hev]. destruct (IH (fst (Host.rbProcess app q))) as [H1 H2].
    split; [congruence|]. apply Forall_app. split; assumption.
Qed.

Lemma ticks_wait_while_layers_selected_witness :
  Host.entries (fst (Host.ticks [HostSpec.busyApp; HostSpec.busyApp] Spec.mixedQueue))
    = Host.entries Spec.mixedQueue /\
  Forall (fun e => e = Host.EvCreateDir)
    (snd (Host.ticks [HostSpec.busyApp; HostSpec.busyApp] Spec.mixedQueue)).
Proof.
  apply (ticks_wait_while_layers_selected [HostSpec.busyApp; HostSpec.busyApp]
           Spec.mixedQueue).
  repeat constructor.
Defined.

(** *** What a computation leaves alone *)

Section Frames.

Import Node Disk.
Local Open Scope js_scope.

Lemma changesOnly_refl (own : path -> Prop) (s : fs) : changesOnly own s s.
Proof. intros p. auto. Qed.

Lemma changesOnly_trans (own : path -> Prop) (s1 s2 s3 : fs) :
  changesOnly own s1 s2 -> changesOnly own s2 s3 -> changesOnly own s1 s3.
Proof.
  intros H12 H23 p.
  destruct (H12 p) as [H|[H|[H H']]], (H23 p) as [G|[G|[G G']]]; auto;
    try (right; left; congruence);
    try (right; right; split; congruence); congruence.
Qed.

Lemma changesOnly_weaken (own own' : path -> Prop) (s s' : fs) :
  (forall p, own p -> own' p) -> changesOnly own s s' -> changesOnly own' s s'.
Proof. intros Hsub H p. destruct (H p) as [G|G]; auto. Qed.

(** Outside [own], what was on the disk is still there. *)
Lemma changesOnly_keeps (own : path -> Prop) (s s' : fs) (p : path) (x : node) :
  changesOnly own s s' -> s !! p = Some x -> ~ own p -> s' !! p = Some x.
Proof.
  intros H Hp Hown. destruct (H p) as [G|[G|[G _]]]; [tauto | congruence | congruence].
Qed.

Lemma changesOnly_insert (own : path -> Prop) (s : fs) (p : path) (x : node) :
  own p -> changesOnly own s (<[p := x]> s).
Proof.
  intros Hp q. destruct (decide (p = q)) as [<-|Hne]; [auto|].
  right. left. apply lookup_insert_ne. exact Hne.
Qed.

Lemma changesOnly_delete (own : path -> Prop) (s : fs) (p : path) :
  own p -> changesOnly own s (delete p s).
Proof.
  intros Hp q. destruct (decide (p = q)) as [<-|Hne]; [auto|].
  right. left. apply lookup_delete_ne. exact Hne.
Qed.

Lemma changesOnly_mkdirFrom (own : path -> Prop) (locked : path -> bool)
    (todo : list string) (s : fs) (done : path) :
  changesOnly own s (fst (mkdirFrom locked s done todo)).
Proof.
  revert s done. induction todo as [|c rest IH]; intros s done; cbn [mkdirFrom fst].
  - apply changesOnly_refl.
  - destruct (s !! (done ++ [c])) as [[|d]|] eqn:E.
    + apply IH.
    + apply changesOnly_refl.
    + destruct (locked done); [apply changesOnly_refl|].
      eapply changesOnly_trans; [|apply IH].
      intros q. destruct (decide (done ++ [c] = q)) as [<-|Hne].
      * right. right. split; [exact E | apply lookup_insert_eq].
      * right. left. apply lookup_insert_ne. exact Hne.
Qed.

Lemma changesOnly_writeFile (own : path -> Prop) (locked : path -> bool)
    (s s' : fs) (p : path) (data : Js.str) :
  own p -> writeFile locked s p data = Some s' -> changesOnly own s s'.
Proof.
  intros Hp H. unfold writeFile in H.
  assert (s' = <[p := File (Js.toWellFormed data)]> s) as ->.
  { destruct (look s p) as [[|d]|]; [discriminate | congruence |].
    destruct (creatable locked s p); [congruence | discriminate]. }
  apply changesOnly_insert, Hp.
Qed.

Lemma changesOnly_appendFile (own : path -> Prop) (locked : path -> bool)
    (s s' : fs) (p : path) (data : Js.str) :
  own p -> appendFile locked s p data = Some s' -> changesOnly own s s'.
Proof.
  intros Hp H. unfold appendFile in H.
  destruct (look s p) as [[|d]|]; [discriminate | |].
  - injection H as <-. apply changesOnly_insert, Hp.
  - destruct (creatable locked s p); [|discriminate].
    injection H as <-. apply changesOnly_insert, Hp.
Qed.

Lemma changesOnly_unlink (own : path -> Prop) (s s' : fs) (p : path) :
  own p -> unlink s p = Some s' -> changesOnly own s s'.
Proof.
  intros Hp H. unfold unlink in H.
  destruct (look s p) as [[|d]|]; try discriminate.
  injection H as <-. apply changesOnly_delete, Hp.
Qed.

Lemma changesOnly_rmForce (own : path -> Prop) (s s' : fs) (p : path) :
  own p -> rmForce s p = Some s' -> changesOnly own s s'.
Proof.
  intros Hp H. unfold rmForce in H.
  destruct (look s p) as [[|d]|]; try discriminate; injection H as <-.
  - apply changesOnly_delete, Hp.
  - apply changesOnly_refl.
Qed.

Section Steady.

Context {t : Z} {own : path -> Prop}.

Lemma steadyAt_ret {A} (a : A) : steadyAt t own (ret a).
Proof. intros w Hw. split; [exact Hw | apply changesOnly_refl]. Qed.

Lemma steadyAt_throw {A} (e : Exn) : steadyAt t own (@throw A e).
Proof. intros w Hw. split; [exact Hw | apply changesOnly_refl]. Qed.

Lemma steadyAt_bind {A B} (m : M A) (k : A -> M B) :
  steadyAt t own m -> (forall a, steadyAt t own (k a)) -> steadyAt t own (bind m k).
Proof.
  intros Hm Hk w Hw. unfold bind. destruct (Hm w Hw) as [Hc Hf].
  destruct (m w) as [[a|e] w1]; simpl in Hc, Hf.
  - destruct (Hk a w1 Hc) as [Hc' Hf']. split; [exact Hc'|].
    eapply changesOnly_trans; eassumption.
  - simpl. auto.
Qed.

Lemma steadyAt_tryCatch {A} (m : M A) (h : Exn -> M A) :
  steadyAt t own m -> (forall e, steadyAt t own (h e)) ->
  steadyAt t own (tryCatch m h).
Proof.
  intros Hm Hh w Hw. unfold tryCatch. destruct (Hm w Hw) as [Hc Hf].
  destruct (m w) as [[a|e] w1]; simpl in Hc, Hf.
  - simpl. auto.
  - destruct (Hh e w1 Hc) as [Hc' Hf']. split; [exact Hc'|].
    eapply changesOnly_trans; eassumption.
Qed.

Lemma steadyAt_tryIgnore (m : M unit) :
  steadyAt t own m -> steadyAt t own (tryIgnore m).
Proof. intros H. apply steadyAt_tryCatch; [exact H | intros _; apply steadyAt_ret]. Qed.

Lemma steadyAt_emit (e : Effect) : steadyAt t own (emit e).
Proof. intros w Hw. split; [exact Hw | apply changesOnly_refl]. Qed.

Lemma steadyAt_getFiles : steadyAt t own getFiles.
Proof. intros w Hw. split; [exact Hw | apply changesOnly_refl]. Qed.

(** The clock is read as [t]. *)
Lemma steadyAt_dateNow {B} (k : Z -> M B) :
  steadyAt t own (k t) -> steadyAt t own (bind dateNow k).
Proof. intros Hk w Hw. unfold bind, dateNow. rewrite Hw. apply Hk, Hw. Qed.

Lemma steadyAt_forEach {A} (l : list A) (body : A -> M unit) :
  (forall x, steadyAt t own (body x)) -> steadyAt t own (forEach l body).
Proof.
  intros Hb. induction l as [|x l IH]; simpl; [apply steadyAt_ret|].
  apply steadyAt_bind; [apply Hb | intros _; exact IH].
Qed.

Lemma steadyAt_filterM {A} (p : A -> M bool) (l : list A) :
  (forall x, steadyAt t own (p x)) -> steadyAt t own (filterM p l).
Proof.
  intros Hp. induction l as [|x l IH]; simpl; [apply steadyAt_ret|].
  apply steadyAt_bind; [apply Hp | intros b].
  apply steadyAt_bind; [exact IH | intros r; apply steadyAt_ret].
Qed.

Lemma steadyAt_foldM {A B} (f : B -> A -> M B) (l : list A) (b : B) :
  (forall b x, steadyAt t own (f b x)) -> steadyAt t own (foldM f l b).
Proof.
  intros Hf. revert b. induction l as [|x l IH]; intros b; simpl;
    [apply steadyAt_ret|].
  apply steadyAt_bind; [apply Hf | intros b'; apply IH].
Qed.

Lemma steadyAt_mapM {A B} (f : A -> M B) (l : list A) :
  (forall x, steadyAt t own (f x)) -> steadyAt t own (mapM f l).
Proof.
  intros Hf. induction l as [|x l IH]; simpl; [apply steadyAt_ret|].
  apply steadyAt_bind; [apply Hf | intros y].
  apply steadyAt_bind; [exact IH | intros ys; apply steadyAt_ret].
Qed.

Variable env : Env.

Lemma steadyAt_mkdirSync (p : path) : steadyAt t own (mkdirSync env p).
Proof.
  intros w Hw. rewrite mkdirSync_run. simpl. split; [exact Hw|].
  apply changesOnly_mkdirFrom.
Qed.

Lemma steadyAt_writeFileSync (p : path) (data : Js.str) :
  own p -> steadyAt t own (writeFileSync env p data).
Proof.
  intros Hp w Hw. rewrite writeFileSync_run.
  destruct (writeFile (locked env) (files w) p data) as [s'|] eqn:E; simpl.
  - split; [exact Hw | eapply changesOnly_writeFile; eassumption].
  - split; [exact Hw | apply changesOnly_refl].
Qed.

Lemma steadyAt_unlinkSync (p : path) : own p -> steadyAt t own (unlinkSync p).
Proof.
  intros Hp w Hw. rewrite unlinkSync_run.
  destruct (unlink (files w) p) as [s'|] eqn:E; simpl.
  - split; [exact Hw | eapply changesOnly_unlink; eassumption].
  - split; [exact Hw | apply changesOnly_refl].
Qed.

Lemma steadyAt_readFileSync (p : path) : steadyAt t own (readFileSync p).
Proof.
  intros w Hw. rewrite readFileSync_run. simpl.
  split; [exact Hw | apply changesOnly_refl].
Qed.

Lemma steadyAt_readdirSync (p : path) : steadyAt t own (readdirSync p).
Proof.
  intros w Hw. unfold readdirSync, bind, emit, getFiles, ret, throw. simpl.
  destruct (readdir (files w) p); simpl; (split; [exact Hw | apply changesOnly_refl]).
Qed.

Lemma steadyAt_statIsDirectory (p : path) : steadyAt t own (statIsDirectory p).
Proof.
  intros w Hw. unfold statIsDirectory, bind, emit, getFiles, ret, throw. simpl.
  destruct (isDirectory (files w) p); simpl;
    (split; [exact Hw | apply changesOnly_refl]).
Qed.

Lemma steadyAt_runOsascript (s : Script) : steadyAt t own (runOsascript env s).
Proof.
  intros w Hw. rewrite runOsascript_run. simpl.
  split; [exact Hw | apply changesOnly_refl].
Qed.

Lemma steadyAt_isAERunning : steadyAt t own (isAERunning env).
Proof.
  intros w Hw. rewrite isAERunning_run. simpl.
  split; [exact Hw | apply changesOnly_refl].
Qed.

Lemma steadyAt_appendFileSync (p : path) (data : Js.str) :
  own p -> steadyAt t own (appendFileSync env p data).
Proof.
  intros Hp w Hw. unfold appendFileSync, bind, emit, getFiles, putFiles, throw.
  simpl. destruct (appendFile (locked env) (files w) p data) as [s'|] eqn:E; simpl.
  - split; [exact Hw | eapply changesOnly_appendFile; eassumption].
  - split; [exact Hw | apply changesOnly_refl].
Qed.

Lemma steadyAt_existsSync (p : path) : steadyAt t own (existsSync p).
Proof. intros w Hw. split; [exact Hw | apply changesOnly_refl]. Qed.

Lemma steadyAt_rmSync (p : path) : own p -> steadyAt t own (rmSync p).
Proof.
  intros Hp w Hw. unfold rmSync, bind, emit, getFiles, putFiles, throw.
  simpl. destruct (rmForce (files w) p) as [s'|] eqn:E; simpl.
  - split; [exact Hw | eapply changesOnly_rmForce; eassumption].
  - split; [exact Hw | apply changesOnly_refl].
Qed.

End Steady.

End Frames.


(** *** Queueing a job *)

Section Queueing.

Import Node NodeSpec Disk.
Local Open Scope js_scope.

Variable env : Env.

Lemma steadyAt_queueCommand (t : Z) (content : Js.str) (ext : FileType)
    (d : string) :
  steadyAt t (eq (queueFileOf env t ext)) (queueCommand env content ext d).
Proof.
  unfold queueCommand. apply steadyAt_tryCatch.
  - apply steadyAt_bind; [apply steadyAt_mkdirSync | intros _].
    apply steadyAt_dateNow.
    apply steadyAt_bind; [|intros _; apply steadyAt_ret].
    apply steadyAt_writeFileSync. reflexivity.
  - intros e. apply steadyAt_bind; [apply steadyAt_emit | intros _].
    apply steadyAt_ret.
Qed.

Lemma mkdirp_made (s : fs) (p : path) :
  p <> [] -> snd (mkdirp (locked env) s p) = true ->
  fst (mkdirp (locked env) s p) !! p = Some Dir.
Proof.
  intros Hp Hok. unfold mkdirp in *.
  apply (mkdirFrom_made env p s [] p []); [exact Hok | |exact Hp].
  rewrite List.app_nil_r. reflexivity.
Qed.

Lemma queueDir_not_root : getBridgeQueueDir env <> [].
Proof. unfold getBridgeQueueDir. destruct (HOME env); discriminate. Qed.

(** The run of [queueCommand]: its answer, and the disk it leaves. *)
Lemma queueCommand_run (content : Js.str) (ext : FileType) (d : string)
    (w : World) :
  let s1 := fst (mkdirp (locked env) (files w) (getBridgeQueueDir env)) in
  let made := snd (mkdirp (locked env) (files w) (getBridgeQueueDir env)) in
  let f := queueFileOf env (clock w) ext in
  exists tr,
    queueCommand env content ext d w =
    match (if made then writeFile (locked env) s1 f (payloadOf content) else None) with
    | Some s2 => (Ok true, {| files := s2; clock := clock w; trace := tr |})
    | None => (Ok false, {| files := s1; clock := clock w;
                            trace := tr ++ [EConsoleError] |})
    end.
Proof.
  cbv zeta. unfold queueCommand, tryCatch. unfold bind at 1.
  rewrite mkdirSync_run.
  destruct (mkdirp (locked env) (files w) (getBridgeQueueDir env)) as [s1 made].
  cbn [fst snd]. destruct made.
  - unfold bind at 1. unfold dateNow. cbn [clock]. unfold bind at 1.
    rewrite writeFileSync_run. cbn [files clock trace]. unfold queueFileOf.
    destruct (writeFile (locked env) s1 _ (payloadOf content)) as [s2|].
    + eexists. reflexivity.
    + eexists. unfold logged, bind, emit, ret. cbn [files clock trace].
      reflexivity.
  - eexists. unfold bind, emit, ret. cbn [files clock trace]. reflexivity.
Qed.

End Queueing.

(** X5: [queueCommand] never raises. When it answers [true], the queue
    file [<Date.now()>-<random>.<ext>] holds the content as UTF-8 keeps
    it (U+FFFD in the place of each lone surrogate) followed by a line
    feed, and the queue directory exists; when it answers [false], the
    last call it made is [console.error]. Either way nothing else on the
    disk is removed or rewritten: apart from that file, the only changes
    are directories created on the way. *)
Theorem queueCommand_reports_instead_of_raising
    (env : Node.Env) (content : Js.str) (ext : FileType) (d : string)
    (w : Node.World) :
  exists b w',
    Node.queueCommand env content ext d w = (Node.Ok b, w') /\
    Disk.changesOnly (eq (NodeSpec.queueFileOf env (Node.clock w) ext))
      (Node.files w) (Node.files w') /\
    (b = true ->
       Node.files w' !! NodeSpec.queueFileOf env (Node.clock w) ext
         = Some (Node.File (Js.toWellFormed content ++ [Js.LF])) /\
       Node.files w' !! Node.getBridgeQueueDir env = Some Node.Dir) /\
    (b = false -> exists tr, Node.trace w' = tr ++ [Node.EConsoleError]).
Proof.
  pose proof (steadyAt_queueCommand env (Node.clock w) content ext d w eq_refl)
    as [_ Hf].
  destruct (queueCommand_run env content ext d w) as [tr E]. cbv zeta in E.
  pose proof (mkdirp_made env (Node.files w) (Node.getBridgeQueueDir env)
                (queueDir_not_root env)) as Hmade.
  destruct (Node.mkdirp (Node.locked env) (Node.files w)
              (Node.getBridgeQueueDir env)) as [s1 made].
  cbn [fst snd] in E, Hmade.
  destruct made; cbn iota in E.
  - destruct (Node.writeFile (Node.locked env) s1
                (NodeSpec.queueFileOf env (Node.clock w) ext)
                (Node.payloadOf content)) as [s2|] eqn:Ew.
    + rewrite E in Hf. do 2 eexists. split; [exact E|].
      split; [exact Hf|]. split; [|discriminate].
      intros _. cbn [Node.files].
      apply (writeFile_Some env) in Ew. subst s2. split.
      * unfold Node.payloadOf. rewrite toWellFormed_LF. apply lookup_insert_eq.
      * rewrite lookup_insert_ne; [apply Hmade; reflexivity|].
        unfold NodeSpec.queueFileOf. intros H.
        apply (f_equal (@length string)) in H.
        rewrite List.length_app in H. simpl in H. lia.
    + rewrite E in Hf. do 2 eexists. split; [exact E|].
      split; [exact Hf|]. split; [discriminate|].
      intros _. eexists. reflexivity.
  - rewrite E in Hf. do 2 eexists. split; [exact E|].
    split; [exact Hf|]. split; [discriminate|].
    intros _. eexists. reflexivity.
Qed.

(** *** From the producer to the consumer *)

Section Handover.

Import Node NodeSpec Disk.

Variable env : Env.

Lemma list_ascii_app (a b : string) :
  list_ascii_of_string (a ++ b) = list_ascii_of_string a ++ list_ascii_of_string b.
Proof. induction a as [|c a IH]; simpl; [reflexivity | rewrite IH; reflexivity]. Qed.

Lemma endsWith_app (pre suffix : string) : endsWith suffix (pre ++ suffix) = true.
Proof.
  unfold endsWith. apply bool_decide_eq_true.
  rewrite list_ascii_app, List.rev_app_distr.
  exists (List.rev (list_ascii_of_string pre)). reflexivity.
Qed.

(** The name that [queueCommand] gives a job of kind [t] is selected by
    the mask of [t] and by no other. *)
Lemma jobName_matches (e : Host.QEntry) (id : string) (t t' : FileType) :
  Host.name e = (id ++ "." ++ extension t)%string ->
  Host.matches (Host.MaskExt t') e =
  match t, t' with cmd, cmd | jsx, jsx => true | _, _ => false end.
Proof.
  intros Hn.
  assert (Hown : Host.matches (Host.MaskExt t) e = true).
  { simpl. rewrite Hn. apply (endsWith_app id ("." ++ extension t)). }
  destruct t, t'.
  - exact Hown.
  - apply masks_exclusive. exact Hown.
  - destruct (Host.matches (Host.MaskExt cmd) e) eqn:E; [|reflexivity].
    apply masks_exclusive in E. congruence.
  - exact Hown.
Qed.

Lemma jobName_not_stop (id : string) (t : FileType) :
  (id ++ "." ++ extension t)%string <> Host.STOP_BRIDGE.
Proof.
  intros H.
  pose proof (endsWith_app id ("." ++ extension t)) as He. rewrite H in He.
  destruct t; vm_compute in He; discriminate.
Qed.

Lemma look_nonroot (s : fs) (p : path) : p <> [] -> look s p = s !! p.
Proof. destruct p; [contradiction | reflexivity]. Qed.

Lemma singleton_list {A} (l : list A) (a : A) :
  List.NoDup l -> (forall x, In x l <-> x = a) -> l = [a].
Proof.
  intros Hnd Hin. destruct l as [|x l].
  - destruct (proj2 (Hin a) eq_refl).
  - assert (x = a) by (apply Hin; left; reflexivity). subst x.
    destruct l as [|y l]; [reflexivity|].
    assert (y = a) by (apply Hin; right; left; reflexivity). subst y.
    inversion Hnd as [|? ? Hx _]. destruct Hx. left. reflexivity.
Qed.

(** A [mkdir -p] adds nothing below its target. *)
Lemma mkdirp_below (s : fs) (p : path) (n : string) :
  s !! (p ++ [n]) = None ->
  fst (mkdirp (locked env) s p) !! (p ++ [n]) = None.
Proof.
  intros Hn.
  destruct (changesOnly_mkdirFrom (fun _ => False) (locked env) p s [] (p ++ [n]))
    as [[]|[H|[_ H]]].
  - unfold mkdirp. congruence.
  - apply (mkdirFrom_new env) in H. destruct H as [H|[k H]]; [congruence|].
    simpl in H. apply (f_equal (@length string)) in H.
    rewrite !List.length_app in H. simpl in H. lia.
Qed.

(** The queue that holds the file of one [queueCommand] call and nothing
    else, as the consumer sees it through [read]. *)
Lemma queueOf_single (read : Js.str -> option Js.str) (mtime : path -> Z)
    (s : fs) (dir : path) (n : string) (data : Js.str) :
  look s dir = Some Dir ->
  (forall m, is_Some (s !! (dir ++ [m])) <-> m = n) ->
  s !! (dir ++ [n]) = Some (File data) ->
  queueOf read mtime s dir =
  Some [ {| Host.name := n; Host.isFile := true;
            Host.modified := mtime (dir ++ [n]);
            Host.content := read data |} ].
Proof.
  intros Hdir Honly Hn. unfold queueOf.
  destruct (readdir s dir) as [names|] eqn:E.
  2:{ unfold readdir in E. rewrite Hdir in E. discriminate. }
  destruct (readdir_spec s dir names E) as [Hin Hnd].
  assert (names = [n]) as ->.
  { apply singleton_list; [exact Hnd|]. intros m. rewrite Hin. apply Honly. }
  simpl. unfold entryOf, readFile. rewrite look_snoc, Hn. reflexivity.
Qed.

(** The next tick on the queue that holds one job of kind [t], of which
    [File.read()] returns [raw]. *)
Lemma tick_on_single_job (app : Host.App) (e : Host.QEntry) (id : string)
    (t : FileType) (raw : Js.str) :
  Host.name e = (id ++ "." ++ extension t)%string ->
  Host.isFile e = true ->
  Host.content e = Some raw ->
  Js.truthy (Js.stripTrailingWs raw) = true ->
  Host.userBusy app = false ->
  Host.hasProject app = true ->
  Host.allFiles (Some [e]) = [(e, t)] /\
  List.filter Spec.isDispatchCall (snd (Host.rbProcess app (Some [e])))
  = [match t with
     | cmd => Host.EvImportFile (Js.stripTrailingWs raw)
     | jsx => Host.EvEval (Js.stripTrailingWs raw)
     end].
Proof.
  intros Hn Hfile Hcontent Htext Hbusy Hprj.
  assert (Hall : Host.allFiles (Some [e]) = [(e, t)]).
  { unfold Host.allFiles, Host.getFiles. cbn [Host.entries List.filter].
    rewrite !(jobName_matches e id t) by exact Hn.
    destruct t; reflexivity. }
  split; [exact Hall|].
  assert (Hd : Spec.dispatches app (Some [e]) e t (Js.stripTrailingWs raw)).
  { unfold Spec.dispatches. repeat split; try assumption.
    - unfold Host.stopFileExists, Host.present. simpl.
      rewrite Hn. rewrite Bool.orb_false_r. apply String.eqb_neq.
      apply jobName_not_stop.
    - unfold Host.selected. rewrite Hall. reflexivity.
    - exists raw. split; [exact Hcontent | reflexivity]. }
  rewrite (rbProcess_dispatch _ _ _ _ _ Hd).
  assert (Hcall : List.filter Spec.isDispatchCall
                    (snd (Host.dispatch app t (Js.stripTrailingWs raw)))
                  = [match t with
                     | cmd => Host.EvImportFile (Js.stripTrailingWs raw)
                     | jsx => Host.EvEval (Js.stripTrailingWs raw)
                     end]).
  { pose proof (dispatch_call app e t) as Hc.
    unfold HostSpec.callOf, HostSpec.textOf in Hc. cbn [fst snd] in Hc.
    rewrite Hcontent in Hc. exact Hc. }
  destruct (Host.okOf (fst (Host.dispatch app t (Js.stripTrailingWs raw))));
    cbn [fst snd List.app List.filter Spec.isDispatchCall];
    rewrite ?List.filter_app, Hcall; reflexivity.
Qed.

(** [queueCommand] into an empty queue: the queue as the consumer then
    lists it. *)
Lemma queueCommand_then_list (read : Js.str -> option Js.str)
    (content : Js.str) (t : FileType) (d : string)
    (w w' : World) (mtime : path -> Z) :
  queueCommand env content t d w = (Ok true, w') ->
  (forall n, files w !! (getBridgeQueueDir env ++ [n]) = None) ->
  queueOf read mtime (files w') (getBridgeQueueDir env) =
  Some [ {| Host.name := (freshId env (clock w) ++ "." ++ extension t)%string;
            Host.isFile := true;
            Host.modified := mtime (queueFileOf env (clock w) t);
            Host.content := read (Js.toWellFormed content ++ [Js.LF]) |} ].
Proof.
  intros Hrun Hempty.
  destruct (queueCommand_run env content t d w) as [tr E]. cbv zeta in E.
  rewrite Hrun in E.
  pose proof (mkdirp_made env (files w) (getBridgeQueueDir env)
                (queueDir_not_root env)) as Hmade.
  pose proof (fun n => mkdirp_below (files w) (getBridgeQueueDir env) n (Hempty n))
    as Hbelow.
  destruct (mkdirp (locked env) (files w) (getBridgeQueueDir env)) as [s1 made].
  cbn [fst snd] in E, Hmade, Hbelow.
  destruct made; cbn iota in E; [|discriminate].
  destruct (writeFile (locked env) s1 (queueFileOf env (clock w) t)
              (payloadOf content)) as [s2|] eqn:Ew; [|discriminate].
  injection E as ->. cbn [files].
  apply (writeFile_Some env) in Ew. subst s2. unfold queueFileOf.
  set (n := (freshId env (clock w) ++ "." ++ extension t)%string).
  unfold payloadOf. rewrite toWellFormed_LF.
  apply queueOf_single.
  - rewrite look_nonroot by apply queueDir_not_root.
    rewrite lookup_insert_ne; [apply Hmade; reflexivity|].
    intros H. apply (f_equal (@length string)) in H.
    rewrite List.length_app in H. simpl in H. lia.
  - intros m. split.
    + intros Hm. destruct (decide (m = n)) as [->|Hne]; [reflexivity|].
      rewrite lookup_insert_ne in Hm.
      * rewrite Hbelow in Hm. destruct Hm as [x Hx]. discriminate.
      * intros H. apply List.app_inv_head in H. congruence.
    + intros ->. rewrite lookup_insert_eq. eauto.
  - apply lookup_insert_eq.
Qed.

(** [queueCommand] into an empty queue, then one tick of a host whose
    [File.read()] returns [raw] for the queue file. *)
Lemma queueCommand_then_tick (read : Js.str -> option Js.str)
    (content : Js.str) (t : FileType) (d : string)
    (w w' : World) (mtime : path -> Z) (app : Host.App) (raw : Js.str) :
  queueCommand env content t d w = (Ok true, w') ->
  (forall n, files w !! (getBridgeQueueDir env ++ [n]) = None) ->
  read (Js.toWellFormed content ++ [Js.LF]) = Some raw ->
  Js.truthy (Js.stripTrailingWs raw) = true ->
  Host.userBusy app = false ->
  Host.hasProject app = true ->
  exists e,
    queueOf read mtime (files w') (getBridgeQueueDir env) = Some [e] /\
    Host.content e = Some raw /\
    Host.allFiles (Some [e]) = [(e, t)] /\
    List.filter Spec.isDispatchCall (snd (Host.rbProcess app (Some [e])))
    = [match t with
       | cmd => Host.EvImportFile (Js.stripTrailingWs raw)
       | jsx => Host.EvEval (Js.stripTrailingWs raw)
       end].
Proof.
  intros Hrun Hempty Hread Htext Hbusy Hprj.
  eexists. split; [apply (queueCommand_then_list read _ _ _ _ _ mtime Hrun Hempty)|].
  split; [exact Hread|].
  apply (tick_on_single_job app _ (freshId env (clock w)) t raw);
    try assumption; reflexivity.
Qed.

End Handover.

(** X6: a path queued with [queueAudioImport], or a script queued
    with [queueScriptExecution], into an empty (or missing) queue
    directory is the single job of the queue as the consumer lists it,
    of kind ['cmd'] for the path and ['jsx'] for the script. The file
    holds the text queued, as UTF-8 keeps it, and a line feed; when
    [raw], what the host's [File.read()] returns for that file, is not
    blank, the next tick of a host with a project open and no layer
    selected hands [raw] without its trailing white space to the host
    ([prj.importFile] for the path, [eval] for the script). For a host
    that reads the text of the file as it is, that is the text queued,
    as UTF-8 keeps it, less its trailing white space. *)
Theorem queued_job_reaches_host
    (env : Node.Env) (read : Js.str -> option Js.str) (mtime : Node.path -> Z)
    (app : Host.App) (w w' : Node.World) (text name raw : Js.str) :
  (forall n, Node.files w !! (Node.getBridgeQueueDir env ++ [n]) = None) ->
  read (Js.toWellFormed text ++ [Js.LF]) = Some raw ->
  Js.truthy (Js.stripTrailingWs raw) = true ->
  Host.userBusy app = false ->
  Host.hasProject app = true ->
  (Node.queueAudioImport env text w = (Node.Ok true, w') ->
   exists e,
     Disk.queueOf read mtime (Node.files w') (Node.getBridgeQueueDir env)
       = Some [e] /\
     Host.allFiles (Some [e]) = [(e, cmd)] /\
     List.filter Spec.isDispatchCall (snd (Host.rbProcess app (Some [e])))
     = [Host.EvImportFile (Js.stripTrailingWs raw)]) /\
  (Node.queueScriptExecution env text name w = (Node.Ok true, w') ->
   exists e,
     Disk.queueOf read mtime (Node.files w') (Node.getBridgeQueueDir env)
       = Some [e] /\
     Host.allFiles (Some [e]) = [(e, jsx)] /\
     List.filter Spec.isDispatchCall (snd (Host.rbProcess app (Some [e])))
     = [Host.EvEval (Js.stripTrailingWs raw)]) /\
  (raw = Js.toWellFormed text ++ [Js.LF] ->
   Js.stripTrailingWs raw = Js.stripTrailingWs (Js.toWellFormed text)).
Proof.
  intros Hempty Hread Htext Hbusy Hprj. split; [|split].
  - intros Hrun.
    destruct (queueCommand_then_tick env read text cmd
                (Node.label "audio import: " (Node.basename text))
                w w' mtime app raw Hrun Hempty Hread Htext Hbusy Hprj)
      as (e & Hq & _ & Hall & Hcall).
    exists e. auto.
  - intros Hrun.
    destruct (queueCommand_then_tick env read text jsx
                (Node.label "script execution: " name)
                w w' mtime app raw Hrun Hempty Hread Htext Hbusy Hprj)
      as (e & Hq & _ & Hall & Hcall).
    exists e. auto.
  - intros ->. apply stripTrailingWs_app_ws.
    constructor; [reflexivity | constructor].
Qed.

Lemma queued_job_reaches_host_witness :
  exists e,
    Disk.queueOf Some (fun _ => 0)
      (Node.files (snd (Node.queueAudioImport NodeSpec.quietEnv
                          (Js.lit "/tmp/a.wav") NodeSpec.emptyWorld)))
      (Node.getBridgeQueueDir NodeSpec.quietEnv) = Some [e] /\
    List.filter Spec.isDispatchCall
      (snd (Host.rbProcess Spec.idleApp (Some [e])))
    = [Host.EvImportFile (Js.lit "/tmp/a.wav")].
Proof.
  destruct (proj1 (queued_job_reaches_host NodeSpec.quietEnv Some (fun _ => 0)
              Spec.idleApp NodeSpec.emptyWorld
              (snd (Node.queueAudioImport NodeSpec.quietEnv
                      (Js.lit "/tmp/a.wav") NodeSpec.emptyWorld))
              (Js.lit "/tmp/a.wav") []
              (Js.lit "/tmp/a.wav" ++ [Js.LF])
              (fun n => lookup_empty _) eq_refl eq_refl eq_refl eq_refl))
    as (e & Hq & _ & Hcall).
  - vm_compute. reflexivity.
  - exists e. split; assumption.
Defined.

(** *** C1: what the host receives of a queued command *)

(** C1 (as stated, refuted): [queueCommand] is given the path ["a "],
    which ends in a space, and writes ["a \n"] to the queue file. The
    host reads the text of the file as it is; the consumer strips it to
    ["a"], and that is what the next tick hands to [importFile]: not the
    command that was submitted. *)
Lemma C1_round_trip_fails_on_trailing_space :
  let w' := snd (Node.queueCommand NodeSpec.quietEnv (Js.lit "a ") cmd
                   "audio import: a " NodeSpec.emptyWorld) in
  let q := Disk.queueOf Some (fun _ => 0) (Node.files w')
             (Node.getBridgeQueueDir NodeSpec.quietEnv) in
  fst (Node.queueCommand NodeSpec.quietEnv (Js.lit "a ") cmd
         "audio import: a " NodeSpec.emptyWorld) = Node.Ok true /\
  List.map Host.content (Host.entries q) = [Some (Js.lit "a " ++ [Js.LF])] /\
  List.filter Spec.isDispatchCall (snd (Host.rbProcess Spec.idleApp q))
  = [Host.EvImportFile (Js.lit "a")] /\
  Js.lit "a" <> Js.lit "a ".
Proof. vm_compute. repeat split; discriminate. Qed.

(** C1 (amended): [queueCommand] writes the content and a line feed in
    UTF-8, so that the queue file holds the content with U+FFFD in the
    place of each lone surrogate. The consumer hands to the host
    ([importFile] for a path, [eval] for a script) what [File.read()]
    returns for the file, less all its trailing white space. With a host
    that reads the text of the file as it is, a queue that held nothing
    else and a content that is not blank, the host therefore receives
    the content as UTF-8 keeps it without its trailing white space; that
    is the content itself exactly when the content has no lone surrogate
    and does not end in a white-space character (control characters and
    white space elsewhere are kept). *)
Theorem C1_round_trip
    (env : Node.Env) (read : Js.str -> option Js.str) (mtime : Node.path -> Z)
    (app : Host.App) (content : Js.str) (t : FileType) (d : string)
    (w w' : Node.World) :
  Node.queueCommand env content t d w = (Node.Ok true, w') ->
  (forall n, Node.files w !! (Node.getBridgeQueueDir env ++ [n]) = None) ->
  read (Js.toWellFormed content ++ [Js.LF])
    = Some (Js.toWellFormed content ++ [Js.LF]) ->
  Js.truthy (Js.stripTrailingWs (Js.toWellFormed content)) = true ->
  Host.userBusy app = false ->
  Host.hasProject app = true ->
  exists e got,
    Node.files w' !! NodeSpec.queueFileOf env (Node.clock w) t
      = Some (Node.File (Js.toWellFormed content ++ [Js.LF])) /\
    Disk.queueOf read mtime (Node.files w') (Node.getBridgeQueueDir env)
      = Some [e] /\
    List.filter Spec.isDispatchCall (snd (Host.rbProcess app (Some [e])))
      = [match t with
         | cmd => Host.EvImportFile got
         | jsx => Host.EvEval got
         end] /\
    got = Js.stripTrailingWs (Js.toWellFormed content) /\
    (got = content <->
     Js.isWellFormed content = true /\ Js.endsInWs content = false).
Proof.
  intros Hrun Hempty Hread Htext Hbusy Hprj.
  assert (Hstrip : Js.stripTrailingWs (Js.toWellFormed content ++ [Js.LF])
                   = Js.stripTrailingWs (Js.toWellFormed content)).
  { apply stripTrailingWs_app_ws. constructor; [reflexivity | constructor]. }
  destruct (queueCommand_then_tick env read content t d w w' mtime app
              (Js.toWellFormed content ++ [Js.LF]) Hrun Hempty Hread)
    as (e & Hq & Hc & _ & Hcall); try assumption.
  { rewrite Hstrip. exact Htext. }
  exists e, (Js.stripTrailingWs (Js.toWellFormed content)).
  split; [|split; [exact Hq | split; [|split; [reflexivity|]]]].
  - destruct (queueCommand_run env content t d w) as [tr E]. cbv zeta in E.
    rewrite Hrun in E.
    destruct (Node.mkdirp (Node.locked env) (Node.files w)
                (Node.getBridgeQueueDir env)) as [s1 made].
    cbn [fst snd] in E. destruct made; cbn iota in E; [|discriminate].
    destruct (Node.writeFile (Node.locked env) s1
                (NodeSpec.queueFileOf env (Node.clock w) t)
                (Node.payloadOf content)) as [s2|] eqn:Ew; [|discriminate].
    injection E as ->. cbn [Node.files].
    apply (writeFile_Some env) in Ew. subst s2.
    unfold Node.payloadOf. rewrite toWellFormed_LF. apply lookup_insert_eq.
  - rewrite Hcall, Hstrip. reflexivity.
  - apply strip_toWellFormed_fixed.
Qed.

Lemma C1_round_trip_witness :
  exists e,
    Disk.queueOf Some (fun _ => 0)
      (Node.files (snd (Node.queueCommand NodeSpec.quietEnv
                          (Js.lit "/tmp/my file.wav") cmd "audio import: my file.wav"
                          NodeSpec.emptyWorld)))
      (Node.getBridgeQueueDir NodeSpec.quietEnv) = Some [e] /\
    List.filter Spec.isDispatchCall (snd (Host.rbProcess Spec.idleApp (Some [e])))
    = [Host.EvImportFile (Js.lit "/tmp/my file.wav")].
Proof.
  destruct (C1_round_trip NodeSpec.quietEnv Some (fun _ => 0) Spec.idleApp
              (Js.lit "/tmp/my file.wav") cmd "audio import: my file.wav"
              NodeSpec.emptyWorld
              (snd (Node.queueCommand NodeSpec.quietEnv
                      (Js.lit "/tmp/my file.wav") cmd "audio import: my file.wav"
                      NodeSpec.emptyWorld)))
    as (e & got & _ & Hq & Hcall & Hgot & _).
  - vm_compute. reflexivity.
  - intros n. apply lookup_empty.
  - reflexivity.
  - reflexivity.
  - reflexivity.
  - reflexivity.
  - exists e. split; [exact Hq|]. rewrite Hcall, Hgot. reflexivity.
Defined.

(** *** Writes that succeed *)

Lemma canWrite_writeFile (locked : Node.path -> bool) (s : Node.fs)
    (p : Node.path) (data : Js.str) :
  Disk.canWrite locked s p = true ->
  Node.writeFile locked s p data = Some (<[p := Node.File (Js.toWellFormed data)]> s).
Proof.
  unfold Disk.canWrite, Node.writeFile.
  destruct (Node.look s p) as [[|d]|]; try discriminate.
  - reflexivity.
  - intros ->. reflexivity.
Qed.

Lemma canWrite_false (locked : Node.path -> bool) (s : Node.fs)
    (p : Node.path) (data : Js.str) :
  Disk.canWrite locked s p = false -> Node.writeFile locked s p data = None.
Proof.
  unfold Disk.canWrite, Node.writeFile.
  destruct (Node.look s p) as [[|d]|]; try discriminate.
  - reflexivity.
  - intros ->. reflexivity.
Qed.

(** *** The direct invocation on the disk *)

Section DirectRuns.

Import Node NodeSpec Disk.
Local Open Scope js_scope.

Variable env : Env.

Lemma tryIgnore_unlink_run (p : path) (w : World) :
  tryIgnore (unlinkSync p) w =
  (Ok tt, {| files := afterHandler p (files w); clock := clock w;
             trace := trace w ++ [EUnlink p] |}).
Proof.
  unfold tryIgnore, tryCatch. rewrite unlinkSync_run. unfold afterHandler.
  destruct (unlink (files w) p); reflexivity.
Qed.

(** [runOnDemand] does to the disk what [directOutcome] says, and ends
    the same way. *)
Lemma runOnDemand_outcome (cmd : OnDemandCommand) (w : World) :
  probeSaysRunning env = true ->
  exists tr,
    runOnDemand env cmd w =
    (fst (directOutcome env cmd (clock w) (files w)),
     {| files := snd (directOutcome env cmd (clock w) (files w));
        clock := clock w; trace := tr |}).
Proof.
  intros Hup. rewrite (runOnDemand_running env cmd w Hup).
  unfold directOutcome, jobsDirOf, cmdPathOf, jobsDirOf.
  unfold bind at 1. rewrite mkdirSync_run. cbn [files clock trace logged].
  destruct (mkdirp (locked env) (files w) _) as [s1 made1]. cbn [fst snd].
  destruct made1; cbn [negb]; [|eexists; reflexivity].
  unfold bind at 1. rewrite mkdirSync_run. cbn [files clock trace].
  destruct (mkdirp (locked env) s1 _) as [s2 made2]. cbn [fst snd].
  destruct made2; cbn [negb]; [|eexists; reflexivity].
  unfold directInvocation.
  destruct cmd as [p rac|code|p]; cbn [action scriptOf]; simpl negb; cbv iota;
    unfold tryCatch, bind, ret, throw.
  - rewrite writeFileSync_run. cbn [files clock trace].
    destruct (writeFile (locked env) s2 _ _) as [s3|].
    + rewrite runOsascript_run.
      destruct (osascript env (DoScriptFile _)) as [|c out].
      * rewrite tryIgnore_unlink_run. eexists. reflexivity.
      * destruct (c =? 0); rewrite tryIgnore_unlink_run; eexists; reflexivity.
    + rewrite tryIgnore_unlink_run. eexists. reflexivity.
  - rewrite writeFileSync_run. cbn [files clock trace].
    destruct (writeFile (locked env) s2 _ _) as [s3|].
    + rewrite runOsascript_run.
      destruct (osascript env (DoScriptFile _)) as [|c out].
      * rewrite tryIgnore_unlink_run. eexists. reflexivity.
      * destruct (c =? 0); rewrite tryIgnore_unlink_run; eexists; reflexivity.
    + rewrite tryIgnore_unlink_run. eexists. reflexivity.
  - rewrite runOsascript_run.
    destruct (osascript env (DoScriptFile p)) as [|c out].
    + rewrite tryIgnore_unlink_run. eexists. reflexivity.
    + destruct (c =? 0); [eexists; reflexivity|].
      rewrite tryIgnore_unlink_run. eexists. reflexivity.
Qed.

End DirectRuns.

(** *** C10: the fast path covers every command *)

(** Every call of a list of calls of the direct invocation is one. *)
Ltac direct_calls :=
  repeat (apply List.Forall_cons || apply List.Forall_nil);
  cbn [NodeSpec.directEffect]; auto.

(** C10: for each of the three commands the test guarding the fast path
    holds, so with the host running [runOnDemand] runs the direct
    invocation. Its calls are the process query, the two directories, the
    write of the throw-away script (for a script text or an import),
    then the automation call on the script, and a removal: of the
    throw-away script after a call that ended with code 0, in which case
    the result is
    [{ok: true, result: {requestId, operation: "direct", elapsedMs: 0}}],
    of the descriptor path otherwise, the error of the call being raised.
    Only when a directory or the script cannot be written does it stop
    before the automation call, with the error of the file system. None
    of its calls is one of the queued invocation: no inbox command or job
    descriptor is written, nothing is renamed, the listener is not
    triggered, no artifact is read and no timer is waited on. *)
Theorem C10_always_direct
    (env : Node.Env) (cmd : Node.OnDemandCommand) (w : Node.World) :
  NodeSpec.probeSaysRunning env = true ->
  let t := Node.clock w in
  let run := Node.runOnDemand env cmd w in
  let call := Node.ESpawn (Node.DoScriptFile (Disk.jsxPathOf env t cmd)) in
  (String.eqb (Node.action cmd) "run_jsx_text"
   || String.eqb (Node.action cmd) "run_jsx_file"
   || String.eqb (Node.action cmd) "import_audio" = true) /\
  exists new,
    Node.trace (snd run) = Node.trace w ++ new /\
    Forall (NodeSpec.directEffect env t) new /\
    Forall (fun e => ~ NodeSpec.queuedEffect env t e) new /\
    (Disk.canPrepare env cmd t (Node.files w) = false ->
       (exists sc p, fst run = Node.Throw (Node.FsError sc p)) /\
       ~ In call new) /\
    (Disk.canPrepare env cmd t (Node.files w) = true ->
       exists tail,
         new = Disk.directPrefix env t cmd ++ call :: tail /\
         match Node.osascript env (Node.DoScriptFile (Disk.jsxPathOf env t cmd)) with
         | Node.Closed code _ =>
             if code =? 0
             then fst run = Node.Ok (NodeSpec.directResult env t) /\
                  tail = Disk.directCleanup env t cmd
             else fst run = Node.Throw Node.AppleScriptFailed /\
                  tail = [Node.EUnlink (NodeSpec.cmdPathOf env t)]
         | Node.SpawnError =>
             fst run = Node.Throw Node.SpawnFailed /\
             tail = [Node.EUnlink (NodeSpec.cmdPathOf env t)]
         end).
Proof.
  intros Hup. cbv zeta. split; [apply fast_path_test|].
  assert (H : exists new,
    Node.trace (snd (Node.runOnDemand env cmd w)) = Node.trace w ++ new /\
    Forall (NodeSpec.directEffect env (Node.clock w)) new /\
    (Disk.canPrepare env cmd (Node.clock w) (Node.files w) = false ->
       (exists sc p, fst (Node.runOnDemand env cmd w)
                     = Node.Throw (Node.FsError sc p)) /\
       ~ In (Node.ESpawn (Node.DoScriptFile
                            (Disk.jsxPathOf env (Node.clock w) cmd))) new) /\
    (Disk.canPrepare env cmd (Node.clock w) (Node.files w) = true ->
       exists tail,
         new = Disk.directPrefix env (Node.clock w) cmd
               ++ Node.ESpawn (Node.DoScriptFile
                                 (Disk.jsxPathOf env (Node.clock w) cmd)) :: tail /\
         match Node.osascript env
                 (Node.DoScriptFile (Disk.jsxPathOf env (Node.clock w) cmd)) with
         | Node.Closed code _ =>
             if code =? 0
             then fst (Node.runOnDemand env cmd w)
                  = Node.Ok (NodeSpec.directResult env (Node.clock w)) /\
                  tail = Disk.directCleanup env (Node.clock w) cmd
             else fst (Node.runOnDemand env cmd w)
                  = Node.Throw Node.AppleScriptFailed /\
                  tail = [Node.EUnlink (NodeSpec.cmdPathOf env (Node.clock w))]
         | Node.SpawnError =>
             fst (Node.runOnDemand env cmd w) = Node.Throw Node.SpawnFailed /\
             tail = [Node.EUnlink (NodeSpec.cmdPathOf env (Node.clock w))]
         end)).
  { destruct (Node.runOnDemand env cmd w) as [r w'] eqn:E. cbn [fst snd].
    rewrite (runOnDemand_running env cmd w Hup) in E.
    unfold Disk.canPrepare, Disk.directPrefix, Disk.directCleanup.
    unfold Node.bind at 1 in E. rewrite mkdirSync_run in E.
    cbn [Node.files Node.clock Node.trace NodeSpec.logged] in E.
    destruct (Node.mkdirp (Node.locked env) (Node.files w) _) as [s1 made1].
    cbn [fst snd] in E.
    destruct made1.
    2:{ injection E as <- <-.
        destruct (Node.mkdirp (Node.locked env) s1 _) as [s2 made2].
        cbn [andb]. eexists.
        split; [cbn [Node.trace]; rewrite <- List.app_assoc; reflexivity|].
        split; [direct_calls|].
        split; [|discriminate].
        intros _. split; [eauto|].
        intros [H|[H|[]]]; discriminate. }
    unfold Node.bind at 1 in E. rewrite mkdirSync_run in E.
    cbn [Node.files Node.clock Node.trace] in E.
    destruct (Node.mkdirp (Node.locked env) s1 _) as [s2 made2].
    cbn [fst snd andb] in E |- *.
    destruct made2.
    2:{ injection E as <- <-. eexists.
        split; [cbn [Node.trace]; rewrite <- !List.app_assoc; reflexivity|].
        split; [direct_calls|].
        split; [|discriminate].
        intros _. split; [eauto|].
        intros [H|[H|[H|[]]]]; discriminate. }
    unfold Node.directInvocation in E.
    change (NodeSpec.jobsDirOf env
            ++ [("rb_" ++ Node.freshId env (Node.clock w) ++ "_direct.jsx")%string])
      with (NodeSpec.directPathOf env (Node.clock w)) in E.
    destruct cmd as [p rac|code|p];
      cbn [Node.action Disk.scriptOf Disk.jsxPathOf] in E |- *;
      simpl negb in E; cbv iota in E;
      unfold Node.tryCatch, Node.bind, Node.ret, Node.throw in E.
    - rewrite writeFileSync_run in E.
      cbn [Node.files Node.clock Node.trace] in E.
      destruct (Disk.canWrite (Node.locked env) s2
                  (NodeSpec.directPathOf env (Node.clock w))) eqn:Ew.
      + rewrite (canWrite_writeFile _ _ _ _ Ew) in E.
        rewrite runOsascript_run in E.
        destruct (Node.osascript env
                    (Node.DoScriptFile (NodeSpec.directPathOf env (Node.clock w))))
          as [|c out].
        * rewrite tryIgnore_unlink_run in E. injection E as <- <-. eexists.
          split; [cbn [Node.trace NodeSpec.logged]; rewrite <- !List.app_assoc;
                  reflexivity|].
          split; [direct_calls|].
          split; [discriminate|].
          intros _. eexists. split; [reflexivity | split; reflexivity].
        * destruct (c =? 0).
          -- rewrite tryIgnore_unlink_run in E. injection E as <- <-. eexists.
             split; [cbn [Node.trace NodeSpec.logged]; rewrite <- !List.app_assoc;
                     reflexivity|].
             split; [direct_calls|].
             split; [discriminate|].
             intros _. eexists. split; [reflexivity | split; reflexivity].
          -- rewrite tryIgnore_unlink_run in E. injection E as <- <-. eexists.
             split; [cbn [Node.trace NodeSpec.logged]; rewrite <- !List.app_assoc;
                     reflexivity|].
             split; [direct_calls|].
             split; [discriminate|].
             intros _. eexists. split; [reflexivity | split; reflexivity].
      + rewrite (canWrite_false _ _ _ _ Ew) in E.
        rewrite tryIgnore_unlink_run in E. injection E as <- <-. eexists.
        split; [cbn [Node.trace NodeSpec.logged]; rewrite <- !List.app_assoc;
                reflexivity|].
        split; [direct_calls|].
        split; [|discriminate].
        intros _. split; [eauto|].
        intros [H|[H|[H|[H|[H|[]]]]]]; discriminate.
    - rewrite writeFileSync_run in E.
      cbn [Node.files Node.clock Node.trace] in E.
      destruct (Disk.canWrite (Node.locked env) s2
                  (NodeSpec.directPathOf env (Node.clock w))) eqn:Ew.
      + rewrite (canWrite_writeFile _ _ _ _ Ew) in E.
        rewrite runOsascript_run in E.
        destruct (Node.osascript env
                    (Node.DoScriptFile (NodeSpec.directPathOf env (Node.clock w))))
          as [|c out].
        * rewrite tryIgnore_unlink_run in E. injection E as <- <-. eexists.
          split; [cbn [Node.trace NodeSpec.logged]; rewrite <- !List.app_assoc;
                  reflexivity|].
          split; [direct_calls|].
          split; [discriminate|].
          intros _. eexists. split; [reflexivity | split; reflexivity].
        * destruct (c =? 0).
          -- rewrite tryIgnore_unlink_run in E. injection E as <- <-. eexists.
             split; [cbn [Node.trace NodeSpec.logged]; rewrite <- !List.app_assoc;
                     reflexivity|].
             split; [direct_calls|].
             split; [discriminate|].
             intros _. eexists. split; [reflexivity | split; reflexivity].
          -- rewrite tryIgnore_unlink_run in E. injection E as <- <-. eexists.
             split; [cbn [Node.trace NodeSpec.logged]; rewrite <- !List.app_assoc;
                     reflexivity|].
             split; [direct_calls|].
             split; [discriminate|].
             intros _. eexists. split; [reflexivity | split; reflexivity].
      + rewrite (canWrite_false _ _ _ _ Ew) in E.
        rewrite tryIgnore_unlink_run in E. injection E as <- <-. eexists.
        split; [cbn [Node.trace NodeSpec.logged]; rewrite <- !List.app_assoc;
                reflexivity|].
        split; [direct_calls|].
        split; [|discriminate].
        intros _. split; [eauto|].
        intros [H|[H|[H|[H|[H|[]]]]]]; discriminate.
    - rewrite runOsascript_run in E.
      destruct (Node.osascript env (Node.DoScriptFile p)) as [|c out].
      + rewrite tryIgnore_unlink_run in E. injection E as <- <-. eexists.
        split; [cbn [Node.trace NodeSpec.logged]; rewrite <- !List.app_assoc;
                reflexivity|].
        split; [direct_calls|].
        split; [discriminate|].
        intros _. eexists. split; [reflexivity | split; reflexivity].
      + destruct (c =? 0).
        * injection E as <- <-. eexists.
          split; [cbn [Node.trace NodeSpec.logged]; rewrite <- !List.app_assoc;
                  reflexivity|].
          split; [direct_calls|].
          split; [discriminate|].
          intros _. eexists. split; [reflexivity | split; reflexivity].
        * rewrite tryIgnore_unlink_run in E. injection E as <- <-. eexists.
          split; [cbn [Node.trace NodeSpec.logged]; rewrite <- !List.app_assoc;
                  reflexivity|].
          split; [direct_calls|].
          split; [discriminate|].
          intros _. eexists. split; [reflexivity | split; reflexivity]. }
  destruct H as (new & T & F & Hno & Hyes).
  exists new. split; [exact T|]. split; [exact F|]. split; [|split; assumption].
  eapply Forall_impl; [exact F|]. intros e. apply directEffect_not_queued.
Qed.

(** An import with the host running, on an empty disk on which anything
    can be created: the result of the direct execution, and the calls
    made. *)
Lemma C10_always_direct_witness :
  let run := Node.runOnDemand NodeSpec.quietEnv
               (Node.import_audio (Js.lit "/tmp/a.wav") (Some true))
               NodeSpec.emptyWorld in
  fst run = Node.Ok (NodeSpec.directResult NodeSpec.quietEnv 0) /\
  Node.trace (snd run)
  = [ Node.ESpawn Node.ProbeProcess;
      Node.EMkdir ["Users"; "me"; "Library"; "Application Support";
                   "raycast-ae-bridge"]%string;
      Node.EMkdir (NodeSpec.jobsDirOf NodeSpec.quietEnv);
      Node.EWrite (NodeSpec.directPathOf NodeSpec.quietEnv 0)
        (Js.lit "import('/tmp/a.wav')");
      Node.ESpawn (Node.DoScriptFile (NodeSpec.directPathOf NodeSpec.quietEnv 0));
      Node.EUnlink (NodeSpec.directPathOf NodeSpec.quietEnv 0) ].
Proof.
  cbv zeta.
  destruct (C10_always_direct NodeSpec.quietEnv
              (Node.import_audio (Js.lit "/tmp/a.wav") (Some true))
              NodeSpec.emptyWorld eq_refl)
    as (_ & new & T & _ & _ & _ & Hyes).
  assert (Hc : Disk.canPrepare NodeSpec.quietEnv
                 (Node.import_audio (Js.lit "/tmp/a.wav") (Some true))
                 (Node.clock NodeSpec.emptyWorld)
                 (Node.files NodeSpec.emptyWorld) = true)
    by (vm_compute; reflexivity).
  destruct (Hyes Hc) as (tail & Hnew & Hres).
  cbn [Node.osascript NodeSpec.quietEnv Disk.jsxPathOf Z.eqb] in Hres.
  destruct Hres as [Hr Ht]. split; [exact Hr|].
  rewrite T, Hnew, Ht. reflexivity.
Defined.


Section DirectFacts.

Import Node NodeSpec Disk.
Local Open Scope js_scope.

Variable env : Env.

Lemma runOnDemand_down (cmd : OnDemandCommand) (w : World) :
  probeSaysRunning env = false ->
  runOnDemand env cmd w = (Throw NotRunning, logged w [ESpawn ProbeProcess]).
Proof.
  intros Hdown. unfold runOnDemand, bind. rewrite isAERunning_run, Hdown.
  reflexivity.
Qed.

Lemma changesOnly_afterHandler (own : path -> Prop) (p : path) (s : fs) :
  own p -> changesOnly own s (afterHandler p s).
Proof.
  intros Hp. unfold afterHandler. destruct (unlink s p) as [s'|] eqn:E.
  - eapply changesOnly_unlink; eassumption.
  - apply changesOnly_refl.
Qed.

Lemma changesOnly_mkdirp (own : path -> Prop) (s : fs) (p : path) :
  changesOnly own s (fst (mkdirp (locked env) s p)).
Proof. apply changesOnly_mkdirFrom. Qed.

Lemma directOutcome_frame (cmd : OnDemandCommand) (t : Z) (s : fs) :
  changesOnly (requestFile env t) s (snd (directOutcome env cmd t s)).
Proof.
  unfold directOutcome.
  fold (jobsDirOf env). fold (directPathOf env t). fold (cmdPathOf env t).
  pose proof (changesOnly_mkdirp (requestFile env t) s
    (HOME env ++ ["Library"; "Application Support"; "raycast-ae-bridge"]%string)) as H1.
  destruct (mkdirp (locked env) s _) as [s1 made1]. cbn [fst] in H1.
  destruct made1; cbn [negb]; [|exact H1].
  pose proof (changesOnly_mkdirp (requestFile env t) s1 (jobsDirOf env)) as H2.
  destruct (mkdirp (locked env) s1 _) as [s2 made2]. cbn [fst] in H2.
  assert (H12 : changesOnly (requestFile env t) s s2) by (eapply changesOnly_trans; eassumption).
  destruct made2; cbn [negb]; [|exact H12].
  assert (Hcmd : changesOnly (requestFile env t) s (afterHandler (cmdPathOf env t) s2)).
  { eapply changesOnly_trans; [exact H12|].
    apply changesOnly_afterHandler. right. reflexivity. }
  assert (Hw : forall code,
             changesOnly (requestFile env t) s
               (snd match writeFile (locked env) s2 (directPathOf env t) code with
                    | Some s3 =>
                        match osascript env (DoScriptFile (directPathOf env t)) with
                        | Closed c _ =>
                            if c =? 0
                            then (Ok (directResult env t),
                                  afterHandler (directPathOf env t) s3)
                            else (Throw AppleScriptFailed,
                                  afterHandler (cmdPathOf env t) s3)
                        | SpawnError => (Throw SpawnFailed,
                                         afterHandler (cmdPathOf env t) s3)
                        end
                    | None => (Throw (FsError "open" (directPathOf env t)),
                               afterHandler (cmdPathOf env t) s2)
                    end)).
  { intros code.
    destruct (writeFile (locked env) s2 (directPathOf env t) code) as [s3|] eqn:Ew;
      [|exact Hcmd].
    assert (H3 : changesOnly (requestFile env t) s s3).
    { eapply changesOnly_trans; [exact H12|].
      eapply changesOnly_writeFile; [|exact Ew]. left. reflexivity. }
    destruct (osascript env (DoScriptFile (directPathOf env t))) as [|c out];
      [|destruct (c =? 0)]; cbn [snd];
      (eapply changesOnly_trans; [exact H3|]);
      apply changesOnly_afterHandler; (left; reflexivity) || (right; reflexivity). }
  destruct cmd as [p rac|code|p].
  - apply Hw.
  - apply Hw.
  - destruct (osascript env (DoScriptFile p)) as [|c out];
      [|destruct (c =? 0)]; cbn [snd]; assumption.
Qed.

Lemma directOutcome_errors (cmd : OnDemandCommand) (t : Z) (s : fs) (e : Exn) :
  fst (directOutcome env cmd t s) = Throw e ->
  e = AppleScriptFailed \/ e = SpawnFailed \/
  (exists p, e = FsError "mkdir" p) \/
  e = FsError "open" (directPathOf env t).
Proof.
  unfold directOutcome.
  fold (jobsDirOf env). fold (directPathOf env t). fold (cmdPathOf env t).
  destruct (mkdirp (locked env) s _) as [s1 made1].
  destruct made1; cbn [negb]; [|intros [= <-]; eauto 6].
  destruct (mkdirp (locked env) s1 _) as [s2 made2].
  destruct made2; cbn [negb]; [|intros [= <-]; eauto 6].
  destruct cmd as [p rac|code|p];
    repeat match goal with
           | |- context [writeFile ?l ?s ?p ?d] => destruct (writeFile l s p d)
           | |- context [osascript env ?x] => destruct (osascript env x) as [|c out]
           | |- context [?c =? 0] => destruct (c =? 0)
           end;
    cbn [fst]; intros [= <-]; auto.
Qed.

End DirectFacts.

(** X7: however it ends, [runOnDemand] leaves the clock alone and
    changes nothing on the disk outside its two job files
    ([rb_<id>_direct.jsx] and [rb_<id>.json] in the jobs directory),
    except for the directories it creates: every file and directory that
    was there is still there, unchanged, and no other file appears. In
    particular the script given to [run_jsx_file] is left as it is. *)
Theorem runOnDemand_changes_only_its_job_files
    (env : Node.Env) (cmd : Node.OnDemandCommand) (w : Node.World) :
  Node.clock (snd (Node.runOnDemand env cmd w)) = Node.clock w /\
  Disk.changesOnly (Disk.requestFile env (Node.clock w))
    (Node.files w) (Node.files (snd (Node.runOnDemand env cmd w))).
Proof.
  destruct (NodeSpec.probeSaysRunning env) eqn:Hup.
  - destruct (runOnDemand_outcome env cmd w Hup) as [tr E]. rewrite E.
    split; [reflexivity | apply directOutcome_frame].
  - rewrite (runOnDemand_down env cmd w Hup).
    split; [reflexivity | apply changesOnly_refl].
Qed.

(** X8: the only errors [runOnDemand] raises are the error for a
    host that is not running, the failure of the automation call (a
    non-zero exit code, or the process failing to start), and the error
    of a [mkdirSync] or of the write of the throw-away script. It never
    raises the time-out, nor an error about the artifact or its JSON. *)
Theorem runOnDemand_never_times_out
    (env : Node.Env) (cmd : Node.OnDemandCommand) (w : Node.World) (e : Node.Exn) :
  fst (Node.runOnDemand env cmd w) = Node.Throw e ->
  e = Node.NotRunning \/ e = Node.AppleScriptFailed \/ e = Node.SpawnFailed \/
  (exists p, e = Node.FsError "mkdir" p) \/
  e = Node.FsError "open" (NodeSpec.directPathOf env (Node.clock w)).
Proof.
  destruct (NodeSpec.probeSaysRunning env) eqn:Hup.
  - destruct (runOnDemand_outcome env cmd w Hup) as [tr E]. rewrite E.
    cbn [fst]. intros H. right. apply (directOutcome_errors env cmd _ _ e H).
  - rewrite (runOnDemand_down env cmd w Hup). intros [= <-]. left. reflexivity.
Qed.

Lemma runOnDemand_never_times_out_witness :
  Node.NotRunning = Node.NotRunning \/
  Node.NotRunning = Node.AppleScriptFailed \/
  Node.NotRunning = Node.SpawnFailed \/
  (exists p, Node.NotRunning = Node.FsError "mkdir" p) \/
  Node.NotRunning = Node.FsError "open" (NodeSpec.directPathOf NodeSpec.hostDownEnv 0).
Proof.
  apply (runOnDemand_never_times_out NodeSpec.hostDownEnv
           (Node.run_jsx_text (Js.lit "alert(1)")) NodeSpec.emptyWorld).
  reflexivity.
Defined.

Section DirectEnds.

Import Node NodeSpec Disk.

Variable env : Env.

Lemma afterHandler_gone (p : path) (s : fs) (data : Js.str) :
  p <> [] -> afterHandler p (<[p := File data]> s) !! p = None.
Proof.
  intros Hp. unfold afterHandler, unlink. rewrite look_nonroot by exact Hp.
  rewrite lookup_insert_eq. apply lookup_delete_eq.
Qed.

Lemma afterHandler_other (p q : path) (s : fs) :
  p <> q -> afterHandler p s !! q = s !! q.
Proof.
  intros Hne. unfold afterHandler, unlink.
  destruct (look s p) as [[|d]|]; try reflexivity.
  apply lookup_delete_ne. exact Hne.
Qed.

Lemma directPath_not_root (t : Z) : directPathOf env t <> [].
Proof. unfold directPathOf. intros H. apply List.app_eq_nil in H. destruct H; discriminate. Qed.

Lemma jobsDir_not_root : jobsDirOf env <> [].
Proof. unfold jobsDirOf. intros H. apply List.app_eq_nil in H. destruct H; discriminate. Qed.

Lemma jobsDir_not_jobFile (t : Z) :
  jobsDirOf env <> directPathOf env t /\ jobsDirOf env <> cmdPathOf env t.
Proof.
  unfold directPathOf, cmdPathOf.
  split; intros H; apply (f_equal (@length string)) in H;
    rewrite List.length_app in H; simpl in H; lia.
Qed.

(** How the run ends when the host is running and the run returns. *)
Lemma directOutcome_ok (cmd : OnDemandCommand) (t : Z) (s : fs) (r : OnDemandResult) :
  fst (directOutcome env cmd t s) = Ok r ->
  r = directResult env t /\
  snd (directOutcome env cmd t s) !! jobsDirOf env = Some Dir /\
  (forall code, scriptOf env cmd = Some code ->
     snd (directOutcome env cmd t s) !! directPathOf env t = None) /\
  changesOnly (eq (directPathOf env t)) s (snd (directOutcome env cmd t s)).
Proof.
  unfold directOutcome.
  fold (jobsDirOf env). fold (directPathOf env t). fold (cmdPathOf env t).
  fold (directResult env t).
  pose proof (changesOnly_mkdirp env (eq (directPathOf env t)) s
    (HOME env ++ ["Library"; "Application Support"; "raycast-ae-bridge"]%string)) as H1.
  destruct (mkdirp (locked env) s _) as [s1 made1]. cbn [fst] in H1.
  destruct made1; cbn [negb]; [|discriminate].
  pose proof (changesOnly_mkdirp env (eq (directPathOf env t)) s1 (jobsDirOf env)) as H2.
  pose proof (mkdirp_made env s1 (jobsDirOf env) jobsDir_not_root) as Hj.
  destruct (mkdirp (locked env) s1 _) as [s2 made2]. cbn [fst snd] in H2, Hj.
  assert (H12 : changesOnly (eq (directPathOf env t)) s s2)
    by (eapply changesOnly_trans; eassumption).
  destruct made2; cbn [negb]; [|discriminate]. specialize (Hj eq_refl).
  assert (Hw : forall code,
    fst match writeFile (locked env) s2 (directPathOf env t) code with
        | Some s3 =>
            match osascript env (DoScriptFile (directPathOf env t)) with
            | Closed c _ =>
                if c =? 0
                then (Ok (directResult env t), afterHandler (directPathOf env t) s3)
                else (Throw AppleScriptFailed, afterHandler (cmdPathOf env t) s3)
            | SpawnError => (Throw SpawnFailed, afterHandler (cmdPathOf env t) s3)
            end
        | None => (Throw (FsError "open" (directPathOf env t)),
                   afterHandler (cmdPathOf env t) s2)
        end = Ok r ->
    r = directResult env t /\
    snd match writeFile (locked env) s2 (directPathOf env t) code with
        | Some s3 =>
            match osascript env (DoScriptFile (directPathOf env t)) with
            | Closed c _ =>
                if c =? 0
                then (Ok (directResult env t), afterHandler (directPathOf env t) s3)
                else (Throw AppleScriptFailed, afterHandler (cmdPathOf env t) s3)
            | SpawnError => (Throw SpawnFailed, afterHandler (cmdPathOf env t) s3)
            end
        | None => (Throw (FsError "open" (directPathOf env t)),
                   afterHandler (cmdPathOf env t) s2)
        end = afterHandler (directPathOf env t)
                (<[directPathOf env t := File (Js.toWellFormed code)]> s2)).
  { intros code.
    destruct (writeFile (locked env) s2 (directPathOf env t) code) as [s3|] eqn:Ew;
      [|discriminate].
    apply (writeFile_Some env) in Ew. subst s3.
    destruct (osascript env (DoScriptFile (directPathOf env t))) as [|c out];
      [discriminate|].
    destruct (c =? 0); [|discriminate]. cbn [fst snd]. intros [= <-]. auto. }
  assert (Hdone : forall code,
    afterHandler (directPathOf env t) (<[directPathOf env t := File (Js.toWellFormed code)]> s2)
      !! jobsDirOf env = Some Dir /\
    afterHandler (directPathOf env t) (<[directPathOf env t := File (Js.toWellFormed code)]> s2)
      !! directPathOf env t = None /\
    changesOnly (eq (directPathOf env t)) s
      (afterHandler (directPathOf env t) (<[directPathOf env t := File (Js.toWellFormed code)]> s2))).
  { intros code. split; [|split].
    - rewrite afterHandler_other by (apply not_eq_sym, jobsDir_not_jobFile).
      rewrite lookup_insert_ne by (apply not_eq_sym, jobsDir_not_jobFile).
      exact Hj.
    - apply afterHandler_gone, directPath_not_root.
    - eapply changesOnly_trans; [exact H12|].
      eapply changesOnly_trans;
        [apply changesOnly_insert | apply changesOnly_afterHandler]; reflexivity. }
  destruct cmd as [p rac|code|p]; cbn [scriptOf].
  - intros Hr. destruct (Hw _ Hr) as [-> ->].
    destruct (Hdone (importJsx env (escapePath p))) as (A & B & C).
    repeat split; auto.
  - intros Hr. destruct (Hw _ Hr) as [-> ->].
    destruct (Hdone code) as (A & B & C). repeat split; auto.
  - destruct (osascript env (DoScriptFile p)) as [|c out]; [discriminate|].
    destruct (c =? 0); [|discriminate]. cbn [fst snd]. intros [= <-].
    repeat split; auto. intros code [=].
Qed.

(** How the run ends when the automation call fails. *)
Lemma directOutcome_refused (cmd : OnDemandCommand) (t : Z) (s : fs) (e : Exn)
    (code : Js.str) :
  fst (directOutcome env cmd t s) = Throw e ->
  e = AppleScriptFailed \/ e = SpawnFailed ->
  scriptOf env cmd = Some code ->
  snd (directOutcome env cmd t s) !! directPathOf env t = Some (File (Js.toWellFormed code)).
Proof.
  unfold directOutcome.
  fold (jobsDirOf env). fold (directPathOf env t). fold (cmdPathOf env t).
  destruct (mkdirp (locked env) s _) as [s1 made1].
  destruct made1; cbn [negb]; [|intros [= <-] [|]; discriminate].
  destruct (mkdirp (locked env) s1 _) as [s2 made2].
  destruct made2; cbn [negb]; [|intros [= <-] [|]; discriminate].
  assert (Hw : forall code',
    fst match writeFile (locked env) s2 (directPathOf env t) code' with
        | Some s3 =>
            match osascript env (DoScriptFile (directPathOf env t)) with
            | Closed c _ =>
                if c =? 0
                then (Ok {| ok := true;
                            result := Some (freshId env t, "direct"%string, 0);
                            error := None |},
                      afterHandler (directPathOf env t) s3)
                else (Throw AppleScriptFailed, afterHandler (cmdPathOf env t) s3)
            | SpawnError => (Throw SpawnFailed, afterHandler (cmdPathOf env t) s3)
            end
        | None => (Throw (FsError "open" (directPathOf env t)),
                   afterHandler (cmdPathOf env t) s2)
        end = Throw e ->
    e = AppleScriptFailed \/ e = SpawnFailed ->
    snd match writeFile (locked env) s2 (directPathOf env t) code' with
        | Some s3 =>
            match osascript env (DoScriptFile (directPathOf env t)) with
            | Closed c _ =>
                if c =? 0
                then (Ok {| ok := true;
                            result := Some (freshId env t, "direct"%string, 0);
                            error := None |},
                      afterHandler (directPathOf env t) s3)
                else (Throw AppleScriptFailed, afterHandler (cmdPathOf env t) s3)
            | SpawnError => (Throw SpawnFailed, afterHandler (cmdPathOf env t) s3)
            end
        | None => (Throw (FsError "open" (directPathOf env t)),
                   afterHandler (cmdPathOf env t) s2)
        end !! directPathOf env t = Some (File (Js.toWellFormed code'))).
  { intros code'.
    destruct (writeFile (locked env) s2 (directPathOf env t) code') as [s3|] eqn:Ew.
    - apply (writeFile_Some env) in Ew. subst s3.
      assert (Hkept : afterHandler (cmdPathOf env t)
                        (<[directPathOf env t := File (Js.toWellFormed code')]> s2)
                        !! directPathOf env t = Some (File (Js.toWellFormed code'))).
      { rewrite afterHandler_other
          by (apply not_eq_sym, (directPath_not_queued env t)).
        apply lookup_insert_eq. }
      destruct (osascript env (DoScriptFile (directPathOf env t))) as [|c out];
        [|destruct (c =? 0)]; cbn [fst snd]; intros He _;
        [exact Hkept | discriminate | exact Hkept].
    - cbn [fst]. intros [= <-] [|]; discriminate. }
  destruct cmd as [p rac|code0|p]; cbn [scriptOf].
  - intros He Hor [= <-]. apply Hw; assumption.
  - intros He Hor [= <-]. apply Hw; assumption.
  - intros _ _ [=].
Qed.

End DirectEnds.

(** X9: when [runOnDemand] returns, its result is
    [{ok: true, result: {requestId, operation: "direct", elapsedMs: 0}}]
    (so a caller never sees [ok: false]: failures are exceptions), the
    jobs directory exists, and for [run_jsx_text] and [import_audio] the
    throw-away script [rb_<id>_direct.jsx] is no longer on the disk;
    nothing else was removed or rewritten. *)
Theorem runOnDemand_success_leaves_no_script
    (env : Node.Env) (cmd : Node.OnDemandCommand) (w w' : Node.World)
    (r : Node.OnDemandResult) :
  Node.runOnDemand env cmd w = (Node.Ok r, w') ->
  r = NodeSpec.directResult env (Node.clock w) /\
  Node.files w' !! NodeSpec.jobsDirOf env = Some Node.Dir /\
  (forall code, Disk.scriptOf env cmd = Some code ->
     Node.files w' !! NodeSpec.directPathOf env (Node.clock w) = None) /\
  Disk.changesOnly (eq (NodeSpec.directPathOf env (Node.clock w)))
    (Node.files w) (Node.files w').
Proof.
  intros Hrun. destruct (NodeSpec.probeSaysRunning env) eqn:Hup.
  - destruct (runOnDemand_outcome env cmd w Hup) as [tr E].
    rewrite Hrun in E. injection E as Hr ->. cbn [Node.files].
    apply directOutcome_ok. symmetry. exact Hr.
  - rewrite (runOnDemand_down env cmd w Hup) in Hrun. discriminate.
Qed.

Lemma runOnDemand_success_leaves_no_script_witness :
  Node.files
    (snd (Node.runOnDemand NodeSpec.quietEnv
            (Node.import_audio (Js.lit "/tmp/a.wav") (Some true))
            NodeSpec.emptyWorld))
    !! NodeSpec.directPathOf NodeSpec.quietEnv 0 = None.
Proof.
  assert (Hrun : Node.runOnDemand NodeSpec.quietEnv
                   (Node.import_audio (Js.lit "/tmp/a.wav") (Some true))
                   NodeSpec.emptyWorld
                 = (Node.Ok (NodeSpec.directResult NodeSpec.quietEnv 0),
                    snd (Node.runOnDemand NodeSpec.quietEnv
                           (Node.import_audio (Js.lit "/tmp/a.wav") (Some true))
                           NodeSpec.emptyWorld)))
    by (vm_compute; reflexivity).
  destruct (runOnDemand_success_leaves_no_script _ _ _ _ _ Hrun)
    as (_ & _ & Hgone & _).
  apply (Hgone _ eq_refl).
Defined.

(** X10: when the automation call of [runOnDemand] fails (non-zero
    exit code, or the process does not start), the handler that raises
    the error again does not remove the script: for [run_jsx_text] and
    [import_audio] the throw-away script
    [rb_<id>_direct.jsx] stays in the jobs directory, with the text that
    was written (as UTF-8 keeps it). *)
Theorem runOnDemand_failed_call_leaves_script
    (env : Node.Env) (cmd : Node.OnDemandCommand) (w w' : Node.World)
    (e : Node.Exn) (code : Js.str) :
  Node.runOnDemand env cmd w = (Node.Throw e, w') ->
  e = Node.AppleScriptFailed \/ e = Node.SpawnFailed ->
  Disk.scriptOf env cmd = Some code ->
  Node.files w' !! NodeSpec.directPathOf env (Node.clock w)
    = Some (Node.File (Js.toWellFormed code)).
Proof.
  intros Hrun He Hcode. destruct (NodeSpec.probeSaysRunning env) eqn:Hup.
  - destruct (runOnDemand_outcome env cmd w Hup) as [tr E].
    rewrite Hrun in E. injection E as Hr ->. cbn [Node.files].
    apply (directOutcome_refused env cmd _ _ e); auto.
  - rewrite (runOnDemand_down env cmd w Hup) in Hrun.
    injection Hrun as <- _. destruct He; discriminate.
Qed.

Lemma runOnDemand_failed_call_leaves_script_witness :
  Node.files
    (snd (Node.runOnDemand Disk.refusingEnv (Node.run_jsx_text (Js.lit "alert(1)"))
            NodeSpec.emptyWorld))
    !! NodeSpec.directPathOf Disk.refusingEnv 0
  = Some (Node.File (Js.lit "alert(1)")).
Proof.
  apply (runOnDemand_failed_call_leaves_script Disk.refusingEnv
           (Node.run_jsx_text (Js.lit "alert(1)")) NodeSpec.emptyWorld _
           Node.AppleScriptFailed (Js.lit "alert(1)")).
  - vm_compute. reflexivity.
  - left. reflexivity.
  - reflexivity.
Defined.


(** *** The process query and the launch *)

Section Probe.

Import Js.

Lemma stripLeadingWs_ws (a s : str) :
  Forall (fun c => isWhiteSpace c = true) a ->
  stripLeadingWs (a ++ s) = stripLeadingWs s.
Proof.
  induction 1 as [|c a Hc _ IH]; simpl; [reflexivity|]. rewrite Hc. exact IH.
Qed.

(** [trim] removes the white space around a text that neither starts
    nor ends with white space, and nothing else. *)
Lemma trim_padded (a b : str) (c : N) (s : str) :
  Forall (fun c => isWhiteSpace c = true) a ->
  Forall (fun c => isWhiteSpace c = true) b ->
  isWhiteSpace c = false ->
  endsInWs (c :: s) = false ->
  trim (a ++ (c :: s) ++ b) = c :: s.
Proof.
  intros Ha Hb Hc He. unfold trim. rewrite stripLeadingWs_ws by exact Ha.
  cbn [List.app stripLeadingWs]. rewrite Hc.
  rewrite List.app_comm_cons, stripTrailingWs_app_ws by exact Hb.
  apply stripTrailingWs_fixed. exact He.
Qed.

End Probe.

(** X11: [isAfterEffectsRunning] (an alias of [isAERunning]) never
    raises and makes one call, the process query. It answers [true]
    exactly when the query ends with code 0 and its output, trimmed, is
    ["true"]; so a query that cannot be started or ends with another
    code gives [false], and white space around the word (the line feed
    that osascript prints) does not matter. *)
Theorem isAfterEffectsRunning_fails_closed (env : Node.Env) (w : Node.World) :
  exists b,
    Node.isAfterEffectsRunning env w
      = (Node.Ok b, NodeSpec.logged w [Node.ESpawn Node.ProbeProcess]) /\
    (b = true <->
     exists out, Node.osascript env Node.ProbeProcess = Node.Closed 0 out /\
                 Js.trim out = Js.lit "true") /\
    (forall a z,
       Forall (fun c => Js.isWhiteSpace c = true) a ->
       Forall (fun c => Js.isWhiteSpace c = true) z ->
       Node.osascript env Node.ProbeProcess
         = Node.Closed 0 (a ++ Js.lit "true" ++ z) ->
       b = true).
Proof.
  exists (NodeSpec.probeSaysRunning env).
  split; [apply isAERunning_run|].
  assert (Hiff : NodeSpec.probeSaysRunning env = true <->
                 exists out, Node.osascript env Node.ProbeProcess = Node.Closed 0 out /\
                             Js.trim out = Js.lit "true").
  { unfold NodeSpec.probeSaysRunning.
    destruct (Node.osascript env Node.ProbeProcess) as [|code out].
    - split; [discriminate | intros (o & H & _); discriminate].
    - rewrite Bool.andb_true_iff, Z.eqb_eq. unfold Js.eqb.
      rewrite bool_decide_eq_true. split.
      + intros [-> Ht]. eauto.
      + intros (o & [= -> ->] & Ht). auto. }
  split; [exact Hiff|].
  intros a z Ha Hz Hout. apply Hiff. eexists. split; [exact Hout|].
  apply (trim_padded a z 116%N (Js.lit "rue") Ha Hz); reflexivity.
Qed.

(** X12: [ensureAfterEffectsRunning] makes the process query, then
    the [activate] call exactly when the query says that the host is not
    running, then waits on a timer of 2000 ms exactly when that call
    ended with code 0. It returns normally exactly when the host was
    running or the launch ended with code 0; in the second case 2000 ms
    at least have gone by; unless it launched the host it leaves the
    disk as it was. *)
Theorem ensureAfterEffectsRunning_launches_once
    (env : Node.Env) (w : Node.World) :
  let launch := negb (NodeSpec.probeSaysRunning env) in
  let started :=
    match Node.osascript env Node.Activate with
    | Node.Closed code _ => code =? 0
    | Node.SpawnError => false
    end in
  let out := Node.ensureAfterEffectsRunning env w in
  Node.trace (snd out)
    = Node.trace w ++
      Node.ESpawn Node.ProbeProcess ::
      (if launch
       then Node.ESpawn Node.Activate ::
            (if started then [Node.ESleep 2000] else [])
       else []) /\
  (fst out = Node.Ok tt <-> launch = false \/ started = true) /\
  (launch && started = true -> Node.clock w + 2000 <= Node.clock (snd out)) /\
  (launch && started = false -> Node.files (snd out) = Node.files w).
Proof.
  cbv zeta.
  destruct (Node.ensureAfterEffectsRunning env w) as [r w'] eqn:E.
  unfold Node.ensureAfterEffectsRunning in E. unfold Node.bind at 1 in E.
  rewrite isAERunning_run in E.
  destruct (NodeSpec.probeSaysRunning env); cbn [negb andb] in E |- *.
  - injection E as <- <-. cbn. repeat split; auto. discriminate.
  - unfold Node.bind, Node.emit, Node.sleep, Node.throw, NodeSpec.logged in E.
    cbn [Node.files Node.clock Node.trace] in E.
    destruct (Node.osascript env Node.Activate) as [|code out].
    + injection E as <- <-. cbn [fst snd Node.trace Node.clock Node.files].
      rewrite <- !List.app_assoc.
      repeat split; auto; try discriminate. intros [|]; discriminate.
    + destruct (code =? 0); injection E as <- <-;
        cbn [fst snd Node.trace Node.clock Node.files];
        rewrite <- !List.app_assoc.
      * repeat split; auto; try discriminate.
        intros _. apply wakeTime_due.
      * repeat split; auto; try discriminate. intros [|]; discriminate.
Qed.

(** *** Request identifiers *)

Section Identifiers.

Import Node Literal.

Lemma string_of_uint_digits (d : Decimal.uint) :
  Forall (fun c => isDigit c = true)
    (list_ascii_of_string (NilZero.string_of_uint d)).
Proof.
  assert (H : forall u, Forall (fun c => isDigit c = true)
                          (list_ascii_of_string (NilEmpty.string_of_uint u))).
  { induction u; simpl; constructor; solve [reflexivity | assumption]. }
  destruct d; try apply H. repeat constructor.
Qed.

Lemma decimal_digits (z : Z) :
  0 <= z ->
  Forall (fun c => isDigit c = true) (list_ascii_of_string (decimal z)).
Proof.
  intros Hz. unfold decimal, NilZero.string_of_int.
  destruct z as [|p|p]; [| |lia].
  - repeat constructor.
  - apply (string_of_uint_digits (Pos.to_uint p)).
Qed.

Lemma decimal_inj (a b : Z) : decimal a = decimal b -> a = b.
Proof.
  unfold decimal. intros H.
  assert (Hn : forall z, Z.to_int z <> Decimal.Pos Decimal.Nil /\
                         Z.to_int z <> Decimal.Neg Decimal.Nil).
  { intros z. split; intros E; pose proof (DecimalZ.of_to z) as Hz;
      rewrite E in Hz; simpl in Hz; subst z; discriminate E. }
  assert (E : Some (Z.to_int a) = Some (Z.to_int b)).
  { rewrite <- (NilZero.isi (Z.to_int a)) by apply Hn.
    rewrite <- (NilZero.isi (Z.to_int b)) by apply Hn.
    rewrite H. reflexivity. }
  injection E as E. apply (f_equal Z.of_int) in E.
  rewrite !DecimalZ.of_to in E. exact E.
Qed.

(** Two texts of digits followed by a dash and anything are equal only
    when the digits are the same. *)
Lemma digits_dash_inj (x y r1 r2 : list ascii) :
  Forall (fun c => isDigit c = true) x ->
  Forall (fun c => isDigit c = true) y ->
  x ++ "-"%char :: r1 = y ++ "-"%char :: r2 -> x = y /\ r1 = r2.
Proof.
  intros Hx. revert y. induction Hx as [|c x Hc _ IH]; intros y Hy H.
  - destruct Hy as [|d y Hd _]; simpl in H.
    + injection H as <-. auto.
    + injection H as <- _. discriminate Hd.
  - destruct Hy as [|d y Hd Hy]; simpl in H.
    + injection H as -> _. discriminate Hc.
    + injection H as <- H. destruct (IH y Hy H) as [-> ->]. auto.
Qed.

Lemma string_of_list_inj (a b : string) :
  list_ascii_of_string a = list_ascii_of_string b -> a = b.
Proof.
  intros H. rewrite <- (string_of_list_ascii_of_string a),
    <- (string_of_list_ascii_of_string b), H. reflexivity.
Qed.

End Identifiers.

(** X14: the identifier [`${Date.now()}-${random}`] determines the
    time it was made at, whatever the random parts: two identifiers made
    at different (non-negative) clock readings differ, and so do the
    queue files and job files named after them. *)
Theorem freshId_tells_times_apart (env1 env2 : Node.Env) (a b : Z) :
  0 <= a -> 0 <= b ->
  Node.freshId env1 a = Node.freshId env2 b ->
  a = b /\ Node.randomSuffix env1 = Node.randomSuffix env2.
Proof.
  intros Ha Hb H. unfold Node.freshId in H.
  apply (f_equal list_ascii_of_string) in H.
  rewrite !list_ascii_app in H. simpl in H.
  destruct (digits_dash_inj _ _ _ _ (decimal_digits a Ha) (decimal_digits b Hb) H)
    as [Hd Hr].
  split.
  - apply decimal_inj, string_of_list_inj, Hd.
  - apply string_of_list_inj, Hr.
Qed.

Lemma freshId_tells_times_apart_witness :
  1000 = 1000 /\
  Node.randomSuffix NodeSpec.quietEnv = Node.randomSuffix NodeSpec.hostDownEnv.
Proof.
  apply (freshId_tells_times_apart NodeSpec.quietEnv NodeSpec.hostDownEnv 1000 1000).
  - lia.
  - lia.
  - reflexivity.
Defined.


(** *** The path inside the import script *)

Section Escaping.

Import Node Literal.

Lemma escapePath_cons (c : N) (p : Js.str) :
  escapePath (c :: p) = escapeChar c ++ escapePath p.
Proof.
  unfold escapePath, escapeChar, backslash, quote. cbn [List.map List.concat].
  rewrite List.map_app, List.concat_app.
  destruct (c =? 92)%N eqn:Eb.
  - reflexivity.
  - cbn [List.map List.concat]. rewrite List.app_nil_r. reflexivity.
Qed.

Lemma escapePath_nil : escapePath [] = [].
Proof. reflexivity. Qed.

End Escaping.

(** X13: the path escaped by the two replacements of [runOnDemand]
    (and by [escapeForJsSingleQuotedString], which makes the same two)
    and put between single quotes is read by the script language as a
    string literal whose value is the path itself, the text after the
    closing quote being read as what follows, exactly when the path
    holds no line terminator; a path with a line feed, a carriage
    return, U+2028 or U+2029 gives a text that is no literal. *)
Theorem escapePath_reads_back (p rest : Js.str) :
  Literal.readSingleQuoted (Node.escapePath p ++ Literal.quote :: rest)
  = (if forallb (fun c => negb (Literal.isLineTerminator c)) p
     then Some (p, rest)
     else None) /\
  Literal.readSingleQuoted
    (Ui.escapeForJsSingleQuotedString p ++ Literal.quote :: rest)
  = (if forallb (fun c => negb (Literal.isLineTerminator c)) p
     then Some (p, rest)
     else None).
Proof.
  change (Ui.escapeForJsSingleQuotedString p) with (Node.escapePath p).
  assert (H : Literal.readSingleQuoted (Node.escapePath p ++ Literal.quote :: rest)
              = if forallb (fun c => negb (Literal.isLineTerminator c)) p
                then Some (p, rest)
                else None); [|split; exact H].
  induction p as [|c p IH].
  - reflexivity.
  - rewrite escapePath_cons. unfold Literal.escapeChar. cbn [forallb].
    destruct (c =? Literal.backslash)%N eqn:Eb.
    + apply N.eqb_eq in Eb. subst c.
      cbn [List.app Literal.readSingleQuoted].
      change (Literal.backslash =? Literal.quote)%N with false.
      change (Literal.isLineTerminator Literal.backslash) with false.
      rewrite N.eqb_refl. change (Literal.escaped Literal.backslash)
        with (Some Literal.backslash).
      cbn [negb andb]. rewrite IH.
      destruct (forallb _ p); reflexivity.
    + destruct (c =? Literal.quote)%N eqn:Eq.
      * apply N.eqb_eq in Eq. subst c.
        cbn [List.app Literal.readSingleQuoted].
        change (Literal.backslash =? Literal.quote)%N with false.
        change (Literal.isLineTerminator Literal.backslash) with false.
        rewrite N.eqb_refl. change (Literal.escaped Literal.quote)
          with (Some Literal.quote).
        change (Literal.isLineTerminator Literal.quote) with false.
        cbn [negb andb]. rewrite IH.
        destruct (forallb _ p); reflexivity.
      * cbn [List.app Literal.readSingleQuoted]. rewrite Eq, Eb.
        destruct (Literal.isLineTerminator c); cbn [negb andb]; [reflexivity|].
        rewrite IH. destruct (forallb _ p); reflexivity.
Qed.


(** *** What the installer leaves on the disk *)

Section InstallFacts.

Import Node NodeSpec Disk.

Variable env : Env.

Lemma changesOnly_seedAll (own : path -> Prop) (s : fs) (b : path) :
  changesOnly own s (seedAll env s b).
Proof.
  unfold seedAll. generalize seedVersions. intros vs. revert s.
  induction vs as [|v vs IH]; intros s; simpl; [apply changesOnly_refl|].
  eapply changesOnly_trans; [|apply IH]. apply changesOnly_mkdirFrom.
Qed.

Lemma changesOnly_discoverPure (own : path -> Prop) (s : fs) (b : path) :
  changesOnly own s (fst (discoverPure env s b)).
Proof.
  unfold discoverPure.
  pose proof (changesOnly_mkdirFrom own (locked env) b s []) as H1.
  fold (mkdirp (locked env) s b) in H1.
  destruct (versionsAt (fst (mkdirp (locked env) s b)) b); cbn [fst];
    [|exact H1].
  eapply changesOnly_trans; [exact H1 | apply changesOnly_seedAll].
Qed.

Lemma changesOnly_installOne (own : path -> Prop) (s : fs) (b : path) (v : string) :
  own (scriptPathOf b v) -> changesOnly own s (fst (installOne env s b v)).
Proof.
  intros Hown. unfold installOne.
  pose proof (changesOnly_mkdirFrom own (locked env) (startupDirOf b v) s []) as H1.
  fold (mkdirp (locked env) s (startupDirOf b v)) in H1.
  destruct (mkdirp (locked env) s (startupDirOf b v)) as [s1 made].
  cbn [fst] in H1. destruct made; [|exact H1].
  destruct (writeFile (locked env) s1 (scriptPathOf b v) (bridgeCode env))
    as [s2|] eqn:Ew; cbn [fst]; [|exact H1].
  eapply changesOnly_trans; [exact H1|].
  eapply changesOnly_writeFile; eassumption.
Qed.

Lemma changesOnly_installLoop (own : path -> Prop) (vs : list string) (s : fs)
    (b : path) (n : nat) :
  (forall v, own (scriptPathOf b v)) ->
  changesOnly own s (fst (installLoop env s b vs n)).
Proof.
  intros Hown. revert s n. induction vs as [|v vs IH]; intros s n; simpl.
  - apply changesOnly_refl.
  - pose proof (changesOnly_installOne own s b v (Hown v)) as H1.
    destruct (installOne env s b v) as [s1 written]. cbn [fst] in H1.
    eapply changesOnly_trans; [exact H1 | apply IH].
Qed.

Lemma changesOnly_installPure (s : fs) :
  changesOnly (startupScript env) s (fst (installPure env s)).
Proof.
  unfold installPure.
  pose proof (changesOnly_discoverPure (startupScript env) s (preferencesBase env)) as H1.
  destruct (discoverPure env s (preferencesBase env)) as [s1 v1]. cbn [fst] in H1.
  pose proof (changesOnly_discoverPure (startupScript env) s1 (supportBase env)) as H2.
  destruct (discoverPure env s1 (supportBase env)) as [s2 v2]. cbn [fst] in H2.
  pose proof (changesOnly_installLoop (startupScript env) v1 s2 (preferencesBase env) 0) as H3.
  destruct (installLoop env s2 (preferencesBase env) v1 0) as [s3 n1]. cbn [fst] in H3.
  pose proof (changesOnly_installLoop (startupScript env) v2 s3 (supportBase env) n1) as H4.
  eapply changesOnly_trans; [exact H1|].
  eapply changesOnly_trans; [exact H2|].
  eapply changesOnly_trans; [apply H3 | apply H4].
  - intros v. exists (preferencesBase env), v. split; [left; reflexivity | reflexivity].
  - intros v. exists (supportBase env), v.
    split; [right; left; reflexivity | reflexivity].
Qed.

(** The versions counted by the loop have their script on the disk. *)
Lemma installLoop_scripts (vs : list string) (s : fs) (b : path) (n0 : nat) :
  List.NoDup vs ->
  exists L,
    List.NoDup L /\ incl L vs /\
    snd (installLoop env s b vs n0) = (n0 + length L)%nat /\
    forall v, In v L ->
      fst (installLoop env s b vs n0) !! scriptPathOf b v
      = Some (File (Js.toWellFormed (bridgeCode env))).
Proof.
  intros Hnd. revert s n0. induction Hnd as [|v vs Hv Hnd IH]; intros s n0.
  - exists []. simpl. repeat split; [constructor | intros x [] | lia | intros v []].
  - simpl installLoop.
    destruct (installOne env s b v) as [s1 written] eqn:E1.
    destruct (IH s1 (if written then S n0 else n0)) as (L & HL & Hin & Hn & Hs).
    destruct written.
    + exists (v :: L). split; [|split; [|split]].
      * constructor; [|exact HL]. intros H. apply Hv, Hin, H.
      * intros x [<-|Hx]; [left; reflexivity | right; apply Hin, Hx].
      * rewrite Hn. simpl. lia.
      * intros x [<-|Hx]; [|apply Hs, Hx].
        apply (installLoop_grows env vs s1 b (S n0)).
        unfold installOne in E1.
        destruct (mkdirp (locked env) s (startupDirOf b v)) as [sa made].
        destruct made; [|discriminate].
        destruct (writeFile (locked env) sa (scriptPathOf b v) (bridgeCode env))
          as [sb|] eqn:Ew; [|discriminate].
        injection E1 as <-. apply (writeFile_Some env) in Ew. subst sb.
        apply lookup_insert_eq.
    + exists L. split; [exact HL|]. split; [|split; [exact Hn | exact Hs]].
      intros x Hx. right. apply Hin, Hx.
Qed.

Lemma discoverPure_NoDup (s : fs) (b : path) :
  List.NoDup (snd (discoverPure env s b)).
Proof.
  unfold discoverPure.
  destruct (versionsAt (fst (mkdirp (locked env) s b)) b) as [|v vs] eqn:E;
    cbn [snd].
  - apply seedVersions_NoDup.
  - rewrite <- E. apply versionsAt_NoDup.
Qed.

Lemma scriptPathOf_inj (b : path) (v v' : string) :
  scriptPathOf b v = scriptPathOf b v' -> v = v'.
Proof.
  unfold scriptPathOf, startupDirOf. rewrite <- !List.app_assoc. intros H.
  apply List.app_inv_head in H. injection H as H. exact H.
Qed.

Lemma scriptPathOf_bases (v v' : string) :
  scriptPathOf (preferencesBase env) v <> scriptPathOf (supportBase env) v'.
Proof.
  unfold scriptPathOf, startupDirOf, preferencesBase, supportBase.
  rewrite <- !List.app_assoc. intros H. apply List.app_inv_head in H.
  discriminate.
Qed.

(** The number the installer reports is a number of distinct startup
    scripts that hold the bridge code afterwards. *)
Lemma installPure_scripts (s : fs) :
  exists L : list path,
    List.NoDup L /\
    length L = snd (installPure env s) /\
    forall p, In p L ->
      startupScript env p /\
      fst (installPure env s) !! p = Some (File (Js.toWellFormed (bridgeCode env))).
Proof.
  unfold installPure.
  pose proof (discoverPure_NoDup s (preferencesBase env)) as Hv1.
  destruct (discoverPure env s (preferencesBase env)) as [s1 v1]. cbn [snd] in Hv1.
  pose proof (discoverPure_NoDup s1 (supportBase env)) as Hv2.
  destruct (discoverPure env s1 (supportBase env)) as [s2 v2]. cbn [snd] in Hv2.
  destruct (installLoop_scripts v1 s2 (preferencesBase env) 0 Hv1)
    as (L1 & HL1 & _ & Hn1 & Hs1).
  destruct (installLoop env s2 (preferencesBase env) v1 0) as [s3 n1].
  cbn [fst snd] in Hn1, Hs1.
  destruct (installLoop_scripts v2 s3 (supportBase env) n1 Hv2)
    as (L2 & HL2 & _ & Hn2 & Hs2).
  pose proof (installLoop_grows env v2 s3 (supportBase env) n1) as Hg.
  destruct (installLoop env s3 (supportBase env) v2 n1) as [s4 n2].
  cbn [fst snd] in Hn2, Hs2, Hg |- *.
  exists (List.map (scriptPathOf (preferencesBase env)) L1
          ++ List.map (scriptPathOf (supportBase env)) L2).
  split; [|split].
  - apply List.NoDup_app.
    + apply List.NoDup_map_NoDup_ForallPairs; [|exact HL1].
      intros x y _ _. apply scriptPathOf_inj.
    + apply List.NoDup_map_NoDup_ForallPairs; [|exact HL2].
      intros x y _ _. apply scriptPathOf_inj.
    + intros p H1 H2. apply List.in_map_iff in H1, H2.
      destruct H1 as (x & <- & _), H2 as (y & Hy & _).
      symmetry in Hy. exact (scriptPathOf_bases x y Hy).
  - rewrite List.length_app, !List.length_map. lia.
  - intros p Hp. apply List.in_app_or in Hp. destruct Hp as [Hp|Hp];
      apply List.in_map_iff in Hp; destruct Hp as (v & <- & Hv).
    + split.
      * exists (preferencesBase env), v. split; [left; reflexivity | reflexivity].
      * apply (proj1 (proj2 (proj2 (Hg _)))). apply Hs1, Hv.
    + split.
      * exists (supportBase env), v. split; [right; left; reflexivity | reflexivity].
      * apply Hs2, Hv.
Qed.

End InstallFacts.

(** X15: [installUnifiedBridge] never raises, and the
    [installCount] it reports is a number of distinct startup scripts
    ([RaycastBridge.jsx] in [<base>/<version>/Scripts/Startup] for one
    of the two bases) that hold the bridge code (as UTF-8 keeps it) when
    it returns: a version is not counted twice, and a script counted is
    not lost to a later write. *)
Theorem installCount_counts_scripts_on_disk (env : Node.Env) (w : Node.World) :
  exists r w',
    Node.installUnifiedBridge env w = (Node.Ok r, w') /\
    exists L : list Node.path,
      List.NoDup L /\
      length L = Node.installCount r /\
      forall p, In p L ->
        Disk.startupScript env p /\
        Node.files w' !! p = Some (Node.File (Js.toWellFormed (Node.bridgeCode env))).
Proof.
  destruct (installUnifiedBridge_run env w) as [tr E]. cbn [fst snd] in E.
  do 2 eexists. split; [exact E|]. cbn [Node.files].
  destruct (installPure_scripts env (Node.files w)) as (L & HL & Hn & Hs).
  exists L. split; [exact HL|]. split; [|exact Hs].
  rewrite Hn. unfold NodeSpec.resultOf.
  destruct (snd (NodeSpec.installPure env (Node.files w)) =? 0)%nat eqn:E0;
    [apply Nat.eqb_eq in E0; rewrite E0|]; reflexivity.
Qed.

(** X16: [installUnifiedBridge] leaves the clock alone and, apart
    from the startup scripts [RaycastBridge.jsx] of the two bases, which
    it writes, changes nothing on the disk but for the directories it
    creates: it removes nothing and rewrites no other file. *)
Theorem installUnifiedBridge_spares_other_files (env : Node.Env) (w : Node.World) :
  Node.clock (snd (Node.installUnifiedBridge env w)) = Node.clock w /\
  Disk.changesOnly (Disk.startupScript env)
    (Node.files w) (Node.files (snd (Node.installUnifiedBridge env w))).
Proof.
  destruct (installUnifiedBridge_run env w) as [tr E]. rewrite E.
  split; [reflexivity | apply changesOnly_installPure].
Qed.


(** *** What the discovery reports *)

Section Discovery.

Import Node NodeSpec Disk.

Variable env : Env.

(** A path made by [mkdir -p p] is [p] or above it. *)
Lemma mkdirp_lookup (s : fs) (p q : path) :
  fst (mkdirp (locked env) s p) !! q = s !! q \/ q `prefix_of` p.
Proof.
  destruct (changesOnly_mkdirFrom (fun _ => False) (locked env) p s [] q)
    as [[]|[H|[_ H]]]; [left; exact H|].
  apply (mkdirFrom_new env) in H. destruct H as [H|H]; [|right; exact H].
  left. unfold mkdirp.
  destruct (changesOnly_mkdirFrom (fun _ => False) (locked env) p s [] q)
    as [[]|[G|[G _]]]; [exact G | congruence].
Qed.

Lemma seedAll_lookup (s : fs) (b q : path) :
  seedAll env s b !! q = s !! q \/ exists v, q `prefix_of` (b ++ [v]).
Proof.
  unfold seedAll. generalize seedVersions. intros vs. revert s.
  induction vs as [|v vs IH]; intros s; simpl; [auto|].
  destruct (IH (fst (mkdirp (locked env) s (b ++ [v])))) as [H|H]; [|auto].
  rewrite H. destruct (mkdirp_lookup s (b ++ [v]) q); eauto.
Qed.

Lemma discoverPure_lookup (s : fs) (b q : path) :
  fst (discoverPure env s b) !! q = s !! q \/ exists v, q `prefix_of` (b ++ [v]).
Proof.
  unfold discoverPure.
  assert (H1 : fst (mkdirp (locked env) s b) !! q = s !! q \/
               exists v, q `prefix_of` (b ++ [v])).
  { destruct (mkdirp_lookup s b q) as [H|[k H]]; [auto|].
    right. exists ""%string, (k ++ [""%string]). rewrite H.
    rewrite <- List.app_assoc. reflexivity. }
  destruct (versionsAt (fst (mkdirp (locked env) s b)) b); cbn [fst]; [|exact H1].
  destruct (seedAll_lookup (fst (mkdirp (locked env) s b)) b q) as [H|H]; [|auto].
  rewrite H. exact H1.
Qed.

(** A child of a base is above no child of another base of the same
    depth, and above no base. *)
Lemma child_not_above (b b' : path) (n v : string) :
  length b = length b' -> b <> b' -> ~ (b' ++ [n]) `prefix_of` (b ++ [v]).
Proof.
  intros Hlen Hne [k H]. assert (k = []).
  { apply (f_equal (@length string)) in H. rewrite !List.length_app in H.
    simpl in H. destruct k; [reflexivity | simpl in H; lia]. }
  subst k. rewrite List.app_nil_r in H. apply List.app_inj_tail in H.
  destruct H as [H _]. auto.
Qed.

Lemma discoverPure_other_base (s : fs) (b b' : path) (n : string) :
  length b = length b' -> b <> b' ->
  fst (discoverPure env s b) !! (b' ++ [n]) = s !! (b' ++ [n]).
Proof.
  intros Hlen Hne. destruct (discoverPure_lookup s b (b' ++ [n])) as [H|[v H]];
    [exact H|]. destruct (child_not_above b b' n v Hlen Hne H).
Qed.

Lemma mkdirp_child (s : fs) (b : path) (n : string) :
  fst (mkdirp (locked env) s b) !! (b ++ [n]) = s !! (b ++ [n]).
Proof.
  destruct (mkdirp_lookup s b (b ++ [n])) as [H|[k H]]; [exact H|].
  apply (f_equal (@length string)) in H. rewrite !List.length_app in H.
  simpl in H. lia.
Qed.

(** What one discovery reports, on a disk that is a tree. *)
Lemma discoverPure_reports (s : fs) (b : path) :
  wellFormed s ->
  snd (discoverPure env s b) <> [] /\
  (hasVersionFolder s b ->
     (forall n, In n (snd (discoverPure env s b)) <-> s !! (b ++ [n]) = Some Dir) /\
     (forall n, fst (discoverPure env s b) !! (b ++ [n]) = s !! (b ++ [n]))) /\
  (~ hasVersionFolder s b -> snd (discoverPure env s b) = seedVersions).
Proof.
  intros Hwf. unfold discoverPure.
  set (s1 := fst (mkdirp (locked env) s b)).
  assert (Hchild : forall n, s1 !! (b ++ [n]) = s !! (b ++ [n]))
    by (intros n; apply mkdirp_child).
  assert (Hin : forall n, In n (versionsAt s1 b) -> s !! (b ++ [n]) = Some Dir).
  { intros n Hn. apply versionsAt_spec in Hn. rewrite <- Hchild. tauto. }
  assert (Hhas : hasVersionFolder s b ->
                 forall n, s !! (b ++ [n]) = Some Dir -> In n (versionsAt s1 b)).
  { intros _ n Hn. apply versionsAt_spec. split; [|rewrite Hchild; exact Hn].
    apply (look_grows env s s1).
    - apply (mkdirFrom_grows env b s []).
    - apply (Hwf b n). rewrite Hn. eauto. }
  destruct (versionsAt s1 b) as [|v vs] eqn:Ev; cbn [fst snd].
  - split; [discriminate|]. split; [|reflexivity].
    intros [v Hv]. destruct (Hhas (ex_intro _ v Hv) v Hv).
  - split; [discriminate|]. split.
    + intros Hh. split; [|exact Hchild].
      intros n. split; [apply Hin | apply Hhas, Hh].
    + intros Hno. exfalso. apply Hno. exists v. apply Hin. left. reflexivity.
Qed.

Lemma wellFormed_discoverPure (s : fs) (b : path) :
  wellFormed s -> wellFormed (fst (discoverPure env s b)).
Proof. intros Hwf. apply (discoverPure_facts env s b Hwf). Qed.

Lemma discoverAETargets_run (w : World) :
  let d1 := discoverPure env (files w) (preferencesBase env) in
  let d2 := discoverPure env (fst d1) (supportBase env) in
  exists tr,
    discoverAETargets env w =
    (Ok [ {| base := preferencesBase env; versions := snd d1 |};
          {| base := supportBase env; versions := snd d2 |} ],
     {| files := fst d2; clock := clock w; trace := tr |}).
Proof.
  cbv zeta. unfold discoverAETargets, candidates. simpl mapM.
  change (HOME env ++ ["Library"; "Preferences"; "Adobe"; "After Effects"]%string)
    with (preferencesBase env).
  change (HOME env ++ ["Library"; "Application Support"; "Adobe"; "After Effects"]%string)
    with (supportBase env).
  unfold bind at 1.
  destruct (pureRun_discoverTarget env (preferencesBase env) w) as [tr1 E1].
  rewrite E1. cbn [fst snd]. unfold bind at 1. unfold bind at 1.
  match goal with |- context [discoverTarget env _ ?w1] =>
    destruct (pureRun_discoverTarget env (supportBase env) w1) as [tr2 E2] end.
  rewrite E2. cbn [fst snd files clock]. exists tr2. reflexivity.
Qed.

End Discovery.

(** X17: on a disk that is a tree, [discoverAETargets] never
    raises, only creates directories, and returns one target for each of
    the two bases, in order, each with a version list that is not empty.
    For a base that already held a version folder the list is exactly
    the folders that were directly under it, and nothing is created
    directly under that base; for a base that held none the list is
    [25.0, 24.0, 23.0], whether or not these folders could be
    created. *)
Theorem discoverAETargets_reports_versions (env : Node.Env) (w : Node.World) :
  NodeSpec.wellFormed (Node.files w) ->
  exists ts w',
    Node.discoverAETargets env w = (Node.Ok ts, w') /\
    List.map Node.base ts = Node.candidates env /\
    Disk.changesOnly (fun _ => False) (Node.files w) (Node.files w') /\
    forall t, In t ts ->
      Node.versions t <> [] /\
      (Disk.hasVersionFolder (Node.files w) (Node.base t) ->
         (forall n, In n (Node.versions t) <->
                    Node.files w !! (Node.base t ++ [n]) = Some Node.Dir) /\
         (forall n, Node.files w' !! (Node.base t ++ [n])
                    = Node.files w !! (Node.base t ++ [n]))) /\
      (~ Disk.hasVersionFolder (Node.files w) (Node.base t) ->
         Node.versions t = Node.seedVersions).
Proof.
  intros Hwf. destruct (discoverAETargets_run env w) as [tr E]. cbv zeta in E.
  do 2 eexists. split; [exact E|]. split; [reflexivity|]. cbn [Node.files].
  pose proof (bases_length env) as Hlen. pose proof (bases_differ env) as Hne.
  set (s := Node.files w) in *.
  set (b1 := NodeSpec.preferencesBase env) in *.
  set (b2 := NodeSpec.supportBase env) in *.
  pose proof (discoverPure_reports env s b1 Hwf) as (N1 & H1 & S1).
  pose proof (wellFormed_discoverPure env s b1 Hwf) as Hwf1.
  pose proof (discoverPure_reports env _ b2 Hwf1) as (N2 & H2 & S2).
  assert (Hb2 : forall n, fst (NodeSpec.discoverPure env s b1) !! (b2 ++ [n])
                          = s !! (b2 ++ [n])).
  { intros n. apply discoverPure_other_base; [exact Hlen | exact Hne]. }
  assert (Hb1 : forall s0 n, fst (NodeSpec.discoverPure env s0 b2) !! (b1 ++ [n])
                             = s0 !! (b1 ++ [n])).
  { intros s0 n. apply discoverPure_other_base; [symmetry; exact Hlen | auto]. }
  split.
  { eapply changesOnly_trans; apply changesOnly_discoverPure. }
  intros t [<-|[<-|[]]]; cbn [Node.base Node.versions].
  - split; [exact N1|]. split; [|exact S1].
    intros Hh. destruct (H1 Hh) as [Ha Hc]. split; [exact Ha|].
    intros n. rewrite Hb1. apply Hc.
  - split; [exact N2|]. split.
    + intros [v Hv].
      assert (Hh : Disk.hasVersionFolder (fst (NodeSpec.discoverPure env s b1)) b2)
        by (exists v; rewrite Hb2; exact Hv).
      destruct (H2 Hh) as [Ha Hc]. split.
      * intros n. rewrite Ha, Hb2. tauto.
      * intros n. rewrite Hc. apply Hb2.
    + intros Hno. apply S2. intros [v Hv]. apply Hno. exists v.
      rewrite <- Hb2. exact Hv.
Qed.

Lemma discoverAETargets_reports_versions_witness :
  exists ts w',
    Node.discoverAETargets NodeSpec.quietEnv NodeSpec.emptyWorld = (Node.Ok ts, w') /\
    List.map Node.base ts = Node.candidates NodeSpec.quietEnv.
Proof.
  destruct (discoverAETargets_reports_versions NodeSpec.quietEnv NodeSpec.emptyWorld)
    as (ts & w' & E & Hb & _).
  - intros q c [x Hx]. simpl in Hx. rewrite lookup_empty in Hx. discriminate.
  - exists ts, w'. auto.
Defined.


(** *** The log *)

Section Logs.

Import Node NodeSpec Disk.
Local Open Scope js_scope.

Variable env : Env.
Variable toISOString : Z -> Js.str.

Lemma bind_eq {A B} (m : M A) (k : A -> M B) (w : World) :
  bind m k w = match m w with
               | (Ok a, w') => k a w'
               | (Throw e, w') => (Throw e, w')
               end.
Proof. reflexivity. Qed.

Lemma stamps_run (lines : list Js.str) (w : World) :
  mapM (fun l => iso <- nowIso toISOString ;; ret (stamp iso l)) lines w
  = (Ok (List.map (stamp (toISOString (clock w))) lines), w).
Proof.
  induction lines as [|l lines IH]; cbn [mapM List.map]; [reflexivity|].
  rewrite bind_eq, bind_eq. unfold nowIso at 1. rewrite bind_eq.
  unfold dateNow at 1, ret at 1 2. rewrite bind_eq, IH. reflexivity.
Qed.

Lemma appendFileSync_run (p : path) (data : Js.str) (w : World) :
  appendFileSync env p data w =
  match appendFile (locked env) (files w) p data with
  | Some s' => (Ok tt, {| files := s'; clock := clock w;
                          trace := trace w ++ [EWrite p data] |})
  | None => (Throw (FsError "open" p), logged w [EWrite p data])
  end.
Proof.
  unfold appendFileSync, bind, emit, getFiles, putFiles, ret, throw, logged.
  simpl. destruct (appendFile (locked env) (files w) p data); reflexivity.
Qed.




Lemma logDir_child (ext : string) :
  getLogFilePath env ext
  = (HOME env ++ ["Library"; "Logs"; ("raycast-" ++ ext)]%string)
    ++ ["ae-integration.log"%string].
Proof. unfold getLogFilePath. rewrite <- List.app_assoc. reflexivity. Qed.



(** The run of [appendLog]: what it returns and the disk it leaves. *)
Lemma appendLog_run (lines : list Js.str) (ext : string) (w : World) :
  let dir := (HOME env ++ ["Library"; "Logs"; ("raycast-" ++ ext)]%string) in
  let f := getLogFilePath env ext in
  let text := logText toISOString (clock w) lines in
  let s1 := fst (mkdirp (locked env) (files w) dir) in
  exists tr,
    appendLog env toISOString lines ext w =
    if snd (mkdirp (locked env) (files w) dir) then
      match appendFile (locked env) s1 f text with
      | Some s2 =>
          (Ok (Some f),
           {| files := match appendFile (locked env) s2 (desktopLogOf env) text with
                       | Some s3 => s3
                       | None => s2
                       end;
              clock := clock w; trace := tr |})
      | None => (Ok None, {| files := s1; clock := clock w; trace := tr |})
      end
    else (Ok None, {| files := s1; clock := clock w; trace := tr |}).
Proof.
  cbv zeta. unfold appendLog, tryCatch. rewrite bind_eq, mkdirSync_run.
  destruct (mkdirp (locked env) (files w) _) as [s1 made]. cbn [fst snd].
  destruct made; [|eexists; reflexivity].
  rewrite bind_eq, stamps_run. cbn [clock].
  rewrite bind_eq, appendFileSync_run. cbn [files clock trace].
  rewrite <- logDir_child. fold (desktopLogOf env).
  fold (logText toISOString (clock w) lines).
  destruct (appendFile (locked env) s1 (getLogFilePath env ext) _) as [s2|];
    [|eexists; reflexivity].
  rewrite bind_eq. unfold tryIgnore, tryCatch. rewrite appendFileSync_run.
  cbn [files clock trace].
  destruct (appendFile (locked env) s2 (desktopLogOf env) _); eexists; reflexivity.
Qed.

End Logs.

(** X18: [appendLog] never raises and leaves the clock alone. It
    answers either [null] or the path that [getLogFilePath] gives for
    the same extension name; when it answers [null] the log file is what
    it was. Apart from the log file and its copy on the desktop it
    removes or rewrites nothing: the only other changes are directories
    created on the way. *)
Theorem appendLog_answers_with_the_log_path
    (env : Node.Env) (toISOString : Z -> Js.str)
    (lines : list Js.str) (ext : string) (w : Node.World) :
  exists r w',
    Node.appendLog env toISOString lines ext w = (Node.Ok r, w') /\
    Node.clock w' = Node.clock w /\
    (r = None \/ r = Some (Node.getLogFilePath env ext)) /\
    (r = None ->
     Node.files w' !! Node.getLogFilePath env ext
     = Node.files w !! Node.getLogFilePath env ext) /\
    Disk.changesOnly
      (fun p => p = Node.getLogFilePath env ext \/ p = Disk.desktopLogOf env)
      (Node.files w) (Node.files w').
Proof.
  destruct (appendLog_run env toISOString lines ext w) as [tr E]. cbv zeta in E.
  set (own := fun p => p = Node.getLogFilePath env ext \/ p = Disk.desktopLogOf env).
  pose proof (changesOnly_mkdirp env own (Node.files w)
    (Node.HOME env ++ ["Library"; "Logs"; ("raycast-" ++ ext)]%string)) as H1.
  pose proof (mkdirp_child env (Node.files w)
    (Node.HOME env ++ ["Library"; "Logs"; ("raycast-" ++ ext)]%string)
    "ae-integration.log") as Hc.
  rewrite <- logDir_child in Hc.
  destruct (Node.mkdirp (Node.locked env) (Node.files w) _) as [s1 made].
  cbn [fst snd] in E, H1, Hc.
  destruct made.
  - destruct (Node.appendFile (Node.locked env) s1 _ _) as [s2|] eqn:Ea.
    + do 2 eexists. split; [exact E|]. cbn [Node.files Node.clock].
      split; [reflexivity|]. split; [right; reflexivity|].
      split; [discriminate|].
      assert (H2 : Disk.changesOnly own (Node.files w) s2).
      { eapply changesOnly_trans; [exact H1|].
        eapply changesOnly_appendFile; [|exact Ea]. left. reflexivity. }
      destruct (Node.appendFile (Node.locked env) s2 _ _) as [s3|] eqn:Ed;
        [|exact H2].
      eapply changesOnly_trans; [exact H2|].
      eapply changesOnly_appendFile; [|exact Ed]. right. reflexivity.
    + do 2 eexists. split; [exact E|]. cbn [Node.files Node.clock].
      split; [reflexivity|]. split; [left; reflexivity|].
      split; [intros _; exact Hc | exact H1].
  - do 2 eexists. split; [exact E|]. cbn [Node.files Node.clock].
    split; [reflexivity|]. split; [left; reflexivity|].
    split; [intros _; exact Hc | exact H1].
Qed.




(** *** The favorites file *)

Section FavoritesFacts.

Import Node NodeSpec Disk Ui.
Local Open Scope js_scope.

Variable env : Env.
Variable dir : path.
Variable stringifyList : list Js.str -> Js.str.
Variable parseJson : Js.str -> option Json.

Abbreviation primary := (dir ++ ["audio-files-favorites.json"%string]).
Abbreviation legacy := (dir ++ [".audio-files-favorites.json"%string]).
Abbreviation repoFp := (getRepoFallbackFavoritesFilePath env).

Lemma existsSync_run (p : path) (w : World) :
  existsSync p w = (Ok (bool_decide (is_Some (look (files w) p))), logged w [EStat p]).
Proof. reflexivity. Qed.




(** The run of the reader when the first path that exists is [p]. *)
Lemma readList_caught (p : path) (x : node) (w : World)
    (rest : M (option (list Js.str))) :
  look (files w) p = Some x ->
  exists tr,
    tryCatch (orElse parseJson (Some p) rest) (fun _ => ret None) w
    = (Ok (readOf parseJson x), {| files := files w; clock := clock w; trace := tr |}).
Proof.
  intros Hx. unfold tryCatch, orElse. rewrite bind_eq, existsSync_run.
  rewrite Hx. rewrite bool_decide_eq_true_2 by eauto.
  unfold readList. rewrite bind_eq, readFileSync_run. unfold readFile.
  cbn [files logged]. rewrite Hx. destruct x as [|d]; cbn [readOf].
  - eexists. reflexivity.
  - destruct (parseJson d); eexists; reflexivity.
Qed.

Lemma orElse_missing (p : path) (w : World) (rest : M (option (list Js.str))) :
  look (files w) p = None ->
  orElse parseJson (Some p) rest w = rest (logged w [EStat p]).
Proof.
  intros Hx. unfold orElse. rewrite bind_eq, existsSync_run, Hx.
  rewrite bool_decide_eq_false_2; [reflexivity|]. intros [y Hy]. discriminate.
Qed.








(** The reader, path by path. *)
Lemma readFavoritesFile_run (w : World) :
  exists tr,
    readFavoritesFile env (Some dir) parseJson w
    = (Ok match look (files w) primary with
          | Some x => readOf parseJson x
          | None =>
              match look (files w) legacy with
              | Some x => readOf parseJson x
              | None =>
                  match look (files w) repoFp with
                  | Some x => readOf parseJson x
                  | None => None
                  end
              end
          end,
       {| files := files w; clock := clock w; trace := tr |}).
Proof.
  unfold readFavoritesFile, getFavoritesFilePath, getLegacyHiddenFavoritesFilePath.
  destruct (look (files w) primary) as [x|] eqn:E1.
  { apply readList_caught. exact E1. }
  unfold tryCatch at 1. rewrite (orElse_missing _ _ _ E1).
  destruct (look (files w) legacy) as [x|] eqn:E2.
  { destruct (readList_caught legacy x (logged w [EStat primary])
                (orElse parseJson (Some repoFp) (ret None)) E2) as [tr E].
    unfold tryCatch in E. rewrite E. eexists. reflexivity. }
  rewrite (orElse_missing _ (logged w [EStat primary]) _ E2).
  destruct (look (files w) repoFp) as [x|] eqn:E3.
  { destruct (readList_caught repoFp x
                (logged (logged w [EStat primary]) [EStat legacy])
                (ret None) E3) as [tr E].
    unfold tryCatch in E. rewrite E. eexists. reflexivity. }
  rewrite (orElse_missing _ (logged (logged w [EStat primary]) [EStat legacy]) _ E3).
  eexists. reflexivity.
Qed.

End FavoritesFacts.

Section Existing.

Import Node NodeSpec.

Variable env : Env.




End Existing.





(** X22: [readFavoritesFile] never raises and does not change the
    disk. Its answer is read from the first path that exists among the
    file of the audio folder, the legacy hidden file and the fallback
    file, and from that path only: the strings of the array when the
    path is a file holding a JSON array, [null] when it is a directory,
    is not JSON or is not an array (the later paths are not tried); and
    [null] when none of the three exists. *)
Theorem readFavoritesFile_takes_first_existing
    (env : Node.Env) (dir : Node.path) (parseJson : Js.str -> option Ui.Json)
    (w : Node.World) :
  let primary := dir ++ ["audio-files-favorites.json"%string] in
  let legacy := dir ++ [".audio-files-favorites.json"%string] in
  let repoFp := Ui.getRepoFallbackFavoritesFilePath env in
  exists r w',
    Ui.readFavoritesFile env (Some dir) parseJson w = (Node.Ok r, w') /\
    Node.files w' = Node.files w /\
    (forall x, Node.look (Node.files w) primary = Some x ->
               r = Ui.readOf parseJson x) /\
    (forall x, Node.look (Node.files w) primary = None ->
               Node.look (Node.files w) legacy = Some x ->
               r = Ui.readOf parseJson x) /\
    (forall x, Node.look (Node.files w) primary = None ->
               Node.look (Node.files w) legacy = None ->
               Node.look (Node.files w) repoFp = Some x ->
               r = Ui.readOf parseJson x) /\
    (Node.look (Node.files w) primary = None ->
     Node.look (Node.files w) legacy = None ->
     Node.look (Node.files w) repoFp = None ->
     r = None).
Proof.
  cbv zeta. destruct (readFavoritesFile_run env dir parseJson w) as [tr E].
  do 2 eexists. split; [exact E|]. split; [reflexivity|].
  repeat split.
  - intros x ->. reflexivity.
  - intros x -> ->. reflexivity.
  - intros x -> -> ->. reflexivity.
  - intros -> -> ->. reflexivity.
Qed.


(** *** Categories *)

Section Categories.

Import Node Ui.

Lemma indexOf_app_sep (c : Js.str) (rest : Js.str) :
  Forall (fun x => (x =? sep)%N = false) c ->
  indexOf sep (c ++ sep :: rest) = Some (length c).
Proof.
  induction 1 as [|x c Hx _ IH]; simpl.
  - reflexivity.
  - rewrite Hx, IH. reflexivity.
Qed.

Lemma indexOf_none (c : Js.str) :
  Forall (fun x => (x =? sep)%N = false) c -> indexOf sep c = None.
Proof.
  induction 1 as [|x c Hx _ IH]; simpl; [reflexivity|].
  rewrite Hx, IH. reflexivity.
Qed.

End Categories.

(** X23: for a relative folder path whose first component is not
    empty and holds no separator, [topLevelCategoryName] is that first
    component, whatever follows it (a folder named [Root] included). *)
Theorem topLevelCategoryName_first_component
    (c : Js.str) (rest : list Js.str) :
  c <> [] ->
  Forall (fun x => (x =? Ui.sep)%N = false) c ->
  Ui.topLevelCategoryName (Node.join [Ui.sep] (c :: rest)) = c.
Proof.
  intros Hc Hsep. unfold Ui.topLevelCategoryName.
  destruct rest as [|d rest].
  - cbn [Node.join]. destruct c as [|x c]; [contradiction|]. cbn [Js.truthy negb orb].
    unfold Js.eqb. case_bool_decide as E; [symmetry; exact E|].
    rewrite indexOf_none by exact Hsep. reflexivity.
  - assert (Hj : Node.join [Ui.sep] (c :: d :: rest)
                 = c ++ Ui.sep :: Node.join [Ui.sep] (d :: rest)) by reflexivity.
    rewrite Hj. clear Hj.
    assert (Ht : Js.truthy (c ++ Ui.sep :: Node.join [Ui.sep] (d :: rest)) = true)
      by (destruct c; reflexivity).
    rewrite Ht. cbn [negb orb].
    unfold Js.eqb. rewrite bool_decide_eq_false_2.
    + rewrite indexOf_app_sep by exact Hsep.
      rewrite List.firstn_app, List.firstn_all, Nat.sub_diag. cbn [List.firstn].
      apply List.app_nil_r.
    + intros E. assert (Hin : In Ui.sep (Js.lit "Root")).
      { rewrite <- E. apply List.in_or_app. right. left. reflexivity. }
      vm_compute in Hin. intuition discriminate.
Qed.

Lemma topLevelCategoryName_first_component_witness :
  Ui.topLevelCategoryName (Node.join [Ui.sep] [Js.lit "Drums"; Js.lit "Kicks"])
  = Js.lit "Drums".
Proof.
  apply (topLevelCategoryName_first_component (Js.lit "Drums") [Js.lit "Kicks"]).
  - discriminate.
  - repeat constructor.
Defined.

(** *** The shuffle score *)

Section Scores.

Import Ui.

Lemma toInt32_mod (z : Z) : toInt32 z mod 2 ^ 32 = z mod 2 ^ 32.
Proof.
  unfold toInt32. rewrite Zminus_mod_idemp_l. f_equal. lia.
Qed.

Lemma lxor_mod (a b : Z) :
  Z.lxor a b mod 2 ^ 32 = Z.lxor (a mod 2 ^ 32) (b mod 2 ^ 32).
Proof.
  rewrite <- !Z.land_ones by lia. apply Z.bits_inj'. intros n Hn.
  rewrite Z.lxor_spec, !Z.land_spec, Z.lxor_spec.
  destruct (Z.testbit a n), (Z.testbit b n), (Z.testbit (Z.ones 32) n); reflexivity.
Qed.

Lemma xor_mod (a b : Z) :
  xor a b mod 2 ^ 32 = Z.lxor (a mod 2 ^ 32) (b mod 2 ^ 32).
Proof. unfold xor. rewrite lxor_mod, !toInt32_mod. reflexivity. Qed.

Lemma imul_mod (a b : Z) : imul a b mod 2 ^ 32 = (a * b) mod 2 ^ 32.
Proof.
  unfold imul. rewrite toInt32_mod, Z.mul_mod by lia.
  rewrite !toInt32_mod, <- Z.mul_mod by lia. reflexivity.
Qed.

(** The loop computes the FNV-1a hash, up to the sign of the number
    that holds it. *)
Lemma hashFrom_fnv1a (id : Js.str) (h : Z) :
  Forall (fun c => (c < 65536)%N) id ->
  hashFrom h id mod 2 ^ 32 = fnv1a (h mod 2 ^ 32) id.
Proof.
  intros Hid. revert h.
  induction Hid as [|c id Hc _ IH]; intros h; cbn [hashFrom fnv1a].
  - reflexivity.
  - rewrite IH. f_equal. rewrite imul_mod.
    rewrite <- (Zmult_mod_idemp_l (xor h (Z.of_N c))), xor_mod.
    rewrite (Z.mod_small (Z.of_N c)) by lia. reflexivity.
Qed.

End Scores.

(** X24: the numerator of [seededScore] is at least 0 and less than
    1000003, so the score lies in [0, 1) for every identifier and seed
    (the unsigned shift makes the dividend of [%] non-negative); and the
    signed 32-bit operations of the loop compute the 32-bit FNV-1a hash
    of the code units: the numerator is that hash, xor-ed with the low
    32 bits of [Math.floor(seed * 1e9)], modulo 1000003. *)
Theorem seededScore_is_fnv1a (id : Js.str) (scaled : Z) :
  0 <= Ui.seededScore id scaled < 1000003 /\
  (Forall (fun c => (c < 65536)%N) id ->
   Ui.seededScore id scaled
   = Z.lxor (Ui.fnv1a 2166136261 id) (scaled mod 2 ^ 32) mod 1000003).
Proof.
  split.
  - unfold Ui.seededScore, Ui.toUint32.
    assert (H : 0 <= Ui.xor (Ui.hashFrom (2166136261 mod 2 ^ 32) id) scaled mod 2 ^ 32)
      by (apply Z.mod_pos_bound; lia).
    split.
    + apply Z.rem_nonneg; lia.
    + apply Z.rem_bound_pos; lia.
  - intros Hid. unfold Ui.seededScore, Ui.toUint32.
    rewrite xor_mod, (hashFrom_fnv1a id _ Hid), Z.mod_mod by lia.
    change (2166136261 mod 2 ^ 32) with 2166136261.
    apply Z.rem_mod_nonneg; [|lia].
    apply Z.lxor_nonneg. split; intros _.
    + apply Z.mod_pos_bound. lia.
    + clear. assert (forall h, 0 <= h -> 0 <= Ui.fnv1a h id); [|auto with zarith].
      induction id as [|c id IH]; simpl; intros h Hh; [exact Hh|].
      apply IH. apply Z.mod_pos_bound. lia.
Qed.

(** *** The list shown *)

Section Shown.

Import Ui.

Lemma insertByScore_perm (scaled : Z) (x : AudioItem) (l : list AudioItem) :
  Permutation (x :: l) (insertByScore scaled x l).
Proof.
  induction l as [|y r IH]; simpl; [reflexivity|].
  destruct (_ <=? _); [reflexivity|].
  rewrite perm_swap. constructor. exact IH.
Qed.

Lemma sortByScore_perm (scaled : Z) (l : list AudioItem) :
  Permutation l (sortByScore scaled l).
Proof.
  induction l as [|x l IH]; simpl; [reflexivity|].
  rewrite <- insertByScore_perm. constructor. exact IH.
Qed.

End Shown.

Section Order.

Import Ui.

Lemma filter_sublist {A} (f : A -> bool) (l : list A) : sublist (List.filter f l) l.
Proof.
  induction l as [|x l IH]; simpl; [constructor|].
  destruct (f x); constructor; exact IH.
Qed.

Lemma insertByScore_sorted (scaled : Z) (x : AudioItem) (l : list AudioItem) :
  StronglySorted (byScore scaled) l ->
  StronglySorted (byScore scaled) (insertByScore scaled x l).
Proof.
  unfold byScore.
  induction 1 as [|y r Hr IH Hy]; simpl; [repeat constructor|].
  destruct (_ <=? _) eqn:E.
  - apply Z.leb_le in E. constructor; [constructor; assumption|].
    constructor; [exact E|].
    eapply List.Forall_impl; [|exact Hy]. intros a Ha. simpl in Ha. lia.
  - apply Z.leb_gt in E. constructor; [exact IH|].
    apply (Permutation_Forall (insertByScore_perm scaled x r)).
    constructor; [lia | exact Hy].
Qed.

Lemma sortByScore_sorted (scaled : Z) (l : list AudioItem) :
  StronglySorted (byScore scaled) (sortByScore scaled l).
Proof.
  induction l as [|x l IH]; simpl; [constructor|].
  apply insertByScore_sorted, IH.
Qed.

End Order.

(** X25: without a shuffle seed, the list shown is made of items of
    [items], in their order and none twice over; with a seed it is the
    same items, each as many times, in the order of their scores. It
    holds exactly the items of the selection: all items for [All]; the
    items whose path is a favorite for [Favorites]; the items whose
    category is literally [Root] for [Root]; and for any other name the
    items whose top-level category is that name. *)
Theorem filtered_shows_category
    (items : list Ui.AudioItem) (favorites : list Js.str)
    (selected : Js.str) (seed : option Z) (i : Ui.AudioItem) :
  selected <> Js.lit "All" ->
  selected <> Js.lit "Favorites" ->
  (In i (Ui.filtered items favorites selected seed) <->
   In i items /\
   if Js.eqb selected (Js.lit "Root")
   then Ui.category i = Js.lit "Root"
   else Ui.topLevelCategoryName (Ui.category i) = selected) /\
  (In i (Ui.filtered items favorites (Js.lit "All") seed) <-> In i items) /\
  (In i (Ui.filtered items favorites (Js.lit "Favorites") seed) <->
   In i items /\ In (Ui.itemPath i) favorites) /\
  Ui.filtered items favorites (Js.lit "All") None = items /\
  (forall sel,
     sublist (Ui.filtered items favorites sel None) items /\
     Permutation (Ui.filtered items favorites sel seed)
                 (Ui.filtered items favorites sel None) /\
     forall scaled, seed = Some scaled ->
       StronglySorted (Ui.byScore scaled) (Ui.filtered items favorites sel seed)).
Proof.
  intros Hall Hfav.
  assert (Hseed : forall base,
            In i match seed with
                 | Some scaled => Ui.sortByScore scaled base
                 | None => base
                 end <-> In i base).
  { intros base. destruct seed as [scaled|]; [|tauto].
    rewrite <- !list_elem_of_In. rewrite <- (sortByScore_perm scaled base). tauto. }
  unfold Ui.filtered. split; [|split; [|split; [|split]]].
  - rewrite Hseed. unfold Js.eqb at 1.
    rewrite bool_decide_eq_false_2 by exact Hfav.
    unfold Js.eqb at 1. rewrite bool_decide_eq_false_2 by exact Hall.
    cbn [negb]. rewrite List.filter_In.
    destruct (Js.eqb selected (Js.lit "Root")); unfold Js.eqb;
      rewrite bool_decide_eq_true; tauto.
  - rewrite Hseed. reflexivity.
  - rewrite Hseed. unfold Js.eqb at 1.
    rewrite bool_decide_eq_true_2 by reflexivity.
    rewrite List.filter_In. unfold Ui.includes.
    rewrite List.existsb_exists. split.
    + intros [Hi (x & Hx & Hex)]. split; [exact Hi|].
      unfold Js.eqb in Hex. apply bool_decide_eq_true in Hex. subst x. exact Hx.
    + intros [Hi Hp]. split; [exact Hi|]. exists (Ui.itemPath i).
      split; [exact Hp|]. unfold Js.eqb. apply bool_decide_eq_true. reflexivity.
  - reflexivity.
  - intros sel. split; [|split].
    + destruct (Js.eqb sel (Js.lit "Favorites")); [apply filter_sublist|].
      destruct (negb (Js.eqb sel (Js.lit "All"))); [apply filter_sublist|].
      reflexivity.
    + destruct seed as [scaled|]; [|reflexivity].
      symmetry. apply sortByScore_perm.
    + intros scaled ->. apply sortByScore_sorted.
Qed.

Lemma filtered_shows_category_witness :
  In Ui.kick (Ui.filtered [Ui.chime; Ui.kick] [] (Js.lit "Drums") (Some 123456789)) /\
  ~ In Ui.chime (Ui.filtered [Ui.chime; Ui.kick] [] (Js.lit "Drums") (Some 123456789)).
Proof.
  split.
  - apply (proj1 (filtered_shows_category [Ui.chime; Ui.kick] [] (Js.lit "Drums")
                    (Some 123456789) Ui.kick ltac:(discriminate) ltac:(discriminate))).
    split; [right; left; reflexivity | reflexivity].
  - intros H.
    apply (proj1 (filtered_shows_category [Ui.chime; Ui.kick] [] (Js.lit "Drums")
                    (Some 123456789) Ui.chime ltac:(discriminate) ltac:(discriminate)))
      in H.
    destruct H as [_ H]. vm_compute in H. discriminate H.
Defined.
